(** * Scoring and risk analytics of llm_stock_screening

    A shallow embedding of [compute_stock_score] (scoring.py) and
    [calculate_metrics] (plot_analysis.py), and the properties the
    specification states about them.

    Numbers.  The program computes with numpy [float64].  A [float64]
    is modelled as an extended real: a real number, one of the two
    infinities, or NaN, and every operation follows IEEE 754 on
    infinities and NaN.  The finite results come in two layers.  In the
    first, an operation returns the exact real result when its magnitude
    is below [float_max] = 2^1024 and the infinity of the right sign
    otherwise; it serves the statements that hold whatever the rounding:
    values at inputs where every step is exact, and facts about rows,
    columns, frames, exceptions and rankings.  In the second
    ([Binary64]), addition, subtraction, multiplication and division
    round to the nearest binary64 number; it serves the statements whose
    truth depends on rounding: bounds on the drawdowns, the row the
    minimum is found at, and the finiteness of the score.  The sign of
    zero is not modelled. *)

From Stdlib Require Import Reals Lra Lia ZArith.
From stdpp Require Import base list sorting gmap strings.

Open Scope R_scope.

(** ** Extended reals standing for float64 *)

Inductive float64 : Type :=
  | FFin (r : R)
  | FPInf
  | FNInf
  | FNaN.

Definition float_max : R := 2 ^ 1024.

(** The smallest positive float64. *)
Definition float_min : R := / 2 ^ 1074.

Definition R_ltb (a b : R) : bool := if Rlt_dec a b then true else false.
Definition R_eqb (a b : R) : bool := if Req_dec_T a b then true else false.

Definition inf_of_sign (negative : bool) : float64 :=
  if negative then FNInf else FPInf.

(** The value an operation of the first layer delivers for the exact
    result [r]: [r] itself below the overflow threshold (no rounding; see
    [round64] for the second layer). *)
Definition round (r : R) : float64 :=
  if R_ltb (Rabs r) float_max then FFin r else inf_of_sign (R_ltb r 0).

Definition is_finite (x : float64) : bool :=
  match x with FFin _ => true | _ => false end.

Definition is_nan (x : float64) : bool :=
  match x with FNaN => true | _ => false end.

Definition is_negative (x : float64) : bool :=
  match x with
  | FFin r => R_ltb r 0
  | FNInf => true
  | FPInf | FNaN => false
  end.

Definition fneg (x : float64) : float64 :=
  match x with
  | FFin r => FFin (- r)
  | FPInf => FNInf
  | FNInf => FPInf
  | FNaN => FNaN
  end.

Definition fadd (x y : float64) : float64 :=
  match x, y with
  | FNaN, _ | _, FNaN => FNaN
  | FFin a, FFin b => round (a + b)
  | FPInf, FNInf | FNInf, FPInf => FNaN
  | FPInf, _ | _, FPInf => FPInf
  | FNInf, _ | _, FNInf => FNInf
  end.

Definition fsub (x y : float64) : float64 := fadd x (fneg y).

Definition fmul (x y : float64) : float64 :=
  match x, y with
  | FNaN, _ | _, FNaN => FNaN
  | FFin a, FFin b => round (a * b)
  | FFin a, _ =>
      if R_eqb a 0 then FNaN
      else inf_of_sign (xorb (R_ltb a 0) (is_negative y))
  | _, FFin b =>
      if R_eqb b 0 then FNaN
      else inf_of_sign (xorb (is_negative x) (R_ltb b 0))
  | _, _ => inf_of_sign (xorb (is_negative x) (is_negative y))
  end.

Definition fdiv (x y : float64) : float64 :=
  match x, y with
  | FNaN, _ | _, FNaN => FNaN
  | FFin a, FFin b =>
      if R_eqb b 0 then
        if R_eqb a 0 then FNaN else inf_of_sign (R_ltb a 0)
      else round (a / b)
  | FFin _, _ => FFin 0
  | _, FFin b => inf_of_sign (xorb (is_negative x) (R_ltb b 0))
  | _, _ => FNaN
  end.

(** Comparisons: every comparison with NaN is false, except [!=]. *)
Definition flt (x y : float64) : bool :=
  match x, y with
  | FNaN, _ | _, FNaN => false
  | FFin a, FFin b => R_ltb a b
  | FNInf, FNInf | FPInf, _ | _, FNInf => false
  | FNInf, _ | _, FPInf => true
  end.

Definition feq (x y : float64) : bool :=
  match x, y with
  | FFin a, FFin b => R_eqb a b
  | FPInf, FPInf | FNInf, FNInf => true
  | _, _ => false
  end.

Definition fne (x y : float64) : bool := negb (feq x y).
Definition fle (x y : float64) : bool := flt x y || feq x y.
Definition fge (x y : float64) : bool := fle y x.

(** [np.maximum]: the larger operand, NaN when either is NaN. *)
Definition fmaximum (x y : float64) : float64 :=
  match x, y with
  | FNaN, _ | _, FNaN => FNaN
  | _, _ => if flt x y then y else x
  end.

(** [np.log]. *)
Definition flog (x : float64) : float64 :=
  match x with
  | FFin r =>
      if R_ltb 0 r then round (ln r)
      else if R_eqb r 0 then FNInf else FNaN
  | FPInf => FPInf
  | FNInf | FNaN => FNaN
  end.

Definition is_integer (b : R) : bool := R_eqb (frac_part b) 0.
Definition is_odd_integer (b : R) : bool :=
  is_integer b && Z.odd (Int_part b).

(** [x ** y] on float64 scalars (C [pow]). *)
Definition fpow (x y : float64) : float64 :=
  match y with
  | FFin b =>
      if R_eqb b 0 then FFin 1
      else match x with
           | FNaN => FNaN
           | FPInf => if R_ltb b 0 then FFin 0 else FPInf
           | FNInf =>
               if R_ltb b 0 then FFin 0
               else if is_odd_integer b then FNInf else FPInf
           | FFin a =>
               if R_ltb 0 a then round (Rpower a b)
               else if R_eqb a 0 then
                 if R_ltb b 0 then FPInf else FFin 0
               else if is_integer b then
                 round ((if is_odd_integer b then -1 else 1) * Rpower (- a) b)
               else FNaN
           end
  | FPInf =>
      match x with
      | FNaN => FNaN
      | FFin a =>
          if R_eqb (Rabs a) 1 then FFin 1
          else if R_ltb (Rabs a) 1 then FFin 0 else FPInf
      | FPInf | FNInf => FPInf
      end
  | FNInf =>
      match x with
      | FNaN => FNaN
      | FFin a =>
          if R_eqb (Rabs a) 1 then FFin 1
          else if R_ltb (Rabs a) 1 then FPInf else FFin 0
      | FPInf | FNInf => FFin 0
      end
  | FNaN =>
      match x with
      | FFin a => if R_eqb a 1 then FFin 1 else FNaN
      | _ => FNaN
      end
  end.

(** ** Exceptions *)

Inductive exn : Type :=
  | ValueError
  | OverflowError
  | ZeroDivisionError
  | KeyError
  | IndexError.

Inductive outcome (A : Type) : Type :=
  | Return (a : A)
  | Raise (e : exn).
Arguments Return {A} a.
Arguments Raise {A} e.

#[global] Instance outcome_ret : MRet outcome := fun A a => Return a.

#[global] Instance outcome_bind : MBind outcome := fun A B k m =>
  match m with
  | Return a => k a
  | Raise e => Raise e
  end.

(** ** numpy and Python primitives used by scoring.py *)

(** [a[i]] on a one-dimensional array; a negative index counts from the
    end. *)
Definition np_getitem (a : list float64) (i : Z) : outcome float64 :=
  let n := Z.of_nat (length a) in
  let j := if (i <? 0)%Z then (i + n)%Z else i in
  if ((j <? 0) || (n <=? j))%Z then Raise IndexError
  else match a !! Z.to_nat j with
       | Some v => Return v
       | None => Raise IndexError
       end.

(** Python's [a / n] on two ints. *)
Definition py_truediv (a : Z) (n : nat) : outcome float64 :=
  if Nat.eqb n 0 then Raise ZeroDivisionError
  else if R_ltb (Rabs (IZR a / INR n)) float_max
       then Return (FFin (IZR a / INR n))
       else Raise OverflowError.

Definition np_log (a : list float64) : list float64 := map flog a.

Definition np_sub (a b : list float64) : list float64 := zip_with fsub a b.
Definition np_div (a b : list float64) : list float64 := zip_with fdiv a b.

(** [np.diff]: differences of consecutive entries. *)
Definition np_diff (a : list float64) : list float64 :=
  np_sub (tail a) a.

Fixpoint accumulate_from (acc : float64) (a : list float64) : list float64 :=
  match a with
  | [] => []
  | p :: a' => let m := fmaximum acc p in m :: accumulate_from m a'
  end.

(** [np.maximum.accumulate]. *)
Definition np_maximum_accumulate (a : list float64) : list float64 :=
  match a with
  | [] => []
  | p :: a' => p :: accumulate_from p a'
  end.

(** [np.max]; the empty array has no maximum. *)
Definition np_max (a : list float64) : outcome float64 :=
  match a with
  | [] => Raise ValueError
  | d :: a' => Return (foldl fmaximum d a')
  end.

(** [np.arange(n)] as the column of sample positions. *)
Definition np_arange (n : nat) : list float64 :=
  map (fun i => FFin (INR i)) (seq 0 n).

Definition real_of (x : float64) : R :=
  match x with FFin r => r | _ => 0 end.

Definition Rsum (l : list R) : R := foldr Rplus 0 l.
Definition Rmean (l : list R) : R := Rsum l / INR (length l).

(** The population standard deviation,
    [sqrt(mean(abs(a - mean(a))**2))]. *)
Definition population_std (rs : list R) : R :=
  let m := Rmean rs in
  sqrt (Rmean (map (fun r => (Rabs (r - m)) ^ 2) rs)).

(** [np.std].  A non-finite entry makes the mean infinite or NaN, and
    the result NaN; so does the empty array. *)
Definition np_std (a : list float64) : float64 :=
  if forallb is_finite a then
    match a with
    | [] => FNaN
    | _ => round (population_std (map real_of a))
    end
  else FNaN.

(** ** scikit-learn's LinearRegression, one feature

    [fit] validates its input (a NaN or an infinity in [X] or [y] is a
    [ValueError], as is an empty sample or a length mismatch) and then
    solves ordinary least squares with an intercept; in this first layer
    the solution is the exact one over the reals, in closed form, so the
    residuals of an exactly affine series are exactly 0 here, which the
    solver in float64 does not promise ([Binary64.LinearRegression_fit]
    leaves the solver open). *)

Record LinearRegression : Type := {
  coef_ : float64;
  intercept_ : float64
}.

Definition ols_slope (xs ys : list R) : R :=
  let mx := Rmean xs in
  let my := Rmean ys in
  let sxx := Rsum (map (fun a => (a - mx) * (a - mx)) xs) in
  let sxy := Rsum (zip_with (fun a b => (a - mx) * (b - my)) xs ys) in
  if R_eqb sxx 0 then 0 else sxy / sxx.

Definition ols_intercept (xs ys : list R) : R :=
  Rmean ys - ols_slope xs ys * Rmean xs.

Definition LinearRegression_fit (x y : list float64) : outcome LinearRegression :=
  if negb (forallb is_finite x && forallb is_finite y) then Raise ValueError
  else if negb (Nat.eqb (length x) (length y)) then Raise ValueError
  else if Nat.eqb (length x) 0 then Raise ValueError
  else
    let xs := map real_of x in
    let ys := map real_of y in
    Return {| coef_ := round (ols_slope xs ys);
              intercept_ := round (ols_intercept xs ys) |}.

Definition predict (model : LinearRegression) (x : list float64) : list float64 :=
  map (fun xi => fadd (fmul xi (coef_ model)) (intercept_ model)) x.

(** ** scoring.py: compute_stock_score *)

(** Line 39: [(prices_arr[-1] / prices_arr[0]) ** (annualization_factor / len(prices_arr)) - 1]. *)
Definition ann_return (prices_arr : list float64) (annualization_factor : Z)
  : outcome float64 :=
  p_last ← np_getitem prices_arr (-1);
  p_first ← np_getitem prices_arr 0;
  e ← py_truediv annualization_factor (length prices_arr);
  mret (fsub (fpow (fdiv p_last p_first) e) (FFin 1)).

(** Lines 40-41. *)
Definition drawdowns (prices_arr : list float64) : list float64 :=
  let rolling_max := np_maximum_accumulate prices_arr in
  np_div (np_sub rolling_max prices_arr) rolling_max.

(** Line 42. *)
Definition max_dd (prices_arr : list float64) : outcome float64 :=
  np_max (drawdowns prices_arr).

(** Lines 45-49: slope of the fit and standard deviation of its
    residuals. *)
Definition trend_fit (log_prices : list float64) : outcome (float64 * float64) :=
  let x := np_arange (length log_prices) in
  model ← LinearRegression_fit x log_prices;
  let slope := coef_ model in
  let residuals := np_sub log_prices (predict model x) in
  let noise := np_std residuals in
  mret (slope, noise).

(** Line 50: [slope / noise if noise != 0 else 0]. *)
Definition slope_to_noise (slope noise : float64) : float64 :=
  if fne noise (FFin 0) then fdiv slope noise else FFin 0.

Definition compute_stock_score (price_series : list float64)
    (ann_return_weight max_dd_weight slope_to_noise_weight : float64)
    (annualization_factor : Z) : outcome float64 :=
  let prices_arr := price_series in
  if (length prices_arr <? 2)%nat then Return FNInf
  else
    let log_prices := np_log prices_arr in
    let returns := np_diff log_prices in
    ar ← ann_return prices_arr annualization_factor;
    md ← max_dd prices_arr;
    sn ← trend_fit log_prices;
    let s2n := slope_to_noise sn.1 sn.2 in
    let score := fadd (fadd (fmul ann_return_weight ar)
                            (fmul max_dd_weight md))
                      (fmul slope_to_noise_weight s2n) in
    Return score.

(** ** pandas: series operations used by plot_analysis.py

    A column is a list of float64, NaN standing for a missing value; the
    index of a frame is its list of dates.  Index labels are looked up by
    their first position (the frames of this program carry one row per
    date). *)

Definition date : Type := Z.

(** [Series.cummax()]: running maximum, missing values skipped and left
    missing. *)
Fixpoint cummax_from (acc : option float64) (s : list float64) : list float64 :=
  match s with
  | [] => []
  | v :: s' =>
      if is_nan v then FNaN :: cummax_from acc s'
      else
        let m := match acc with
                 | None => v
                 | Some a => if flt a v then v else a
                 end in
        m :: cummax_from (Some m) s'
  end.

Definition cummax (s : list float64) : list float64 := cummax_from None s.

(** [Series.shift(periods)]. *)
Definition shift (periods : nat) (s : list float64) : list float64 :=
  take (length s) (replicate periods FNaN ++ s).

(** [Series.pct_change(periods)]: [s / s.shift(periods) - 1] (on a
    column without missing values, where the forward fill older pandas
    releases apply first changes nothing). *)
Definition pct_change (periods : nat) (s : list float64) : list float64 :=
  map (fun q => fsub q (FFin 1)) (np_div s (shift periods s)).

(** Position and value of the first minimum among the values that are not
    missing. *)
Fixpoint nanargmin_from (best : option (nat * float64)) (i : nat)
    (s : list float64) : option (nat * float64) :=
  match s with
  | [] => best
  | v :: s' =>
      let best' :=
        if is_nan v then best
        else match best with
             | None => Some (i, v)
             | Some (_, bv) => if flt v bv then Some (i, v) else best
             end in
      nanargmin_from best' (S i) s'
  end.

Definition nanargmin (s : list float64) : option (nat * float64) :=
  nanargmin_from None 0 s.

(** [Series.idxmin()]: the label of the first minimum; no minimum is an
    error. *)
Definition idxmin (idx : list date) (s : list float64) : outcome date :=
  match nanargmin s with
  | Some (i, _) =>
      match idx !! i with
      | Some d => Return d
      | None => Raise ValueError
      end
  | None => Raise ValueError
  end.

(** [Series.min()]: NaN when there is no value. *)
Definition series_min (s : list float64) : float64 :=
  match nanargmin s with
  | Some (_, v) => v
  | None => FNaN
  end.

(** Position of a label in the index. *)
Fixpoint get_loc (idx : list date) (d : date) : option nat :=
  match idx with
  | [] => None
  | d' :: idx' => if Z.eqb d' d then Some 0%nat
                  else option_map S (get_loc idx' d)
  end.

(** [frame[mask].index]: the labels of the rows the mask selects. *)
Fixpoint index_where (idx : list date) (mask : list bool) : list date :=
  match idx, mask with
  | d :: idx', b :: mask' =>
      if b then d :: index_where idx' mask' else index_where idx' mask'
  | _, _ => []
  end.

(** ** Frames live in the caller's heap *)

Record DataFrame : Type := {
  index : list date;
  columns : gmap string (list float64)
}.

Definition loc : Type := positive.

(** A computation on the heap of frames that may raise. *)
Definition M (A : Type) : Type :=
  gmap positive DataFrame -> gmap positive DataFrame * outcome A.

#[global] Instance M_ret : MRet M := fun A a h => (h, Return a).

#[global] Instance M_bind : MBind M := fun A B k m h =>
  match m h with
  | (h', Return a) => k a h'
  | (h', Raise e) => (h', Raise e)
  end.

Definition lift {A : Type} (o : outcome A) : M A := fun h => (h, o).

(** [df[col]]. *)
Definition df_getitem (df : loc) (col : string) : M (list float64) :=
  fun h =>
    match h !! df with
    | Some f =>
        match columns f !! col with
        | Some s => (h, Return s)
        | None => (h, Raise KeyError)
        end
    | None => (h, Raise KeyError)
    end.

(** [df[col] = s]: the column is added to (or replaced in) the frame
    [df] refers to. *)
Definition df_setitem (df : loc) (col : string) (s : list float64) : M unit :=
  fun h =>
    match h !! df with
    | Some f =>
        (<[df := {| index := index f; columns := <[col := s]> (columns f) |}]> h,
         Return tt)
    | None => (h, Raise KeyError)
    end.

(** [df.index]. *)
Definition df_index (df : loc) : M (list date) :=
  fun h =>
    match h !! df with
    | Some f => (h, Return (index f))
    | None => (h, Raise KeyError)
    end.

(** [df.loc[d, col]]. *)
Definition df_loc (df : loc) (d : date) (col : string) : M float64 :=
  idx ← df_index df;
  s ← df_getitem df col;
  lift (match get_loc idx d with
        | Some i => match s !! i with
                    | Some v => Return v
                    | None => Raise KeyError
                    end
        | None => Raise KeyError
        end).

(** ** plot_analysis.py: calculate_metrics *)

Record Stats : Type := {
  max_drawdown_date : date;
  max_drawdown_value : float64;
  peak_date : date;
  recovery_date : option date
}.

Definition calculate_metrics (df : loc) : M (loc * Stats) :=
  (* --- Drawdown --- *)
  close ← df_getitem df "Close";
  _ ← df_setitem df "Peak" (cummax close);
  close ← df_getitem df "Close";
  peak ← df_getitem df "Peak";
  peak' ← df_getitem df "Peak";
  _ ← df_setitem df "Drawdown" (np_div (np_sub close peak) peak');
  (* --- Rolling Returns --- *)
  close ← df_getitem df "Close";
  _ ← df_setitem df "Return_1Y" (pct_change 252 close);
  close ← df_getitem df "Close";
  _ ← df_setitem df "Return_2Y" (pct_change 504 close);
  close ← df_getitem df "Close";
  _ ← df_setitem df "Return_3Y" (pct_change (252 * 3) close);
  (* --- Key Statistics for Annotations --- *)
  idx ← df_index df;
  drawdown ← df_getitem df "Drawdown";
  max_drawdown_date ← lift (idxmin idx drawdown);
  drawdown ← df_getitem df "Drawdown";
  let max_drawdown_value := series_min drawdown in
  peak_value ← df_loc df max_drawdown_date "Peak";
  close ← df_getitem df "Close";
  peak_date ← lift (match index_where idx (map (fun c => feq c peak_value) close) with
                    | d :: _ => Return d
                    | [] => Raise IndexError
                    end);
  (* post_trough_df = df.loc[max_drawdown_date:] *)
  start ← lift (match get_loc idx max_drawdown_date with
                | Some i => Return i
                | None => Raise KeyError
                end);
  let post_idx := drop start idx in
  let post_close := drop start close in
  let recovery_dates :=
    index_where post_idx (map (fun c => fge c peak_value) post_close) in
  let recovery_date := match recovery_dates with
                       | d :: _ => Some d
                       | [] => None
                       end in
  mret (df, {| max_drawdown_date := max_drawdown_date;
               max_drawdown_value := max_drawdown_value;
               peak_date := peak_date;
               recovery_date := recovery_date |}).

(** * Reference quantities over the reals *)

(** The magnitude of [r] is within the float64 range. *)
Definition in_range (r : R) : Prop := Rabs r < float_max.

(** A price the specification calls valid: a finite, strictly positive
    float64. *)
Definition valid_price (p : R) : Prop := float_min <= p < float_max.


(** ** The running maximum and the drawdowns over the reals *)

Fixpoint running_max_from (acc : R) (l : list R) : list R :=
  match l with
  | [] => []
  | p :: l' => Rmax acc p :: running_max_from (Rmax acc p) l'
  end.

Definition running_max (l : list R) : list R :=
  match l with
  | [] => []
  | p :: l' => p :: running_max_from p l'
  end.

Fixpoint nondecreasing_from (a : R) (l : list R) : Prop :=
  match l with
  | [] => True
  | p :: l' => a <= p /\ nondecreasing_from p l'
  end.

(** Every price is at least its predecessor. *)
Definition nondecreasing (l : list R) : Prop :=
  match l with
  | [] => True
  | p :: l' => nondecreasing_from p l'
  end.

(** The drawdown magnitudes of scoring.py over the reals. *)
Definition drawdown_of (m p : R) : R := (m - p) / m.

Definition drawdowns_R (l : list R) : list R :=
  zip_with drawdown_of (running_max l) l.


(** ** The trend fit and the score over the reals *)









Definition growth_R (ps : list R) (af : Z) : R :=
  Rpower (List.last ps 0 / List.hd 0 ps) (IZR af / INR (length ps)).

Definition ann_return_R (ps : list R) (af : Z) : R := growth_R ps af - 1.

Definition max_dd_R (ps : list R) : R :=
  match drawdowns_R ps with
  | [] => 0
  | d :: ds => foldl Rmax d ds
  end.




(** ** calculate_metrics, read off the heap

    The frame [calculate_metrics] leaves behind and the statistics it
    returns, as functions of the frame's index and its Close column. *)

Definition with_metrics (f : DataFrame) (close : list float64) : DataFrame :=
  let peak := cummax close in
  {| index := index f;
     columns :=
       <["Return_3Y" := pct_change (252 * 3) close]>
         (<["Return_2Y" := pct_change 504 close]>
            (<["Return_1Y" := pct_change 252 close]>
               (<["Drawdown" := np_div (np_sub close peak) peak]>
                  (<["Peak" := peak]> (columns f))))) |}.

Definition key_statistics (idx : list date) (close : list float64)
  : outcome Stats :=
  let peak := cummax close in
  let drawdown := np_div (np_sub close peak) peak in
  max_drawdown_date ← idxmin idx drawdown;
  peak_value ← match get_loc idx max_drawdown_date with
               | Some i => match peak !! i with
                           | Some v => Return v
                           | None => Raise KeyError
                           end
               | None => Raise KeyError
               end;
  peak_date ← match index_where idx (map (fun c => feq c peak_value) close) with
              | d :: _ => Return d
              | [] => Raise IndexError
              end;
  start ← match get_loc idx max_drawdown_date with
          | Some i => Return i
          | None => Raise KeyError
          end;
  Return {| max_drawdown_date := max_drawdown_date;
            max_drawdown_value := series_min drawdown;
            peak_date := peak_date;
            recovery_date :=
              match index_where (drop start idx)
                      (map (fun c => fge c peak_value) (drop start close)) with
              | d :: _ => Some d
              | [] => None
              end |}.

(** ** Positions of the key statistics over the reals *)

Fixpoint first_index {A : Type} (f : A -> bool) (l : list A) : option nat :=
  match l with
  | [] => None
  | x :: l' => if f x then Some 0%nat else option_map S (first_index f l')
  end.

(** The Drawdown column of plot_analysis.py: [(p - peak) / peak]. *)
Definition signed_drawdown_of (p m : R) : R := (p - m) / m.

Definition signed_drawdowns_R (ps : list R) : list R :=
  zip_with signed_drawdown_of ps (running_max ps).

Fixpoint argmin_from (bi : nat) (bv : R) (i : nat) (l : list R) : nat * R :=
  match l with
  | [] => (bi, bv)
  | v :: l' =>
      if R_ltb v bv then argmin_from i v (S i) l'
      else argmin_from bi bv (S i) l'
  end.

(** Position and value of the first minimum. *)
Definition argmin (l : list R) : nat * R :=
  match l with
  | [] => (0%nat, 0)
  | v :: l' => argmin_from 0 v 1 l'
  end.

Definition trough_index (ps : list R) : nat :=
  (argmin (signed_drawdowns_R ps)).1.

Definition peak_value_R (ps : list R) : R :=
  nth (trough_index ps) (running_max ps) 0.

Definition peak_index (ps : list R) : option nat :=
  first_index (fun p => R_eqb p (peak_value_R ps)) ps.

Definition recovery_index (ps : list R) : option nat :=
  option_map (Nat.add (trough_index ps))
    (first_index (fun p => R_ltb (peak_value_R ps) p || R_eqb (peak_value_R ps) p)
       (drop (trough_index ps) ps)).

(** ** The frames of the scenarios *)

(** Four prices on four equally spaced dates. *)
Definition scenario_prices : list R := [100; 120; 90; 150].
Definition scenario_dates : list date := [10; 20; 30; 40]%Z.

Definition frame_of (dates : list date) (prices : list R) : DataFrame :=
  {| index := dates; columns := {["Close" := map FFin prices]} |}.

(** A heap holding one frame, at address 1. *)
Definition heap_of (f : DataFrame) : gmap positive DataFrame := {[1%positive := f]}.

(** A two-point decline. *)
Definition decline_prices : list R := [100; 90].
Definition decline_dates : list date := [10; 20]%Z.

(** A peak that is touched twice before the trough. *)
Definition plateau_prices : list R := [100; 120; 120; 90].

(** The claimed peak row: the last row [j] at or before the trough whose
    price equals the running peak there. *)
Definition last_peak_row (ps : list R) (trough j : nat) : Prop :=
  (j <= trough)%nat
  /\ is_Some (ps !! j) /\ ps !! j = running_max ps !! j
  /\ forall k, (j < k <= trough)%nat -> ps !! k <> running_max ps !! k.



(** The columns calculate_metrics writes. *)
Definition derived_columns : list string :=
  ["Peak"; "Drawdown"; "Return_1Y"; "Return_2Y"; "Return_3Y"].

(** ** plot_analysis.py: what the charts draw from the statistics *)

(** plot_price_chart, lines 101-104: the two ends and the label of the
    span shaded as the maximum drawdown period; an unrecovered drawdown is
    shaded up to the last date of the frame, [df.index[-1]]. *)
Definition drawdown_period_span (idx : list date) (stats : Stats)
  : outcome (date * date * string) :=
  match recovery_date stats with
  | Some r => Return (peak_date stats, r, "Max Drawdown Period")
  | None =>
      match last idx with
      | Some d => Return (peak_date stats, d, "Max Drawdown Period (Ongoing)")
      | None => Raise IndexError
      end
  end.

(** plot_drawdown_chart, lines 117-121: the days from peak to recovery
    that the annotation reports, when there is a recovery. *)
Definition time_to_recover (stats : Stats) : option Z :=
  match recovery_date stats with
  | Some r => Some (r - peak_date stats)%Z
  | None => None
  end.

(** Dates in strictly ascending order. *)
Definition ascending (idx : list date) : Prop :=
  forall i j a b, (i < j)%nat -> idx !! i = Some a -> idx !! j = Some b -> (a < b)%Z.

(** ** generate_scoring.py: get_ranked_stocks

    [all_scores] is the dictionary that score_stocks_in_folder returns,
    as the list of its (ticker, score) items in insertion order. *)

Record RankedStock : Type := {
  ranking : Z;
  ticker : string;
  score : float64
}.

(** [sorted(items, key=lambda item: item[1], reverse=True)]: Python's sort
    is stable, also in reverse; on keys that are not NaN this determines
    the result, which insertion from the right computes. *)
Fixpoint insert_by_score (x : string * float64) (s : list (string * float64))
  : list (string * float64) :=
  match s with
  | [] => [x]
  | y :: s' => if flt x.2 y.2 then y :: insert_by_score x s' else x :: y :: s'
  end.

Definition sorted_by_score (items : list (string * float64))
  : list (string * float64) :=
  foldr insert_by_score [] items.

(** [l[:k]]; a negative [k] counts from the end. *)
Definition py_slice_to {A : Type} (l : list A) (k : Z) : list A :=
  take (Z.to_nat (if (k <? 0)%Z then Z.of_nat (length l) + k else k)) l.

(** [enumerate(l, start)]. *)
Fixpoint enumerate {A : Type} (start : Z) (l : list A) : list (Z * A) :=
  match l with
  | [] => []
  | x :: l' => (start, x) :: enumerate (start + 1) l'
  end.

Definition get_ranked_stocks (all_scores : list (string * float64)) (top_n : Z)
  : list RankedStock :=
  match all_scores with
  | [] => []
  | _ =>
      let sorted_scores := sorted_by_score all_scores in
      let num_to_show := Z.min top_n (Z.of_nat (length sorted_scores)) in
      let top_stocks_with_scores := py_slice_to sorted_scores num_to_show in
      match top_stocks_with_scores with
      | [] => []
      | _ =>
          map (fun entry : Z * (string * float64) =>
                 {| ranking := entry.1;
                    ticker := entry.2.1;
                    score := entry.2.2 |})
            (enumerate 1 top_stocks_with_scores)
      end
  end.

(** The (ticker, score) items of a ranking. *)
Definition ranked_items (r : list RankedStock) : list (string * float64) :=
  map (fun e => (ticker e, score e)) r.

(** No score is NaN. *)
Definition scores_comparable (items : list (string * float64)) : Prop :=
  Forall (fun it => is_nan it.2 = false) items.

(** The first item does not score below the second. *)
Definition ge_score (a b : string * float64) : Prop := flt a.2 b.2 = false.

(** Four scored stocks, one of them unscorable (the sentinel), two tied. *)
Definition example_scores : list (string * float64) :=
  [("AAA", FFin 1); ("BBB", FNInf); ("CCC", FFin 1); ("DDD", FFin 2)].

(** ** File names: nasdaq_downloader.py and score_stocks_in_folder

    Tickers, dates and file names are ASCII strings. *)

Definition underscore : Ascii.ascii := Ascii.ascii_of_nat 95.

(** The strings on which the byte-wise [str_upper] and [str_lower] below
    are Python's [upper] and [lower]. *)
Fixpoint is_ascii (s : string) : bool :=
  match s with
  | EmptyString => true
  | String c s' => (Ascii.nat_of_ascii c <? 128)%nat && is_ascii s'
  end.

Definition ascii_upper (c : Ascii.ascii) : Ascii.ascii :=
  let n := Ascii.nat_of_ascii c in
  if ((97 <=? n) && (n <=? 122))%nat then Ascii.ascii_of_nat (n - 32) else c.

Definition ascii_lower (c : Ascii.ascii) : Ascii.ascii :=
  let n := Ascii.nat_of_ascii c in
  if ((65 <=? n) && (n <=? 90))%nat then Ascii.ascii_of_nat (n + 32) else c.

(** [s.upper()]. *)
Fixpoint str_upper (s : string) : string :=
  match s with
  | EmptyString => EmptyString
  | String c s' => String (ascii_upper c) (str_upper s')
  end.

(** [s.lower()]. *)
Fixpoint str_lower (s : string) : string :=
  match s with
  | EmptyString => EmptyString
  | String c s' => String (ascii_lower c) (str_lower s')
  end.

(** [s.endswith(suffix)]. *)
Fixpoint endswith (s suffix : string) : bool :=
  if String.eqb s suffix then true
  else match s with
       | EmptyString => false
       | String _ s' => endswith s' suffix
       end.

(** [s.split('_')[0]]: the part before the first underscore, all of [s]
    when it has none. *)
Fixpoint before_underscore (s : string) : string :=
  match s with
  | EmptyString => EmptyString
  | String c s' =>
      if Ascii.eqb c underscore then EmptyString else String c (before_underscore s')
  end.

Fixpoint contains_underscore (s : string) : bool :=
  match s with
  | EmptyString => false
  | String c s' => Ascii.eqb c underscore || contains_underscore s'
  end.

(** nasdaq_downloader.py, line 111: the name of the file the data is
    saved under. *)
Definition output_filename (ticker start_date end_date : string) : string :=
  String.append (str_upper ticker)
    (String.append "_"
       (String.append start_date
          (String.append "_to_" (String.append end_date ".csv")))).

(** generate_scoring.py, line 28: [filename.lower().endswith('.csv')]. *)
Definition is_csv (filename : string) : bool :=
  endswith (str_lower filename) ".csv".

(** generate_scoring.py, line 31: [filename.split('_')[0]]. *)
Definition ticker_of_filename (filename : string) : string :=
  before_underscore filename.

(** * binary64 arithmetic

    The definitions above deliver the exact real result of every finite
    operation; they are used for the statements that do not depend on
    rounding.  The definitions below round: an addition, subtraction,
    multiplication or division returns the binary64 number nearest to the
    exact result (ties to even, gradual underflow), or an infinity when
    that number is 2^1024 or more in magnitude, as IEEE 754 prescribes.
    The finite values of a [float64] are then the representable reals,
    [is_float].  The sign of zero is not modelled. *)

(** 2^e. *)
Definition bpow (e : Z) : R := powerRZ 2 e.

(** The binade of [x]: 2^(mag x - 1) <= |x| < 2^(mag x). *)
Definition mag (x : R) : Z := (Int_part (ln (Rabs x) / ln 2) + 1)%Z.

(** The exponent of the last place of [x]: 53 significant bits, and no
    finer than 2^-1074 (gradual underflow). *)
Definition cexp (x : R) : Z := Z.max (mag x - 53) (-1074).

(** The nearest integer, ties to the even one. *)
Definition rne (y : R) : Z :=
  let f := Int_part y in
  if Rlt_dec (y - IZR f) (/ 2) then f
  else if Rlt_dec (/ 2) (y - IZR f) then (f + 1)%Z
  else if Z.even f then f else (f + 1)%Z.

(** The binary64 number nearest to [x], the exponent range unbounded
    above. *)
Definition rnd (x : R) : R := IZR (rne (x * bpow (- cexp x))) * bpow (cexp x).

(** The reals binary64 represents exactly (the exponent range unbounded
    above; [round64] applies the overflow threshold). *)
Definition is_float (x : R) : Prop :=
  exists m e : Z, x = IZR m * bpow e /\ (Z.abs m < 2 ^ 53)%Z /\ (-1074 <= e)%Z.

(** The value a binary64 operation delivers for the exact result [r]. *)
Definition round64 (r : R) : float64 :=
  if R_ltb (Rabs (rnd r)) float_max then FFin (rnd r)
  else inf_of_sign (R_ltb r 0).

Definition fadd64 (x y : float64) : float64 :=
  match x, y with
  | FNaN, _ | _, FNaN => FNaN
  | FFin a, FFin b => round64 (a + b)
  | FPInf, FNInf | FNInf, FPInf => FNaN
  | FPInf, _ | _, FPInf => FPInf
  | FNInf, _ | _, FNInf => FNInf
  end.

Definition fsub64 (x y : float64) : float64 := fadd64 x (fneg y).

Definition fmul64 (x y : float64) : float64 :=
  match x, y with
  | FNaN, _ | _, FNaN => FNaN
  | FFin a, FFin b => round64 (a * b)
  | FFin a, _ =>
      if R_eqb a 0 then FNaN
      else inf_of_sign (xorb (R_ltb a 0) (is_negative y))
  | _, FFin b =>
      if R_eqb b 0 then FNaN
      else inf_of_sign (xorb (is_negative x) (R_ltb b 0))
  | _, _ => inf_of_sign (xorb (is_negative x) (is_negative y))
  end.

Definition fdiv64 (x y : float64) : float64 :=
  match x, y with
  | FNaN, _ | _, FNaN => FNaN
  | FFin a, FFin b =>
      if R_eqb b 0 then
        if R_eqb a 0 then FNaN else inf_of_sign (R_ltb a 0)
      else round64 (a / b)
  | FFin _, _ => FFin 0
  | _, FFin b => inf_of_sign (xorb (is_negative x) (R_ltb b 0))
  | _, _ => FNaN
  end.

(** A finite, strictly positive binary64 price. *)
Definition float_price (p : R) : Prop := is_float p /\ 0 < p < float_max.

(** Python's [a / n] on two ints: the quotient correctly rounded,
    [OverflowError] when it is too large for a float. *)
Definition py_truediv64 (a : Z) (n : nat) : outcome float64 :=
  if Nat.eqb n 0 then Raise ZeroDivisionError
  else if R_ltb (Rabs (rnd (IZR a / INR n))) float_max
       then Return (FFin (rnd (IZR a / INR n)))
       else Raise OverflowError.

(** ** The library functions

    [np.log], the power of two float64 scalars (C [pow]), the least-squares
    solver behind [LinearRegression.fit] and [np.std] are not correctly
    rounded operations: IEEE 754 does not fix their results.  They are
    taken as functions, [lib_ok] stating the little that is assumed of
    them. *)
Record NumLib : Type := {
  lib_log : float64 -> float64;
  lib_pow : float64 -> float64 -> float64;
  (** slope and intercept of the least-squares line through the points *)
  lib_lstsq : list float64 -> list float64 -> float64 * float64;
  lib_std : list float64 -> float64
}.

(** The logarithm of a finite positive number is finite; a finite power
    of a base that is neither negative nor NaN is +infinity or a
    non-negative number, and a power of 1 is 1 (C99, Annex F). *)
Record lib_ok (L : NumLib) : Prop := {
  lib_log_finite : forall p : R,
    float_price p -> is_finite (lib_log L (FFin p)) = true;
  lib_pow_nonneg : forall (x : float64) (b : R),
    is_nan x = false -> is_negative x = false ->
    lib_pow L x (FFin b) = FPInf
    \/ exists y : R, lib_pow L x (FFin b) = FFin y /\ 0 <= y;
  lib_pow_one : forall y : float64, lib_pow L (FFin 1) y = FFin 1
}.

(** The program on binary64 arithmetic.  Comparisons, maxima and minima
    are exact, so [np_maximum_accumulate], [np_max], [cummax], [idxmin],
    [series_min] and the masks are the ones above. *)
Module Binary64.

Definition np_sub (a b : list float64) : list float64 := zip_with fsub64 a b.
Definition np_div (a b : list float64) : list float64 := zip_with fdiv64 a b.

(** [Series.pct_change(periods)]: [s / s.shift(periods) - 1]. *)
Definition pct_change (periods : nat) (s : list float64) : list float64 :=
  map (fun q => fsub64 q (FFin 1)) (np_div s (shift periods s)).

(** scoring.py, lines 40-41. *)
Definition drawdowns (prices_arr : list float64) : list float64 :=
  let rolling_max := np_maximum_accumulate prices_arr in
  np_div (np_sub rolling_max prices_arr) rolling_max.

(** scoring.py, line 42. *)
Definition max_dd (prices_arr : list float64) : outcome float64 :=
  np_max (drawdowns prices_arr).

(** scoring.py, line 39:
    [(prices_arr[-1] / prices_arr[0]) ** (annualization_factor / len(prices_arr)) - 1]. *)
Definition ann_return (L : NumLib) (prices_arr : list float64)
    (annualization_factor : Z) : outcome float64 :=
  p_last ← np_getitem prices_arr (-1);
  p_first ← np_getitem prices_arr 0;
  e ← py_truediv64 annualization_factor (length prices_arr);
  mret (fsub64 (lib_pow L (fdiv64 p_last p_first) e) (FFin 1)).

(** [LinearRegression().fit(x, y)]: the input validation of scikit-learn,
    then the solver. *)
Definition LinearRegression_fit (L : NumLib) (x y : list float64)
  : outcome LinearRegression :=
  if negb (forallb is_finite x && forallb is_finite y) then Raise ValueError
  else if negb (Nat.eqb (length x) (length y)) then Raise ValueError
  else if Nat.eqb (length x) 0 then Raise ValueError
  else
    Return {| coef_ := (lib_lstsq L x y).1; intercept_ := (lib_lstsq L x y).2 |}.

(** [model.predict(x)]: [x @ coef_ + intercept_]. *)
Definition predict (model : LinearRegression) (x : list float64) : list float64 :=
  map (fun xi => fadd64 (fmul64 xi (coef_ model)) (intercept_ model)) x.

(** scoring.py, lines 45-49. *)
Definition trend_fit (L : NumLib) (log_prices : list float64)
  : outcome (float64 * float64) :=
  let x := np_arange (length log_prices) in
  model ← LinearRegression_fit L x log_prices;
  let slope := coef_ model in
  let residuals := np_sub log_prices (predict model x) in
  let noise := lib_std L residuals in
  mret (slope, noise).

(** scoring.py, line 50: [slope / noise if noise != 0 else 0]. *)
Definition slope_to_noise (slope noise : float64) : float64 :=
  if fne noise (FFin 0) then fdiv64 slope noise else FFin 0.

(** scoring.py, lines 6-55. *)
Definition compute_stock_score (L : NumLib) (price_series : list float64)
    (ann_return_weight max_dd_weight slope_to_noise_weight : float64)
    (annualization_factor : Z) : outcome float64 :=
  let prices_arr := price_series in
  if (length prices_arr <? 2)%nat then Return FNInf
  else
    let log_prices := map (lib_log L) prices_arr in
    let returns := np_sub (tail log_prices) log_prices in
    ar ← ann_return L prices_arr annualization_factor;
    md ← max_dd prices_arr;
    sn ← trend_fit L log_prices;
    let s2n := slope_to_noise sn.1 sn.2 in
    let score := fadd64 (fadd64 (fmul64 ann_return_weight ar)
                                (fmul64 max_dd_weight md))
                        (fmul64 slope_to_noise_weight s2n) in
    Return score.

(** plot_analysis.py, lines 65-89. *)
Definition calculate_metrics (df : loc) : M (loc * Stats) :=
  (* --- Drawdown --- *)
  close ← df_getitem df "Close";
  _ ← df_setitem df "Peak" (cummax close);
  close ← df_getitem df "Close";
  peak ← df_getitem df "Peak";
  peak' ← df_getitem df "Peak";
  _ ← df_setitem df "Drawdown" (np_div (np_sub close peak) peak');
  (* --- Rolling Returns --- *)
  close ← df_getitem df "Close";
  _ ← df_setitem df "Return_1Y" (pct_change 252 close);
  close ← df_getitem df "Close";
  _ ← df_setitem df "Return_2Y" (pct_change 504 close);
  close ← df_getitem df "Close";
  _ ← df_setitem df "Return_3Y" (pct_change (252 * 3) close);
  (* --- Key Statistics for Annotations --- *)
  idx ← df_index df;
  drawdown ← df_getitem df "Drawdown";
  max_drawdown_date ← lift (idxmin idx drawdown);
  drawdown ← df_getitem df "Drawdown";
  let max_drawdown_value := series_min drawdown in
  peak_value ← df_loc df max_drawdown_date "Peak";
  close ← df_getitem df "Close";
  peak_date ← lift (match index_where idx (map (fun c => feq c peak_value) close) with
                    | d :: _ => Return d
                    | [] => Raise IndexError
                    end);
  (* post_trough_df = df.loc[max_drawdown_date:] *)
  start ← lift (match get_loc idx max_drawdown_date with
                | Some i => Return i
                | None => Raise KeyError
                end);
  let post_idx := drop start idx in
  let post_close := drop start close in
  let recovery_dates :=
    index_where post_idx (map (fun c => fge c peak_value) post_close) in
  let recovery_date := match recovery_dates with
                       | d :: _ => Some d
                       | [] => None
                       end in
  mret (df, {| max_drawdown_date := max_drawdown_date;
               max_drawdown_value := max_drawdown_value;
               peak_date := peak_date;
               recovery_date := recovery_date |}).

(** The frame [calculate_metrics] leaves behind and the statistics it
    returns, as functions of the frame's index and its Close column. *)
Definition with_metrics (f : DataFrame) (close : list float64) : DataFrame :=
  let peak := cummax close in
  {| index := index f;
     columns :=
       <["Return_3Y" := pct_change (252 * 3) close]>
         (<["Return_2Y" := pct_change 504 close]>
            (<["Return_1Y" := pct_change 252 close]>
               (<["Drawdown" := np_div (np_sub close peak) peak]>
                  (<["Peak" := peak]> (columns f))))) |}.

Definition key_statistics (idx : list date) (close : list float64)
  : outcome Stats :=
  let peak := cummax close in
  let drawdown := np_div (np_sub close peak) peak in
  max_drawdown_date ← idxmin idx drawdown;
  peak_value ← match get_loc idx max_drawdown_date with
               | Some i => match peak !! i with
                           | Some v => Return v
                           | None => Raise KeyError
                           end
               | None => Raise KeyError
               end;
  peak_date ← match index_where idx (map (fun c => feq c peak_value) close) with
              | d :: _ => Return d
              | [] => Raise IndexError
              end;
  start ← match get_loc idx max_drawdown_date with
          | Some i => Return i
          | None => Raise KeyError
          end;
  Return {| max_drawdown_date := max_drawdown_date;
            max_drawdown_value := series_min drawdown;
            peak_date := peak_date;
            recovery_date :=
              match index_where (drop start idx)
                      (map (fun c => fge c peak_value) (drop start close)) with
              | d :: _ => Some d
              | [] => None
              end |}.

End Binary64.

(** ** The binary64 drawdowns as reals *)

(** [(p - m) / m] in binary64: an entry of the Drawdown column of
    plot_analysis.py. *)
Definition signed_drawdown64 (p m : R) : R := rnd (rnd (p - m) / m).

(** [(m - p) / m] in binary64: an entry of the drawdown array of
    scoring.py. *)
Definition drawdown64 (m p : R) : R := rnd (rnd (m - p) / m).

Definition signed_drawdowns64 (ps : list R) : list R :=
  zip_with signed_drawdown64 ps (running_max ps).

Definition drawdowns64 (ps : list R) : list R :=
  zip_with drawdown64 (running_max ps) ps.

(** The row of the first minimum of the binary64 Drawdown column, the
    running peak there, the first row that touches that peak, and the
    first row from the trough on that is back at it. *)
Definition trough_index64 (ps : list R) : nat :=
  (argmin (signed_drawdowns64 ps)).1.

Definition peak_value64 (ps : list R) : R :=
  nth (trough_index64 ps) (running_max ps) 0.

Definition peak_index64 (ps : list R) : option nat :=
  first_index (fun p => R_eqb p (peak_value64 ps)) ps.

Definition recovery_index64 (ps : list R) : option nat :=
  option_map (Nat.add (trough_index64 ps))
    (first_index (fun p => R_ltb (peak_value64 ps) p || R_eqb (peak_value64 ps) p)
       (drop (trough_index64 ps) ps)).

(** The largest binary64 drawdown: [max_dd] of scoring.py as a real. *)
Definition max_dd64 (ps : list R) : R :=
  match drawdowns64 ps with
  | [] => 0
  | d :: ds => foldl Rmax d ds
  end.

(** A price of 1 followed by one of 2^-60. *)
Definition collapse_prices : list R := [1; bpow (-60)].


(** ** A library to instantiate the interface with

    The correctly rounded functions: the exact results of the definitions
    above, rounded to binary64. *)
Definition rounded (v : float64) : float64 :=
  match v with
  | FFin r => round64 r
  | _ => v
  end.

Definition rounded_lstsq (x y : list float64) : float64 * float64 :=
  let xs := map real_of x in
  let ys := map real_of y in
  (round64 (ols_slope xs ys), round64 (ols_intercept xs ys)).

Definition reference_lib : NumLib :=
  {| lib_log := fun x => rounded (flog x);
     lib_pow := fun x y => rounded (fpow x y);
     lib_lstsq := rounded_lstsq;
     lib_std := fun a => rounded (np_std a) |}.

(** A binary64 price of at least 2^-968: the difference of two such
    prices is not subnormal. *)
Definition normal_price (p : R) : Prop :=
  is_float p /\ bpow (-968) <= p < float_max.
(** * Properties *)

(** ** Arithmetic of the float64 model *)

Lemma R_ltb_true (a b : R) : a < b -> R_ltb a b = true.
Proof. intros H. unfold R_ltb. destruct (Rlt_dec a b); [reflexivity | contradiction]. Qed.

Lemma R_ltb_false (a b : R) : b <= a -> R_ltb a b = false.
Proof. intros H. unfold R_ltb. destruct (Rlt_dec a b); [lra | reflexivity]. Qed.

Lemma R_eqb_true (a b : R) : a = b -> R_eqb a b = true.
Proof. intros H. unfold R_eqb. destruct (Req_dec_T a b); [reflexivity | contradiction]. Qed.

Lemma R_eqb_false (a b : R) : a <> b -> R_eqb a b = false.
Proof. intros H. unfold R_eqb. destruct (Req_dec_T a b); [contradiction | reflexivity]. Qed.

Lemma float_max_large : 2 ^ 20 <= float_max.
Proof. unfold float_max. apply Rle_pow; [lra | lia]. Qed.

Lemma float_max_million : 1000000 < float_max.
Proof. pose proof float_max_large as H. simpl in H. lra. Qed.

Lemma float_min_pos : 0 < float_min.
Proof. unfold float_min. apply Rinv_0_lt_compat, pow_lt. lra. Qed.

Lemma float_min_le_1 : float_min <= 1.
Proof.
  unfold float_min. rewrite <- Rinv_1. apply Rinv_le_contravar; [lra|].
  apply pow_R1_Rle. lra.
Qed.

Lemma ln_le_minus_1 (y : R) : 0 < y -> ln y <= y - 1.
Proof.
  intros Hy. pose proof (exp_ineq1_le (ln y)) as H.
  rewrite exp_ln in H by exact Hy. lra.
Qed.

Lemma ln_float_max : ln float_max <= 1024.
Proof.
  unfold float_max. rewrite ln_pow by lra.
  pose proof (ln_le_minus_1 2 ltac:(lra)) as H2.
  assert (0 <= ln 2) by (rewrite <- ln_1; left; apply ln_increasing; lra).
  replace (INR 1024) with 1024 by (rewrite INR_IZR_INZ; reflexivity). nra.
Qed.

Lemma ln_float_min : -1074 <= ln float_min.
Proof.
  unfold float_min. rewrite ln_Rinv by (apply pow_lt; lra).
  rewrite ln_pow by lra.
  pose proof (ln_le_minus_1 2 ltac:(lra)) as H2.
  assert (0 <= ln 2) by (rewrite <- ln_1; left; apply ln_increasing; lra).
  replace (INR 1074) with 1074 by (rewrite INR_IZR_INZ; reflexivity). nra.
Qed.



Lemma float_max_gt_large : 2 ^ 600 < float_max.
Proof. unfold float_max. apply Rlt_pow; [lra | lia]. Qed.


Lemma float_max_pow : float_max = 2 ^ 1024.
Proof. reflexivity. Qed.

Lemma float_min_pow : float_min = / 2 ^ 1074.
Proof. reflexivity. Qed.

#[global] Opaque float_max float_min.

Lemma round_finite (r : R) : Rabs r < float_max -> round r = FFin r.
Proof. intros H. unfold round. by rewrite R_ltb_true. Qed.

Lemma valid_price_pos (p : R) : valid_price p -> 0 < p < float_max.
Proof. unfold valid_price. pose proof float_min_pos. lra. Qed.

Lemma fmaximum_fin (a b : R) : fmaximum (FFin a) (FFin b) = FFin (Rmax a b).
Proof.
  unfold fmaximum, flt, R_ltb, Rmax.
  destruct (Rlt_dec a b), (Rle_dec a b); try reflexivity; try lra.
  f_equal. lra.
Qed.

Lemma accumulate_from_fin (acc : R) (l : list R) :
  accumulate_from (FFin acc) (map FFin l) = map FFin (running_max_from acc l).
Proof.
  revert acc. induction l as [|p l IH]; intros acc; [reflexivity|].
  cbn [accumulate_from map running_max_from]. cbv zeta.
  rewrite fmaximum_fin, IH. reflexivity.
Qed.

Lemma np_maximum_accumulate_fin (l : list R) :
  np_maximum_accumulate (map FFin l) = map FFin (running_max l).
Proof.
  destruct l as [|p l]; [reflexivity|].
  cbn [np_maximum_accumulate map running_max]. by rewrite accumulate_from_fin.
Qed.

Lemma fsub_fin (a b : R) : Rabs (a - b) < float_max -> fsub (FFin a) (FFin b) = FFin (a - b).
Proof. intros H. unfold fsub; simpl. replace (a + - b) with (a - b) by lra. by apply round_finite. Qed.

Lemma fdiv_fin (a b : R) :
  b <> 0 -> Rabs (a / b) < float_max -> fdiv (FFin a) (FFin b) = FFin (a / b).
Proof. intros Hb H. simpl. rewrite R_eqb_false by done. by apply round_finite. Qed.

(** One drawdown, [(m - p) / m], for a price [p] below its peak [m]. *)
Lemma drawdown_fin (m p : R) :
  0 < p <= m -> m < float_max ->
  fdiv (fsub (FFin m) (FFin p)) (FFin m) = FFin ((m - p) / m) /\
  0 <= (m - p) / m < 1.
Proof.
  intros Hp Hm.
  assert (Hq : 0 <= (m - p) / m < 1).
  { split.
    - apply Rmult_le_pos; [lra|]. left. apply Rinv_0_lt_compat. lra.
    - apply (Rmult_lt_reg_r m); [lra|]. field_simplify; lra. }
  split; [|exact Hq].
  rewrite fsub_fin by (rewrite Rabs_pos_eq; lra).
  apply fdiv_fin; [lra|]. pose proof float_max_million. rewrite Rabs_pos_eq; lra.
Qed.

Lemma drawdowns_from_fin (acc : R) (l : list R) :
  0 < acc < float_max -> Forall valid_price l ->
  let ms := running_max_from acc l in
  np_div (np_sub (map FFin ms) (map FFin l)) (map FFin ms)
    = map FFin (zip_with drawdown_of ms l)
  /\ Forall (fun d => 0 <= d < 1) (zip_with drawdown_of ms l)
  /\ (Forall (fun d => d = 0) (zip_with drawdown_of ms l)
      <-> nondecreasing_from acc l).
Proof.
  intros Hacc Hl. cbv zeta. revert acc Hacc.
  induction Hl as [|p l Hp Hl IH]; intros acc Hacc.
  - cbn. repeat split; auto.
  - cbn [running_max_from]. cbv zeta. apply valid_price_pos in Hp.
    assert (Hm : 0 < Rmax acc p < float_max).
    { unfold Rmax. destruct (Rle_dec acc p); lra. }
    assert (Hpm : 0 < p <= Rmax acc p).
    { split; [apply Hp | apply Rmax_r]. }
    destruct (IH (Rmax acc p) Hm) as (E & B & Z).
    destruct (drawdown_fin (Rmax acc p) p Hpm (proj2 Hm)) as [E1 B1].
    split; [|split; [|split]].
    + unfold np_div, np_sub in *. cbn [map zip_with].
      rewrite E1, E. reflexivity.
    + cbn [zip_with]. constructor; [exact B1 | exact B].
    + cbn [zip_with]. intros Hall. inversion Hall as [|d ds Hd Hds]; subst.
      cbn [nondecreasing_from].
      assert (Hle : acc <= p).
      { unfold drawdown_of in Hd.
        assert (Rmax acc p - p = 0).
        { apply (Rmult_eq_reg_r (/ Rmax acc p)).
          - unfold Rdiv in Hd. lra.
          - apply Rinv_neq_0_compat. lra. }
        pose proof (Rmax_l acc p). lra. }
      split; [exact Hle|].
      apply Z in Hds. by rewrite Rmax_right in Hds.
    + cbn [nondecreasing_from zip_with]. intros [Hle Hnd].
      rewrite Rmax_right in * by exact Hle.
      constructor.
      * unfold drawdown_of. unfold Rdiv. replace (p - p) with 0 by lra. lra.
      * by apply Z.
Qed.

Lemma drawdowns_fin (l : list R) :
  Forall valid_price l ->
  drawdowns (map FFin l) = map FFin (drawdowns_R l)
  /\ Forall (fun d => 0 <= d < 1) (drawdowns_R l)
  /\ (Forall (fun d => d = 0) (drawdowns_R l) <-> nondecreasing l).
Proof.
  intros Hl. unfold drawdowns. cbv zeta. rewrite np_maximum_accumulate_fin.
  destruct Hl as [|p l Hp Hl]; [cbn; repeat split; auto|].
  unfold drawdowns_R. cbn [running_max nondecreasing].
  apply valid_price_pos in Hp.
  destruct (drawdowns_from_fin p l Hp Hl) as (E & B & Z).
  destruct (drawdown_fin p p) as [E1 B1]; [lra | apply Hp |].
  split; [|split; [|split]].
  - unfold np_div, np_sub in *. cbn [map zip_with].
    rewrite E1, E. reflexivity.
  - cbn [zip_with]. constructor; [exact B1 | exact B].
  - cbn [zip_with]. intros H. inversion H; subst. by apply Z.
  - cbn [zip_with]. intros H. constructor; [|by apply Z].
    unfold drawdown_of, Rdiv. replace (p - p) with 0 by lra. lra.
Qed.

Lemma foldl_fmaximum_fin (d : R) (ds : list R) :
  foldl fmaximum (FFin d) (map FFin ds) = FFin (foldl Rmax d ds).
Proof.
  revert d. induction ds as [|x ds IH]; intros d; [reflexivity|].
  cbn [map foldl]. by rewrite fmaximum_fin, IH.
Qed.

Lemma foldl_Rmax_range (d : R) (ds : list R) :
  0 <= d < 1 -> Forall (fun x => 0 <= x < 1) ds ->
  0 <= foldl Rmax d ds < 1
  /\ (foldl Rmax d ds = 0 <-> d = 0 /\ Forall (fun x => x = 0) ds).
Proof.
  intros Hd Hds. revert d Hd.
  induction Hds as [|x ds Hx Hds IH]; intros d Hd.
  - cbn. split; [lra|]. split; [intros ->; by split | by intros [-> _]].
  - cbn [foldl].
    assert (Hm : 0 <= Rmax d x < 1).
    { unfold Rmax. destruct (Rle_dec d x); lra. }
    destruct (IH _ Hm) as [B Z]. split; [exact B|].
    rewrite Z. split.
    + intros [Hz Hall].
      assert (d = 0 /\ x = 0) as [-> ->].
      { pose proof (Rmax_l d x). pose proof (Rmax_r d x). lra. }
      split; [reflexivity | by constructor].
    + intros [-> Hall]. inversion Hall; subst.
      split; [apply Rmax_left; lra | done].
Qed.

Lemma max_dd_fin (ps : list R) :
  Forall valid_price ps -> ps <> [] ->
  max_dd (map FFin ps) = Return (FFin (max_dd_R ps))
  /\ 0 <= max_dd_R ps < 1
  /\ (max_dd_R ps = 0 <-> nondecreasing ps).
Proof.
  intros Hps Hne.
  destruct (drawdowns_fin ps Hps) as (E & B & Z).
  unfold max_dd, max_dd_R. rewrite E.
  destruct (drawdowns_R ps) as [|d ds] eqn:Hdd.
  - destruct ps as [|p ps]; [done | discriminate Hdd].
  - cbn [map np_max]. rewrite foldl_fmaximum_fin.
    inversion B as [|? ? Bd Bds]; subst.
    destruct (foldl_Rmax_range d ds Bd Bds) as [R0 R1].
    split; [reflexivity|]. split; [exact R0|].
    rewrite R1, <- Z. split.
    + intros [-> H]. by constructor.
    + intros H. inversion H; subst. by split.
Qed.

(** ** The components of the score on finite input *)






Lemma np_getitem_first (p : float64) (l : list float64) :
  np_getitem (p :: l) 0 = Return p.
Proof.
  unfold np_getitem. cbv zeta.
  replace (0 <? 0)%Z with false by reflexivity.
  replace ((0 <? 0)%Z || (Z.of_nat (length (p :: l)) <=? 0)%Z) with false.
  - reflexivity.
  - symmetry. apply orb_false_intro; [reflexivity|].
    apply Z.leb_gt. cbn [length]. lia.
Qed.

Lemma np_getitem_last (l : list float64) (d : float64) :
  l <> [] -> np_getitem l (-1) = Return (List.last l d).
Proof.
  intros Hne. unfold np_getitem. cbv zeta.
  replace (-1 <? 0)%Z with true by reflexivity.
  assert (Hlen : (0 < length l)%nat) by (destruct l; [done | cbn; lia]).
  replace ((-1 + Z.of_nat (length l) <? 0)%Z
           || (Z.of_nat (length l) <=? -1 + Z.of_nat (length l))%Z) with false.
  2:{ symmetry. apply orb_false_intro; [apply Z.ltb_ge | apply Z.leb_gt]; lia. }
  replace (Z.to_nat (-1 + Z.of_nat (length l))) with (pred (length l)) by lia.
  destruct (l !! pred (length l)) as [v|] eqn:Hv.
  - f_equal. clear Hlen. revert Hv. induction l as [|x l IH]; [done|].
    destruct l as [|y l]; cbn in *; [congruence|].
    intros Hv. apply IH; [done | exact Hv].
  - apply lookup_ge_None in Hv. lia.
Qed.

Lemma last_map_FFin (l : list R) : List.last (map FFin l) (FFin 0) = FFin (List.last l 0).
Proof.
  induction l as [|x l IH]; [reflexivity|].
  destruct l as [|y l]; [reflexivity | exact IH].
Qed.

Lemma valid_price_last (ps : list R) :
  Forall valid_price ps -> ps <> [] -> valid_price (List.last ps 0).
Proof.
  intros H Hne. induction H as [|p ps Hp Hps IH]; [done|].
  destruct ps as [|q ps]; [exact Hp | apply IH; done].
Qed.

Lemma ratio_pos (a b : R) : 0 < a -> 0 < b -> 0 < a / b.
Proof. intros Ha Hb. apply Rmult_lt_0_compat; [exact Ha | by apply Rinv_0_lt_compat]. Qed.

(** Line 39 on valid prices. *)
Lemma ann_return_fin (ps : list R) (af : Z) :
  Forall valid_price ps -> ps <> [] ->
  in_range (IZR af / INR (length ps)) ->
  in_range (List.last ps 0 / List.hd 0 ps) ->
  in_range (growth_R ps af) ->
  in_range (ann_return_R ps af) ->
  ann_return (map FFin ps) af = Return (FFin (ann_return_R ps af)).
Proof.
  intros Hps Hne He Hq Hg Ha. unfold ann_return.
  rewrite (np_getitem_last _ (FFin 0)) by (by destruct ps).
  rewrite last_map_FFin, length_map.
  pose proof (valid_price_last ps Hps Hne) as Hl. apply valid_price_pos in Hl.
  destruct ps as [|p ps]; [done|]. inversion Hps as [|? ? Hp _]; subst.
  apply valid_price_pos in Hp.
  cbn [map]. rewrite np_getitem_first.
  cbn [mbind outcome_bind]. unfold py_truediv.
  cbn [Nat.eqb length]. rewrite R_ltb_true by exact He.
  cbn [mbind outcome_bind mret outcome_ret]. f_equal.
  cbn [List.hd] in Hq.
  rewrite fdiv_fin by (first [lra | exact Hq]).
  assert (Hr : 0 < List.last (p :: ps) 0 / p) by (apply ratio_pos; lra).
  unfold ann_return_R, growth_R in *. cbn [List.hd] in *.
  set (r := List.last (p :: ps) 0 / p) in *.
  set (e := IZR af / INR (length (p :: ps))) in *.
  assert (Hpow : fpow (FFin r) (FFin e) = FFin (Rpower r e)).
  { unfold fpow. destruct (Req_dec_T e 0) as [E0|E0].
    - rewrite R_eqb_true by exact E0. rewrite E0. by rewrite Rpower_O.
    - rewrite R_eqb_false by exact E0. rewrite R_ltb_true by exact Hr.
      by apply round_finite. }
  change (IZR af / INR (S (length ps))) with e.
  rewrite Hpow. by apply fsub_fin.
Qed.









(** ** Concrete series *)

Lemma in_range_small (r : R) : -1000000 <= r <= 1000000 -> in_range r.
Proof.
  intros H. unfold in_range. pose proof float_max_million.
  apply Rabs_def1; lra.
Qed.

Lemma valid_price_small (p : R) : 1 <= p <= 1000000 -> valid_price p.
Proof.
  intros H. unfold valid_price.
  pose proof float_max_million. pose proof float_min_le_1. lra.
Qed.

Ltac valid_prices :=
  repeat (apply List.Forall_cons; [apply valid_price_small; lra|]);
  apply List.Forall_nil.




Lemma Rpower_base_1 (e : R) : Rpower 1 e = 1.
Proof. unfold Rpower. rewrite ln_1, Rmult_0_r. apply exp_0. Qed.







(** ** C6 *)

(** C6.  On a series of fewer than two points compute_stock_score returns
    the sentinel -infinity as an ordinary value, whatever the weights and
    the annualization factor; no exception is raised. *)
Theorem short_series_returns_neg_inf (ps : list float64)
    (w1 w2 w3 : float64) (af : Z) :
  (length ps < 2)%nat ->
  compute_stock_score ps w1 w2 w3 af = Return FNInf.
Proof.
  intros Hlen. unfold compute_stock_score. cbv zeta.
  by replace (length ps <? 2)%nat with true by (symmetry; apply Nat.ltb_lt; lia).
Qed.

Lemma short_series_returns_neg_inf_witness :
  compute_stock_score [FFin 100] (FFin 2) (FFin (-3)) (FFin 1) 252
  = Return FNInf.
Proof.
  apply (short_series_returns_neg_inf [FFin 100]). cbn. lia.
Defined.

(** ** C3 *)






(** ** C7 *)




Lemma constant_series_valid : Forall valid_price [50; 50; 50; 50].
Proof. valid_prices. Qed.





(** ** C9 *)



(** ** calculate_metrics on the heap *)

Lemma calculate_metrics_run (h : gmap positive DataFrame) (df : loc)
    (f : DataFrame) (close : list float64) :
  h !! df = Some f -> columns f !! "Close" = Some close ->
  calculate_metrics df h
  = (<[df := with_metrics f close]> h,
     match key_statistics (index f) close with
     | Return s => Return (df, s)
     | Raise e => Raise e
     end).
Proof.
  intros Hdf Hclose. unfold calculate_metrics.
  unfold mbind, M_bind, df_loc, df_getitem, df_setitem, df_index, lift, mbind, M_bind.
  simplify_map_eq. rewrite !insert_insert_eq.
  unfold key_statistics, with_metrics. cbv zeta.
  unfold mbind, outcome_bind.
  destruct (idxmin (index f) _) as [d|e]; [|reflexivity].
  destruct (get_loc (index f) d) as [i|]; [|reflexivity].
  destruct (cummax close !! i) as [v|]; [|reflexivity].
  destruct (index_where (index f) _) as [|pd pds]; reflexivity.
Qed.

(** ** The columns of calculate_metrics on valid prices *)

Lemma cummax_from_fin (acc : R) (l : list R) :
  cummax_from (Some (FFin acc)) (map FFin l) = map FFin (running_max_from acc l).
Proof.
  revert acc. induction l as [|p l IH]; intros acc; [reflexivity|].
  cbn [cummax_from map running_max_from is_nan]. cbv zeta.
  replace (if flt (FFin acc) (FFin p) then FFin p else FFin acc)
    with (FFin (Rmax acc p)) by (symmetry; apply fmaximum_fin).
  by rewrite IH.
Qed.

Lemma cummax_fin (l : list R) : cummax (map FFin l) = map FFin (running_max l).
Proof.
  destruct l as [|p l]; [reflexivity|].
  unfold cummax. cbn [cummax_from map running_max is_nan]. cbv zeta.
  by rewrite cummax_from_fin.
Qed.

(** Each price lies below its running peak, and the peaks are valid
    prices themselves. *)
Lemma running_max_from_bounds (acc : R) (l : list R) :
  0 < acc < float_max -> Forall valid_price l ->
  Forall2 (fun p m => 0 < p <= m /\ m < float_max) l (running_max_from acc l).
Proof.
  intros Hacc Hl. revert acc Hacc.
  induction Hl as [|p l Hp Hl IH]; intros acc Hacc; [constructor|].
  apply valid_price_pos in Hp. cbn [running_max_from].
  assert (Hm : 0 < Rmax acc p < float_max)
    by (unfold Rmax; destruct (Rle_dec acc p); lra).
  constructor; [|by apply IH].
  pose proof (Rmax_r acc p). lra.
Qed.

Lemma running_max_bounds (l : list R) :
  Forall valid_price l ->
  Forall2 (fun p m => 0 < p <= m /\ m < float_max) l (running_max l).
Proof.
  intros Hl. destruct Hl as [|p l Hp Hl]; [constructor|].
  apply valid_price_pos in Hp. cbn [running_max].
  constructor; [lra | by apply running_max_from_bounds].
Qed.

Lemma signed_drawdown_fin (p m : R) :
  0 < p <= m -> m < float_max ->
  fdiv (fsub (FFin p) (FFin m)) (FFin m) = FFin (signed_drawdown_of p m)
  /\ -1 < signed_drawdown_of p m <= 0
  /\ (signed_drawdown_of p m = 0 <-> p = m).
Proof.
  intros Hp Hm. unfold signed_drawdown_of.
  assert (Hinv : 0 < / m) by (apply Rinv_0_lt_compat; lra).
  assert (Hq : -1 < (p - m) / m <= 0).
  { split.
    - apply (Rmult_lt_reg_r m); [lra|]. field_simplify; lra.
    - unfold Rdiv. nra. }
  split; [|split; [exact Hq|]].
  - rewrite fsub_fin by (apply Rabs_def1; lra).
    apply fdiv_fin; [lra|]. pose proof float_max_million. apply Rabs_def1; lra.
  - split.
    + intros H0. assert (p - m = 0); [|lra].
      apply (Rmult_eq_reg_r (/ m)); [unfold Rdiv in H0; lra | lra].
    + intros ->. unfold Rdiv. replace (m - m) with 0 by lra. lra.
Qed.

Lemma signed_drawdowns_fin (ps ms : list R) :
  Forall2 (fun p m => 0 < p <= m /\ m < float_max) ps ms ->
  np_div (np_sub (map FFin ps) (map FFin ms)) (map FFin ms)
  = map FFin (zip_with signed_drawdown_of ps ms).
Proof.
  unfold np_div, np_sub. induction 1 as [|p m ps ms [Hp Hm] _ IH]; [reflexivity|].
  cbn [map zip_with]. rewrite IH.
  by destruct (signed_drawdown_fin p m Hp Hm) as (-> & _).
Qed.

(** The running maximum at [t] is the largest price up to [t]. *)
Lemma running_max_from_spec (acc : R) (l : list R) (t : nat) (m : R) :
  running_max_from acc l !! t = Some m ->
  acc <= m
  /\ (forall i p, (i <= t)%nat -> l !! i = Some p -> p <= m)
  /\ (m = acc \/ exists j, (j <= t)%nat /\ l !! j = Some m).
Proof.
  revert acc t. induction l as [|x l IH]; intros acc t; [done|].
  cbn [running_max_from]. destruct t as [|t]; cbn [lookup list_lookup].
  - intros [= <-]. split; [apply Rmax_l|]. split.
    + intros i p Hi. assert (i = 0)%nat as -> by lia. cbn.
      intros [= ->]. apply Rmax_r.
    + unfold Rmax. destruct (Rle_dec acc x); [right; exists 0%nat; by split | by left].
  - intros Ht. destruct (IH _ _ Ht) as (Hacc & Hle & Hex).
    pose proof (Rmax_l acc x). pose proof (Rmax_r acc x).
    split; [lra|]. split.
    + intros [|i] p Hi; cbn.
      * intros [= ->]. lra.
      * apply Hle. lia.
    + destruct Hex as [->|(j & Hj & Hjm)].
      * unfold Rmax. destruct (Rle_dec acc x); [right; exists 0%nat; split; [lia | done] | by left].
      * right. exists (S j). split; [lia | exact Hjm].
Qed.

Lemma running_max_spec (l : list R) (t : nat) (m : R) :
  running_max l !! t = Some m ->
  (forall i p, (i <= t)%nat -> l !! i = Some p -> p <= m)
  /\ (exists j, (j <= t)%nat /\ l !! j = Some m).
Proof.
  destruct l as [|x l]; [done|]. cbn [running_max].
  destruct t as [|t]; cbn [lookup list_lookup].
  - intros [= <-]. split.
    + intros i p Hi. assert (i = 0)%nat as -> by lia. cbn. intros [= ->]. lra.
    + exists 0%nat. by split.
  - intros Ht. destruct (running_max_from_spec _ _ _ _ Ht) as (Hx & Hle & Hex).
    split.
    + intros [|i] p Hi; cbn.
      * intros [= ->]. exact Hx.
      * apply Hle. lia.
    + destruct Hex as [->|(j & Hj & Hjm)].
      * exists 0%nat. split; [lia | done].
      * exists (S j). split; [lia | exact Hjm].
Qed.

Lemma length_running_max_from (acc : R) (l : list R) :
  length (running_max_from acc l) = length l.
Proof. revert acc. induction l as [|x l IH]; intros acc; cbn; [done | by rewrite IH]. Qed.

Lemma length_running_max (l : list R) : length (running_max l) = length l.
Proof. destruct l; cbn; [done | by rewrite length_running_max_from]. Qed.

(** ** Locating the trough, the peak and the recovery *)

Lemma nanargmin_from_fin (bi : nat) (bv : R) (i : nat) (l : list R) :
  nanargmin_from (Some (bi, FFin bv)) i (map FFin l)
  = Some ((argmin_from bi bv i l).1, FFin (argmin_from bi bv i l).2).
Proof.
  revert bi bv i. induction l as [|v l IH]; intros bi bv i; [reflexivity|].
  cbn [map nanargmin_from argmin_from is_nan flt]. cbv zeta.
  destruct (R_ltb v bv); apply IH.
Qed.

Lemma nanargmin_fin (l : list R) :
  l <> [] ->
  nanargmin (map FFin l) = Some ((argmin l).1, FFin (argmin l).2).
Proof.
  destruct l as [|v l]; [done|]. intros _.
  unfold nanargmin, argmin. cbn [map nanargmin_from is_nan]. cbv zeta.
  apply nanargmin_from_fin.
Qed.

Lemma lookup_map {A B : Type} (f : A -> B) (l : list A) (i : nat) :
  map f l !! i = f <$> l !! i.
Proof. change (map f l) with (f <$> l). apply list_lookup_fmap. Qed.

(** The scan keeps the first minimum of what it has seen: [pre] is the
    part already scanned, [(bi, bv)] its first minimum. *)
Lemma argmin_from_spec (pre l : list R) (bi : nat) (bv : R) :
  pre !! bi = Some bv ->
  (forall k x, pre !! k = Some x -> bv <= x) ->
  (forall k x, pre !! k = Some x -> (k < bi)%nat -> bv < x) ->
  let r := argmin_from bi bv (length pre) l in
  (pre ++ l) !! r.1 = Some r.2
  /\ (forall k x, (pre ++ l) !! k = Some x -> r.2 <= x)
  /\ (forall k x, (pre ++ l) !! k = Some x -> (k < r.1)%nat -> r.2 < x).
Proof.
  cbv zeta. revert pre bi bv.
  induction l as [|v l IH]; intros pre bi bv Hbi Hmin Hfirst.
  - cbn [argmin_from fst snd]. rewrite app_nil_r. by repeat split.
  - cbn [argmin_from]. replace (S (length pre)) with (length (pre ++ [v]))
      by (rewrite length_app; cbn; lia).
    replace (pre ++ v :: l) with ((pre ++ [v]) ++ l) by (by rewrite <- app_assoc).
    unfold R_ltb. destruct (Rlt_dec v bv) as [Hlt|Hge].
    + apply IH.
      * rewrite lookup_app_r by lia. by rewrite Nat.sub_diag.
      * intros k x [Hk|[_ Hk]]%lookup_app_Some.
        -- specialize (Hmin k x Hk). lra.
        -- apply list_lookup_singleton_Some in Hk as [_ <-]. lra.
      * intros k x [Hk|[Hlen Hk]]%lookup_app_Some Hlt'.
        -- specialize (Hmin k x Hk). lra.
        -- lia.
    + apply IH.
      * rewrite lookup_app_l; [exact Hbi | by apply lookup_lt_Some in Hbi].
      * intros k x [Hk|[_ Hk]]%lookup_app_Some.
        -- by apply (Hmin k).
        -- apply list_lookup_singleton_Some in Hk as [_ <-]. lra.
      * intros k x [Hk|[Hlen Hk]]%lookup_app_Some Hlt'.
        -- by apply (Hfirst k).
        -- apply lookup_lt_Some in Hbi. lia.
Qed.

(** [argmin] finds the first position of the least value. *)
Lemma argmin_spec (l : list R) :
  l <> [] ->
  l !! (argmin l).1 = Some (argmin l).2
  /\ (forall k x, l !! k = Some x -> (argmin l).2 <= x)
  /\ (forall k x, l !! k = Some x -> (k < (argmin l).1)%nat -> (argmin l).2 < x).
Proof.
  destruct l as [|v l]; [done|]. intros _. unfold argmin.
  apply (argmin_from_spec [v] l 0 v).
  - reflexivity.
  - intros k x [_ <-]%list_lookup_singleton_Some. lra.
  - intros k x _ Hk. lia.
Qed.

Lemma get_loc_lookup (idx : list date) (i : nat) (d : date) :
  NoDup idx -> idx !! i = Some d -> get_loc idx d = Some i.
Proof.
  revert i. induction idx as [|d' idx IH]; intros i Hnd Hi; [done|].
  apply NoDup_cons in Hnd as [Hnotin Hnd]. cbn [get_loc].
  destruct i as [|i]; cbn in Hi.
  - injection Hi as ->. by rewrite Z.eqb_refl.
  - destruct (Z.eqb_spec d' d) as [->|_].
    + exfalso. apply Hnotin. by apply list_elem_of_lookup_2 in Hi.
    + by rewrite (IH i Hnd Hi).
Qed.

Lemma first_index_spec {A : Type} (f : A -> bool) (l : list A) :
  match first_index f l with
  | Some j => (exists x, l !! j = Some x /\ f x = true)
              /\ (forall k x, (k < j)%nat -> l !! k = Some x -> f x = false)
  | None => forall k x, l !! k = Some x -> f x = false
  end.
Proof.
  induction l as [|y l IH]; [done|]. cbn [first_index].
  destruct (f y) eqn:Hy.
  - split; [by exists y | intros k x Hk; lia].
  - destruct (first_index f l) as [j|]; cbn [option_map].
    + destruct IH as [Hex Hbefore]. split; [exact Hex|].
      intros [|k] x Hk; cbn; [by intros [= <-] | apply Hbefore; lia].
    + intros [|k] x; cbn; [by intros [= <-] | apply IH].
Qed.

(** The first selected label is the label at the first selected row. *)
Lemma index_where_first {A : Type} (f : A -> bool) (idx : list date) (l : list A) :
  length idx = length l ->
  match index_where idx (map f l) with
  | d :: _ => Some d
  | [] => None
  end = first_index f l ≫= fun j => idx !! j.
Proof.
  revert idx. induction l as [|x l IH]; intros [|d idx] Hlen; try done.
  cbn [map index_where first_index].
  destruct (f x); [reflexivity|].
  rewrite IH by (cbn in Hlen; lia).
  by destruct (first_index f l).
Qed.

Lemma length_signed_drawdowns (ps : list R) :
  length (signed_drawdowns_R ps) = length ps.
Proof.
  unfold signed_drawdowns_R. rewrite length_zip_with, length_running_max. lia.
Qed.

Lemma trough_index_lt (ps : list R) : ps <> [] -> (trough_index ps < length ps)%nat.
Proof.
  intros Hne. unfold trough_index.
  destruct (argmin_spec (signed_drawdowns_R ps)) as (Hi & _ & _).
  - intros E. apply (f_equal length) in E. rewrite length_signed_drawdowns in E.
    by destruct ps.
  - apply lookup_lt_Some in Hi. by rewrite length_signed_drawdowns in Hi.
Qed.

Lemma peak_value_lookup (ps : list R) :
  ps <> [] -> running_max ps !! trough_index ps = Some (peak_value_R ps).
Proof.
  intros Hne. unfold peak_value_R. rewrite nth_lookup.
  destruct (running_max ps !! trough_index ps) eqn:E; [done|].
  apply lookup_ge_None in E. rewrite length_running_max in E.
  pose proof (trough_index_lt ps Hne). lia.
Qed.

(** The peak value is attained at or before the trough, so a peak row
    exists. *)
Lemma peak_index_exists (ps : list R) :
  ps <> [] ->
  exists j, peak_index ps = Some j /\ (j <= trough_index ps)%nat.
Proof.
  intros Hne.
  destruct (running_max_spec _ _ _ (peak_value_lookup ps Hne)) as (_ & j & Hj & Hjm).
  unfold peak_index.
  pose proof (first_index_spec (fun p => R_eqb p (peak_value_R ps)) ps) as Hspec.
  destruct (first_index _ ps) as [j'|].
  - exists j'. split; [reflexivity|]. destruct Hspec as [_ Hbefore].
    destruct (Nat.le_gt_cases j' j) as [Hle|Hgt]; [lia|].
    specialize (Hbefore j _ Hgt Hjm). by rewrite R_eqb_true in Hbefore.
  - specialize (Hspec j _ Hjm). by rewrite R_eqb_true in Hspec.
Qed.

(** The statistics calculate_metrics returns for valid prices under
    distinct dates. *)
Lemma key_statistics_clean (idx : list date) (ps : list R) :
  Forall valid_price ps -> ps <> [] ->
  NoDup idx -> length idx = length ps ->
  exists dt dp,
    idx !! trough_index ps = Some dt
    /\ (peak_index ps ≫= fun j => idx !! j) = Some dp
    /\ key_statistics idx (map FFin ps)
       = Return {| max_drawdown_date := dt;
                   max_drawdown_value := FFin (argmin (signed_drawdowns_R ps)).2;
                   peak_date := dp;
                   recovery_date := recovery_index ps ≫= fun k => idx !! k |}.
Proof.
  intros Hps Hne Hnd Hlen.
  pose proof (trough_index_lt ps Hne) as Hi.
  destruct (lookup_lt_is_Some_2 idx (trough_index ps)) as [dt Hdt]; [lia|].
  destruct (peak_index_exists ps Hne) as (j & Hj & Hji).
  destruct (lookup_lt_is_Some_2 idx j) as [dp Hdp]; [lia|].
  exists dt, dp. split; [exact Hdt|]. split; [by rewrite Hj|].
  unfold key_statistics. cbv zeta.
  rewrite cummax_fin, signed_drawdowns_fin by (by apply running_max_bounds).
  fold (signed_drawdowns_R ps).
  assert (Hsne : signed_drawdowns_R ps <> []).
  { intros E. apply (f_equal length) in E.
    rewrite length_signed_drawdowns in E. by destruct ps. }
  unfold idxmin, series_min. rewrite nanargmin_fin by exact Hsne.
  fold (trough_index ps). rewrite Hdt. cbn [mbind outcome_bind].
  rewrite (get_loc_lookup idx _ dt Hnd Hdt).
  rewrite lookup_map, (peak_value_lookup ps Hne). cbn [fmap option_fmap option_map].
  cbn [mbind outcome_bind]. rewrite map_map.
  change (fun x : R => feq (FFin x) (FFin (peak_value_R ps)))
    with (fun x : R => R_eqb x (peak_value_R ps)).
  pose proof (index_where_first (fun p => R_eqb p (peak_value_R ps)) idx ps Hlen) as Hpk.
  fold (peak_index ps) in Hpk. rewrite Hj in Hpk. cbn [mbind option_bind] in Hpk.
  rewrite Hdp in Hpk.
  destruct (index_where idx _) as [|d ds]; [discriminate Hpk|].
  injection Hpk as ->. cbn [mbind outcome_bind].
  do 2 f_equal.
  change (map FFin ps) with (FFin <$> ps). rewrite <- fmap_drop.
  change (FFin <$> drop (trough_index ps) ps) with (map FFin (drop (trough_index ps) ps)).
  rewrite map_map.
  change (fun x : R => fge (FFin x) (FFin (peak_value_R ps)))
    with (fun p : R => R_ltb (peak_value_R ps) p || R_eqb (peak_value_R ps) p).
  rewrite index_where_first by (rewrite !length_drop; lia).
  unfold recovery_index.
  destruct (first_index _ (drop (trough_index ps) ps)) as [k|]; [|reflexivity].
  cbn [mbind option_bind option_map]. apply lookup_drop.
Qed.

(** ** C1 *)

Ltac solve_R := unfold signed_drawdown_of, drawdown_of; lra.

Ltac decide_R :=
  repeat match goal with
    | |- context [R_ltb ?a ?b] =>
        first [rewrite (R_ltb_true a b) by solve_R
              | rewrite (R_ltb_false a b) by solve_R]
    | |- context [R_eqb ?a ?b] =>
        first [rewrite (R_eqb_true a b) by solve_R
              | rewrite (R_eqb_false a b) by solve_R]
    | |- context [Rmax ?a ?b] =>
        first [rewrite (Rmax_left a b) by solve_R
              | rewrite (Rmax_right a b) by solve_R]
    end.

Lemma scenario_running_max : running_max scenario_prices = [100; 120; 120; 150].
Proof. unfold scenario_prices. cbn [running_max running_max_from]. by decide_R. Qed.

Lemma scenario_valid : Forall valid_price scenario_prices.
Proof. unfold scenario_prices. valid_prices. Qed.

Lemma scenario_trough : trough_index scenario_prices = 2%nat.
Proof.
  unfold trough_index, signed_drawdowns_R. rewrite scenario_running_max.
  unfold scenario_prices. cbn [zip_with argmin argmin_from]. by decide_R.
Qed.

Lemma scenario_min_drawdown :
  (argmin (signed_drawdowns_R scenario_prices)).2 = -0.25.
Proof.
  unfold signed_drawdowns_R. rewrite scenario_running_max.
  unfold scenario_prices. cbn [zip_with argmin argmin_from]. decide_R.
  cbn [snd]. unfold signed_drawdown_of. lra.
Qed.

Lemma scenario_peak_value : peak_value_R scenario_prices = 120.
Proof.
  unfold peak_value_R. by rewrite scenario_trough, scenario_running_max.
Qed.

Lemma scenario_peak_index : peak_index scenario_prices = Some 1%nat.
Proof.
  unfold peak_index. rewrite scenario_peak_value.
  unfold scenario_prices. cbn [first_index]. by decide_R.
Qed.

Lemma scenario_recovery_index : recovery_index scenario_prices = Some 3%nat.
Proof.
  unfold recovery_index. rewrite scenario_peak_value, scenario_trough.
  unfold scenario_prices. cbn [drop first_index]. by decide_R.
Qed.

Lemma scenario_max_dd : max_dd_R scenario_prices = 0.25.
Proof.
  unfold max_dd_R, drawdowns_R. rewrite scenario_running_max.
  unfold scenario_prices. cbn [zip_with foldl]. decide_R.
  unfold drawdown_of. lra.
Qed.

Lemma scenario_ann_return : ann_return_R scenario_prices 4 = 0.5.
Proof.
  unfold ann_return_R, growth_R, scenario_prices. cbn [List.last List.hd length].
  replace (IZR 4 / INR 4) with 1 by (cbn; lra).
  rewrite Rpower_1 by lra. lra.
Qed.

(** C1.  On the prices [100, 120, 90, 150] at four equally spaced dates,
    with 4 periods a year: the maximum drawdown of the score is
    (120 - 90) / 120 = 0.25, the drawdown at index 2; the annualized
    return is (150 / 100) ** (4 / 4) - 1 = 0.5; and calculate_metrics
    returns the date of index 2 as max_drawdown_date, of index 1 as
    peak_date and of index 3 as recovery_date (its own
    max_drawdown_value is the signed -0.25). *)
Theorem scenario_rise_dip_recover :
  max_dd (map FFin scenario_prices) = Return (FFin 0.25)
  /\ drawdowns (map FFin scenario_prices) !! 2%nat = Some (FFin 0.25)
  /\ ann_return (map FFin scenario_prices) 4 = Return (FFin 0.5)
  /\ exists stats : Stats,
       (calculate_metrics 1%positive
          (heap_of (frame_of scenario_dates scenario_prices))).2
       = Return (1%positive, stats)
       /\ scenario_dates !! 2%nat = Some (max_drawdown_date stats)
       /\ max_drawdown_value stats = FFin (-0.25)
       /\ scenario_dates !! 1%nat = Some (peak_date stats)
       /\ recovery_date stats = scenario_dates !! 3%nat.
Proof.
  split; [|split; [|split]].
  - destruct (max_dd_fin _ scenario_valid) as (-> & _); [done|].
    by rewrite scenario_max_dd.
  - destruct (drawdowns_fin _ scenario_valid) as (-> & _).
    unfold drawdowns_R. rewrite scenario_running_max.
    unfold scenario_prices. cbn. do 2 f_equal. unfold drawdown_of. lra.
  - rewrite ann_return_fin.
    + by rewrite scenario_ann_return.
    + exact scenario_valid.
    + done.
    + cbn. apply in_range_small. lra.
    + cbn. apply in_range_small. lra.
    + replace (growth_R scenario_prices 4)
        with (ann_return_R scenario_prices 4 + 1) by (unfold ann_return_R; lra).
      rewrite scenario_ann_return. apply in_range_small. lra.
    + rewrite scenario_ann_return. apply in_range_small. lra.
  - rewrite (calculate_metrics_run _ _ (frame_of scenario_dates scenario_prices)
               (map FFin scenario_prices)) by done.
    cbn [snd frame_of index].
    destruct (key_statistics_clean scenario_dates scenario_prices)
      as (dt & dp & Hdt & Hdp & ->).
    + exact scenario_valid.
    + done.
    + unfold scenario_dates. compute_done.
    + reflexivity.
    + rewrite scenario_trough in Hdt. rewrite scenario_peak_index in Hdp.
      eexists. split; [reflexivity|]. cbn [max_drawdown_date max_drawdown_value
        peak_date recovery_date].
      rewrite scenario_min_drawdown, scenario_recovery_index.
      cbn [mbind option_bind] in *. by rewrite Hdt, Hdp.
Qed.

(** ** The frame calculate_metrics leaves behind *)

Lemma frame_after (h : gmap positive DataFrame) (df : loc) (f : DataFrame)
    (close : list float64) :
  h !! df = Some f -> columns f !! "Close" = Some close ->
  (calculate_metrics df h).1 !! df = Some (with_metrics f close).
Proof.
  intros Hdf Hclose. rewrite (calculate_metrics_run h df f close Hdf Hclose).
  cbn [fst]. apply lookup_insert_eq.
Qed.

Lemma with_metrics_drawdown (f : DataFrame) (close : list float64) :
  columns (with_metrics f close) !! "Drawdown"
  = Some (np_div (np_sub close (cummax close)) (cummax close)).
Proof. unfold with_metrics. cbn [columns]. by simplify_map_eq. Qed.


(** ** C2 *)

Lemma drawdown_column_lookup (ps : list R) (t : nat) (p : R) :
  Forall valid_price ps -> ps !! t = Some p ->
  exists m,
    running_max ps !! t = Some m
    /\ np_div (np_sub (map FFin ps) (cummax (map FFin ps))) (cummax (map FFin ps)) !! t
       = Some (FFin ((p - m) / m))
    /\ -1 < (p - m) / m <= 0
    /\ ((p - m) / m = 0 <-> p = m).
Proof.
  intros Hps Hp.
  destruct (lookup_lt_is_Some_2 (running_max ps) t) as [m Hm].
  { rewrite length_running_max. by apply lookup_lt_Some in Hp. }
  exists m. split; [exact Hm|].
  pose proof (running_max_bounds ps Hps) as Hb.
  rewrite cummax_fin, signed_drawdowns_fin by exact Hb.
  rewrite lookup_map.
  assert (Hz : zip_with signed_drawdown_of ps (running_max ps) !! t
               = Some (signed_drawdown_of p m)).
  { apply lookup_zip_with_Some. by exists p, m. }
  rewrite Hz. split; [reflexivity|].
  destruct (Forall2_lookup_lr _ _ _ _ _ _ Hb Hp Hm) as [Hpm Hmax].
  by destruct (signed_drawdown_fin p m Hpm Hmax) as (_ & ? & ?).
Qed.

(** C2, as stated, fails: after a fall from 100 to 90 the Drawdown column
    of calculate_metrics holds (90 - 100) / 100 = -0.1 at the second row,
    not (100 - 90) / 100, and -0.1 is outside [0, 1). *)
Lemma drawdown_column_is_signed :
  exists (f : DataFrame) (col : list float64) (v : R),
    (calculate_metrics 1%positive (heap_of (frame_of decline_dates decline_prices))).1
      !! 1%positive = Some f
    /\ columns f !! "Drawdown" = Some col
    /\ col !! 1%nat = Some (FFin v)
    /\ v = -0.1
    /\ v <> drawdown_of 100 90
    /\ ~ (0 <= v < 1).
Proof.
  eexists _, _, ((90 - 100) / 100). split; [|split; [|split]].
  - by apply (frame_after _ _ (frame_of decline_dates decline_prices)
                (map FFin decline_prices)).
  - apply with_metrics_drawdown.
  - destruct (drawdown_column_lookup decline_prices 1 90) as (m & Hm & Hcol & _).
    + unfold decline_prices. valid_prices.
    + reflexivity.
    + unfold decline_prices in Hm. cbn [running_max running_max_from] in Hm.
      rewrite Rmax_left in Hm by lra. injection Hm as <-. exact Hcol.
  - unfold drawdown_of. repeat split; lra.
Qed.

(** ** C4 *)

Lemma plateau_valid : Forall valid_price plateau_prices.
Proof. unfold plateau_prices. valid_prices. Qed.

Lemma plateau_running_max : running_max plateau_prices = [100; 120; 120; 120].
Proof. unfold plateau_prices. cbn [running_max running_max_from]. by decide_R. Qed.

Lemma plateau_trough : trough_index plateau_prices = 3%nat.
Proof.
  unfold trough_index, signed_drawdowns_R. rewrite plateau_running_max.
  unfold plateau_prices. cbn [zip_with argmin argmin_from]. by decide_R.
Qed.

Lemma plateau_peak_index : peak_index plateau_prices = Some 1%nat.
Proof.
  unfold peak_index, peak_value_R. rewrite plateau_trough, plateau_running_max.
  unfold plateau_prices. cbn [nth first_index]. by decide_R.
Qed.

(** C4, as stated, fails: on [100, 120, 120, 90] the trough is row 3 and
    the last row up to it whose price equals the running peak is row 2,
    but calculate_metrics returns the date of row 1, the first row at
    which the price equals the peak value. *)
Lemma peak_date_is_first_touch :
  exists stats : Stats,
    (calculate_metrics 1%positive
       (heap_of (frame_of scenario_dates plateau_prices))).2
    = Return (1%positive, stats)
    /\ scenario_dates !! 3%nat = Some (max_drawdown_date stats)
    /\ last_peak_row plateau_prices 3 2
    /\ scenario_dates !! 2%nat <> Some (peak_date stats)
    /\ scenario_dates !! 1%nat = Some (peak_date stats).
Proof.
  rewrite (calculate_metrics_run _ _ (frame_of scenario_dates plateau_prices)
             (map FFin plateau_prices)) by done.
  cbn [snd frame_of index].
  destruct (key_statistics_clean scenario_dates plateau_prices)
    as (dt & dp & Hdt & Hdp & ->).
  - exact plateau_valid.
  - done.
  - unfold scenario_dates. compute_done.
  - reflexivity.
  - rewrite plateau_trough in Hdt. rewrite plateau_peak_index in Hdp.
    cbn [mbind option_bind] in Hdp.
    eexists. split; [reflexivity|].
    cbn [max_drawdown_date peak_date].
    split; [exact Hdt|]. split; [|split; [|exact Hdp]].
    + unfold last_peak_row. rewrite plateau_running_max. unfold plateau_prices.
      split; [lia|]. split; [by eexists|]. split; [reflexivity|].
      intros k Hk. assert (k = 3)%nat as -> by lia. cbn.
      intros [= E]. lra.
    + cbn in Hdp. injection Hdp as <-. cbn. discriminate.
Qed.

(** ** C8 *)












(** ** C10 *)

Lemma with_metrics_other (f : DataFrame) (close : list float64) (c : string) :
  c ∉ derived_columns ->
  columns (with_metrics f close) !! c = columns f !! c.
Proof.
  intros Hc. unfold derived_columns in Hc.
  repeat (apply not_elem_of_cons in Hc as [? Hc]).
  unfold with_metrics. cbn [columns]. by simplify_map_eq.
Qed.

Lemma close_not_derived : "Close" ∉ derived_columns.
Proof. unfold derived_columns. compute_done. Qed.

Lemma with_metrics_peak (f : DataFrame) (close : list float64) :
  columns (with_metrics f close) !! "Peak" = Some (cummax close).
Proof. unfold with_metrics. cbn [columns]. by simplify_map_eq. Qed.

Lemma with_metrics_idempotent (f : DataFrame) (close : list float64) :
  with_metrics (with_metrics f close) close = with_metrics f close.
Proof.
  unfold with_metrics. cbn [index columns]. f_equal.
  apply map_eq. intros c.
  destruct (decide (c = "Return_3Y")) as [->|?]; [by simplify_map_eq|].
  destruct (decide (c = "Return_2Y")) as [->|?]; [by simplify_map_eq|].
  destruct (decide (c = "Return_1Y")) as [->|?]; [by simplify_map_eq|].
  destruct (decide (c = "Drawdown")) as [->|?]; [by simplify_map_eq|].
  destruct (decide (c = "Peak")) as [->|?]; [by simplify_map_eq|].
  by simplify_map_eq.
Qed.

(** C10, as stated, fails for calculate_metrics: the frame the caller
    passes in is changed in place.  A frame that held only Close holds a
    Peak column after the call. *)
Lemma calculate_metrics_adds_columns :
  exists f0 f1 : DataFrame,
    heap_of (frame_of decline_dates decline_prices) !! 1%positive = Some f0
    /\ (calculate_metrics 1%positive
          (heap_of (frame_of decline_dates decline_prices))).1 !! 1%positive
       = Some f1
    /\ columns f0 !! "Peak" = None
    /\ columns f1 !! "Peak" = Some [FFin 100; FFin 100]
    /\ (calculate_metrics 1%positive
          (heap_of (frame_of decline_dates decline_prices))).1
       <> heap_of (frame_of decline_dates decline_prices).
Proof.
  assert (Hafter := frame_after (heap_of (frame_of decline_dates decline_prices))
                      1%positive (frame_of decline_dates decline_prices)
                      (map FFin decline_prices) eq_refl eq_refl).
  assert (Hpeak : columns (with_metrics (frame_of decline_dates decline_prices)
                             (map FFin decline_prices)) !! "Peak"
                  = Some [FFin 100; FFin 100]).
  { rewrite with_metrics_peak, cummax_fin. unfold decline_prices.
    cbn [running_max running_max_from map]. by rewrite Rmax_left by lra. }
  eexists _, _. split; [reflexivity|]. split; [exact Hafter|].
  split; [reflexivity|]. split; [exact Hpeak|].
  intros E. rewrite E in Hafter. unfold heap_of in Hafter.
  rewrite lookup_singleton_eq in Hafter. apply (inj Some) in Hafter.
  rewrite <- Hafter in Hpeak. unfold frame_of in Hpeak. cbn [columns] in Hpeak.
  by rewrite lookup_singleton_ne in Hpeak.
Qed.

(** C10, amended.  compute_stock_score is a function of its arguments and
    touches no frame.  calculate_metrics keeps no state between calls (what
    it returns is determined by the index and the Close column of the
    frame, and a second call on the same frame changes nothing further),
    and it leaves every other frame, the index, the Close column and every
    column it does not compute unchanged; but it writes Peak, Drawdown,
    Return_1Y, Return_2Y and Return_3Y into the caller's frame in place
    and returns that same frame. *)
Theorem calculate_metrics_frame_effect (h : gmap positive DataFrame) (df : loc)
    (f : DataFrame) (close : list float64) :
  h !! df = Some f -> columns f !! "Close" = Some close ->
  (forall (ps : list float64) (w1 w2 w3 : float64) (af : Z),
      lift (compute_stock_score ps w1 w2 w3 af) h
      = (h, compute_stock_score ps w1 w2 w3 af))
  /\ (forall l : loc, l <> df -> (calculate_metrics df h).1 !! l = h !! l)
  /\ (exists f' : DataFrame,
        (calculate_metrics df h).1 !! df = Some f'
        /\ index f' = index f
        /\ columns f' !! "Close" = Some close
        /\ (forall c, c ∉ derived_columns -> columns f' !! c = columns f !! c)
        /\ columns f' !! "Peak" = Some (cummax close)
        /\ columns f' !! "Drawdown"
           = Some (np_div (np_sub close (cummax close)) (cummax close))
        /\ columns f' !! "Return_1Y" = Some (pct_change 252 close)
        /\ columns f' !! "Return_2Y" = Some (pct_change 504 close)
        /\ columns f' !! "Return_3Y" = Some (pct_change 756 close))
  /\ (forall (fr : loc) (s : Stats),
        (calculate_metrics df h).2 = Return (fr, s) -> fr = df)
  /\ calculate_metrics df (calculate_metrics df h).1 = calculate_metrics df h
  /\ (forall (h2 : gmap positive DataFrame) (f2 : DataFrame),
        h2 !! df = Some f2 -> index f2 = index f ->
        columns f2 !! "Close" = Some close ->
        (calculate_metrics df h2).2 = (calculate_metrics df h).2).
Proof.
  intros Hdf Hclose.
  pose proof (calculate_metrics_run h df f close Hdf Hclose) as Hrun.
  split; [reflexivity|]. split; [|split; [|split; [|split]]].
  - intros l Hl. rewrite Hrun. cbn [fst]. by rewrite lookup_insert_ne.
  - exists (with_metrics f close). split; [by apply frame_after|].
    split; [reflexivity|].
    split.
    { rewrite with_metrics_other; [exact Hclose | exact close_not_derived]. }
    split; [apply with_metrics_other|].
    unfold with_metrics. cbn [columns]. by simplify_map_eq.
  - intros fr s. rewrite Hrun. cbn [snd].
    destruct (key_statistics (index f) close); [|discriminate].
    by intros [= <- _].
  - rewrite Hrun at 1. cbn [fst].
    rewrite (calculate_metrics_run _ df (with_metrics f close) close).
    + rewrite insert_insert_eq, with_metrics_idempotent. by rewrite Hrun.
    + apply lookup_insert_eq.
    + rewrite with_metrics_other; [exact Hclose | exact close_not_derived].
  - intros h2 f2 Hdf2 Hidx Hclose2.
    rewrite (calculate_metrics_run h2 df f2 close Hdf2 Hclose2), Hrun.
    cbn [snd]. by rewrite Hidx.
Qed.

Lemma calculate_metrics_frame_effect_witness :
  calculate_metrics 1%positive
    (calculate_metrics 1%positive
       (heap_of (frame_of scenario_dates scenario_prices))).1
  = calculate_metrics 1%positive (heap_of (frame_of scenario_dates scenario_prices)).
Proof.
  apply (calculate_metrics_frame_effect
           (heap_of (frame_of scenario_dates scenario_prices)) 1%positive
           (frame_of scenario_dates scenario_prices) (map FFin scenario_prices)).
  - reflexivity.
  - reflexivity.
Defined.

(** * Further properties of calculate_metrics *)

Lemma ascending_NoDup (idx : list date) : ascending idx -> NoDup idx.
Proof.
  intros Hasc. apply NoDup_alt. intros i j d Hi Hj.
  destruct (Nat.lt_trichotomy i j) as [Hlt|[->|Hgt]]; [|done|].
  - specialize (Hasc i j d d Hlt Hi Hj). lia.
  - specialize (Hasc j i d d Hgt Hj Hi). lia.
Qed.

Lemma ascending_le (idx : list date) (i j : nat) (a b : date) :
  ascending idx -> (i <= j)%nat -> idx !! i = Some a -> idx !! j = Some b ->
  (a <= b)%Z.
Proof.
  intros Hasc Hij Hi Hj. destruct (Nat.eq_dec i j) as [->|Hne].
  - rewrite Hi in Hj. injection Hj as ->. lia.
  - specialize (Hasc i j a b ltac:(lia) Hi Hj). lia.
Qed.

(** The run of calculate_metrics on valid prices under distinct dates:
    the heap it leaves and the statistics it returns. *)
Lemma calculate_metrics_clean (h : gmap positive DataFrame) (df : loc)
    (f : DataFrame) (ps : list R) :
  h !! df = Some f -> columns f !! "Close" = Some (map FFin ps) ->
  Forall valid_price ps -> ps <> [] ->
  NoDup (index f) -> length (index f) = length ps ->
  exists dt dp,
    index f !! trough_index ps = Some dt
    /\ (peak_index ps ≫= fun j => index f !! j) = Some dp
    /\ calculate_metrics df h
       = (<[df := with_metrics f (map FFin ps)]> h,
          Return (df, {| max_drawdown_date := dt;
                         max_drawdown_value :=
                           FFin (argmin (signed_drawdowns_R ps)).2;
                         peak_date := dp;
                         recovery_date :=
                           recovery_index ps ≫= fun k => index f !! k |})).
Proof.
  intros Hdf Hclose Hps Hne Hnd Hlen.
  destruct (key_statistics_clean (index f) ps Hps Hne Hnd Hlen)
    as (dt & dp & Hdt & Hdp & Hks).
  exists dt, dp. split; [exact Hdt|]. split; [exact Hdp|].
  by rewrite (calculate_metrics_run h df f (map FFin ps) Hdf Hclose), Hks.
Qed.

(** The recovery row: the first row from the trough on whose price is back
    at the peak value. *)
Lemma recovery_index_spec (ps : list R) :
  ps <> [] ->
  match recovery_index ps with
  | Some k =>
      (trough_index ps <= k)%nat
      /\ (exists p, ps !! k = Some p /\ peak_value_R ps <= p)
      /\ (forall k' q, (trough_index ps <= k' < k)%nat ->
                       ps !! k' = Some q -> q < peak_value_R ps)
  | None =>
      forall k' q, (trough_index ps <= k')%nat ->
                   ps !! k' = Some q -> q < peak_value_R ps
  end.
Proof.
  intros Hne. unfold recovery_index.
  set (i := trough_index ps). set (m := peak_value_R ps).
  pose proof (first_index_spec (fun p => R_ltb m p || R_eqb m p) (drop i ps)) as Hspec.
  assert (Htest : forall p, (R_ltb m p || R_eqb m p) = false -> p < m).
  { intros p. unfold R_ltb, R_eqb.
    destruct (Rlt_dec m p), (Req_dec_T m p); try discriminate. intros _. lra. }
  assert (Htest' : forall p, (R_ltb m p || R_eqb m p) = true -> m <= p).
  { intros p. unfold R_ltb, R_eqb.
    destruct (Rlt_dec m p), (Req_dec_T m p); try discriminate; intros _; lra. }
  destruct (first_index _ (drop i ps)) as [k|]; cbn [option_map].
  - destruct Hspec as [(p & Hp & Hfp) Hbefore]. rewrite lookup_drop in Hp.
    split; [lia|]. split; [exists p; split; [exact Hp | by apply Htest']|].
    intros k' q Hk' Hq. apply Htest.
    apply (Hbefore (k' - i)%nat q); [lia|].
    rewrite lookup_drop. by replace (i + (k' - i))%nat with k' by lia.
  - intros k' q Hk' Hq. apply Htest. apply (Hspec (k' - i)%nat q).
    rewrite lookup_drop. by replace (i + (k' - i))%nat with k' by lia.
Qed.

(** X3.  Under strictly ascending dates the statistics are ordered,
    peak_date <= max_drawdown_date <= recovery_date, so the span that
    plot_price_chart shades starts at the peak, contains the trough and
    ends at the recovery or, without one, at the last date of the frame;
    and the days to recover that plot_drawdown_chart reports are never
    negative. *)
Theorem drawdown_period_is_ordered (h : gmap positive DataFrame) (df : loc)
    (f : DataFrame) (ps : list R) :
  h !! df = Some f -> columns f !! "Close" = Some (map FFin ps) ->
  Forall valid_price ps -> ps <> [] ->
  ascending (index f) -> length (index f) = length ps ->
  exists (stats : Stats) (b : date) (label : string),
    (calculate_metrics df h).2 = Return (df, stats)
    /\ (peak_date stats <= max_drawdown_date stats)%Z
    /\ drawdown_period_span (index f) stats = Return (peak_date stats, b, label)
    /\ (max_drawdown_date stats <= b)%Z
    /\ (recovery_date stats = None -> last (index f) = Some b)
    /\ (forall r, recovery_date stats = Some r ->
                  b = r /\ time_to_recover stats = Some (r - peak_date stats)%Z
                  /\ (0 <= r - peak_date stats)%Z).
Proof.
  intros Hdf Hclose Hps Hne Hasc Hlen.
  pose proof (ascending_NoDup _ Hasc) as Hnd.
  destruct (calculate_metrics_clean h df f ps Hdf Hclose Hps Hne Hnd Hlen)
    as (dt & dp & Hdt & Hdp & ->).
  destruct (peak_index_exists ps Hne) as (j & Hj & Hji).
  rewrite Hj in Hdp. cbn [mbind option_bind] in Hdp.
  assert (Hpt : (dp <= dt)%Z) by (by apply (ascending_le (index f) j (trough_index ps))).
  pose proof (recovery_index_spec ps Hne) as Hrec.
  unfold drawdown_period_span, time_to_recover.
  cbn [snd recovery_date peak_date max_drawdown_date].
  destruct (recovery_index ps) as [k|]; cbn [mbind option_bind].
  - destruct Hrec as (Hik & (p & Hp & _) & _).
    destruct (lookup_lt_is_Some_2 (index f) k) as [d Hd].
    { rewrite Hlen. by apply lookup_lt_Some in Hp. }
    rewrite Hd. pose proof (ascending_le _ _ _ _ _ Hasc Hik Hdt Hd) as Htr.
    eexists _, d, _. split; [reflexivity|]. split; [exact Hpt|].
    split; [reflexivity|]. split; [exact Htr|]. split; [discriminate|].
    intros r [= <-]. split; [reflexivity|]. split; [reflexivity|].
    cbn [peak_date]. clear - Hpt Htr. unfold date in *. lia.
  - destruct (last (index f)) as [d|] eqn:Hlast.
    + eexists _, d, _. split; [reflexivity|]. split; [exact Hpt|].
      split; [reflexivity|]. split; [|split; [done | discriminate]].
      rewrite last_lookup in Hlast.
      apply (ascending_le _ _ _ _ _ Hasc) with (3 := Hlast) (2 := Hdt).
      apply lookup_lt_Some in Hdt. lia.
    + apply last_None in Hlast. apply lookup_lt_Some in Hdt.
      rewrite Hlast in Hdt. cbn in Hdt. lia.
Qed.

Lemma scenario_dates_ascending : ascending scenario_dates.
Proof.
  intros i j a b Hij Hi Hj. unfold scenario_dates in *.
  destruct i as [|[|[|[|i]]]], j as [|[|[|[|j]]]]; cbn in Hi, Hj;
    try lia; try discriminate; injection Hi as <-; injection Hj as <-; lia.
Qed.

Lemma drawdown_period_is_ordered_witness :
  exists (stats : Stats) (b : date) (label : string),
    (calculate_metrics 1%positive
       (heap_of (frame_of scenario_dates scenario_prices))).2
    = Return (1%positive, stats)
    /\ (peak_date stats <= max_drawdown_date stats)%Z
    /\ drawdown_period_span scenario_dates stats = Return (peak_date stats, b, label)
    /\ (max_drawdown_date stats <= b)%Z
    /\ (recovery_date stats = None -> last scenario_dates = Some b)
    /\ (forall r, recovery_date stats = Some r ->
                  b = r /\ time_to_recover stats = Some (r - peak_date stats)%Z
                  /\ (0 <= r - peak_date stats)%Z).
Proof.
  apply (drawdown_period_is_ordered
           (heap_of (frame_of scenario_dates scenario_prices)) 1%positive
           (frame_of scenario_dates scenario_prices) scenario_prices).
  - reflexivity.
  - reflexivity.
  - exact scenario_valid.
  - discriminate.
  - exact scenario_dates_ascending.
  - reflexivity.
Defined.

(** ** The two modules agree on the maximum drawdown *)

Lemma signed_drawdowns_opp_from (ps ms : list R) :
  zip_with signed_drawdown_of ps ms = map Ropp (zip_with drawdown_of ms ps).
Proof.
  revert ms. induction ps as [|p ps IH]; intros [|m ms]; try reflexivity.
  cbn [zip_with map]. rewrite IH. f_equal.
  unfold signed_drawdown_of, drawdown_of, Rdiv. ring.
Qed.

Lemma signed_drawdowns_opp (ps : list R) :
  signed_drawdowns_R ps = map Ropp (drawdowns_R ps).
Proof. apply signed_drawdowns_opp_from. Qed.

Lemma foldl_Rmax_spec (d : R) (ds : list R) :
  (exists k, (d :: ds) !! k = Some (foldl Rmax d ds))
  /\ (forall k x, (d :: ds) !! k = Some x -> x <= foldl Rmax d ds).
Proof.
  revert d. induction ds as [|y ds IH]; intros d.
  - cbn. split; [by exists 0%nat|]. intros [|k] x; cbn; [|done].
    intros [= ->]. lra.
  - cbn [foldl]. destruct (IH (Rmax d y)) as [(k & Hk) Hub]. split.
    + destruct k as [|k].
      * cbn in Hk. injection Hk as Hk.
        destruct (Rle_dec d y) as [Hle|Hnle].
        -- exists 1%nat. cbn. rewrite <- Hk. by rewrite Rmax_right.
        -- exists 0%nat. cbn. rewrite <- Hk. by rewrite Rmax_left by lra.
      * exists (S (S k)). exact Hk.
    + intros [|[|k']] x; cbn.
      * intros [= ->]. pose proof (Hub 0%nat _ eq_refl). pose proof (Rmax_l x y). lra.
      * intros [= ->]. pose proof (Hub 0%nat _ eq_refl). pose proof (Rmax_r d x). lra.
      * intros Hx. apply (Hub (S k')). exact Hx.
Qed.

(** The least signed drawdown is the negated maximum drawdown. *)
Lemma min_signed_drawdown (ps : list R) :
  ps <> [] -> (argmin (signed_drawdowns_R ps)).2 = - max_dd_R ps.
Proof.
  intros Hne.
  assert (Hsne : signed_drawdowns_R ps <> []).
  { intros E. apply (f_equal length) in E.
    rewrite length_signed_drawdowns in E. by destruct ps. }
  destruct (argmin_spec _ Hsne) as (Hat & Hmin & _).
  set (v := (argmin (signed_drawdowns_R ps)).2) in *.
  set (i := (argmin (signed_drawdowns_R ps)).1) in *.
  rewrite signed_drawdowns_opp in Hat, Hmin. unfold max_dd_R.
  destruct (drawdowns_R ps) as [|d ds] eqn:Hdd.
  { rewrite signed_drawdowns_opp, Hdd in Hsne. done. }
  destruct (foldl_Rmax_spec d ds) as [(k & Hk) Hub].
  rewrite lookup_map in Hat.
  destruct ((d :: ds) !! i) as [x|] eqn:Hx; [|discriminate].
  cbn in Hat. injection Hat as Hv.
  pose proof (Hub i x Hx) as H1.
  assert (H2 : v <= - foldl Rmax d ds).
  { apply (Hmin k). by rewrite lookup_map, Hk. }
  lra.
Qed.

(** X4.  compute_stock_score and calculate_metrics measure the same
    maximum drawdown: the max_dd of the score is the magnitude of the
    max_drawdown_value of the statistics, and the drawdown array of the
    score attains it at the row of max_drawdown_date. *)
Theorem max_drawdown_agrees (h : gmap positive DataFrame) (df : loc)
    (f : DataFrame) (ps : list R) :
  h !! df = Some f -> columns f !! "Close" = Some (map FFin ps) ->
  Forall valid_price ps -> ps <> [] ->
  NoDup (index f) -> length (index f) = length ps ->
  exists (stats : Stats) (d : R) (i : nat),
    (calculate_metrics df h).2 = Return (df, stats)
    /\ max_dd (map FFin ps) = Return (FFin d)
    /\ max_drawdown_value stats = FFin (- d)
    /\ index f !! i = Some (max_drawdown_date stats)
    /\ drawdowns (map FFin ps) !! i = Some (FFin d).
Proof.
  intros Hdf Hclose Hps Hne Hnd Hlen.
  destruct (calculate_metrics_clean h df f ps Hdf Hclose Hps Hne Hnd Hlen)
    as (dt & dp & Hdt & Hdp & ->).
  destruct (max_dd_fin ps Hps Hne) as (Hmd & _ & _).
  exists {| max_drawdown_date := dt;
            max_drawdown_value := FFin (argmin (signed_drawdowns_R ps)).2;
            peak_date := dp;
            recovery_date := recovery_index ps ≫= fun k => index f !! k |},
    (max_dd_R ps), (trough_index ps).
  split; [reflexivity|]. split; [exact Hmd|].
  cbn [max_drawdown_value max_drawdown_date].
  split; [by rewrite min_signed_drawdown|]. split; [exact Hdt|].
  destruct (drawdowns_fin ps Hps) as (-> & _). rewrite lookup_map.
  assert (Hsne : signed_drawdowns_R ps <> []).
  { intros E. apply (f_equal length) in E.
    rewrite length_signed_drawdowns in E. by destruct ps. }
  destruct (argmin_spec _ Hsne) as (Hat & _ & _).
  fold (trough_index ps) in Hat.
  rewrite (min_signed_drawdown ps Hne), signed_drawdowns_opp, lookup_map in Hat.
  destruct (drawdowns_R ps !! trough_index ps) as [x|]; [|discriminate].
  cbn in Hat. injection Hat as Hx. cbn. do 2 f_equal. lra.
Qed.

Lemma max_drawdown_agrees_witness :
  exists (stats : Stats) (d : R) (i : nat),
    (calculate_metrics 1%positive
       (heap_of (frame_of scenario_dates scenario_prices))).2
    = Return (1%positive, stats)
    /\ max_dd (map FFin scenario_prices) = Return (FFin d)
    /\ max_drawdown_value stats = FFin (- d)
    /\ scenario_dates !! i = Some (max_drawdown_date stats)
    /\ drawdowns (map FFin scenario_prices) !! i = Some (FFin d).
Proof.
  apply (max_drawdown_agrees
           (heap_of (frame_of scenario_dates scenario_prices)) 1%positive
           (frame_of scenario_dates scenario_prices) scenario_prices).
  - reflexivity.
  - reflexivity.
  - exact scenario_valid.
  - discriminate.
  - unfold scenario_dates. compute_done.
  - reflexivity.
Defined.

(** ** Edge cases of calculate_metrics *)

Lemma nondecreasing_positions (p : R) (l : list R) :
  Forall valid_price (p :: l) -> nondecreasing (p :: l) ->
  trough_index (p :: l) = 0%nat
  /\ (argmin (signed_drawdowns_R (p :: l))).2 = 0
  /\ peak_index (p :: l) = Some 0%nat
  /\ recovery_index (p :: l) = Some 0%nat.
Proof.
  intros Hps Hnd.
  assert (Hne : p :: l <> []) by done.
  destruct (max_dd_fin _ Hps Hne) as (_ & _ & Hz).
  assert (Hv : (argmin (signed_drawdowns_R (p :: l))).2 = 0).
  { rewrite min_signed_drawdown by done. rewrite (proj2 Hz Hnd). lra. }
  assert (Hsne : signed_drawdowns_R (p :: l) <> []) by done.
  destruct (argmin_spec _ Hsne) as (_ & _ & Hfirst).
  fold (trough_index (p :: l)) in Hfirst. rewrite Hv in Hfirst.
  assert (Ht : trough_index (p :: l) = 0%nat).
  { destruct (trough_index (p :: l)) as [|i] eqn:E; [done|].
    specialize (Hfirst 0%nat (signed_drawdown_of p p) eq_refl ltac:(lia)).
    unfold signed_drawdown_of, Rdiv in Hfirst.
    replace ((p - p) * / p) with 0 in Hfirst by ring. lra. }
  assert (Hpv : peak_value_R (p :: l) = p) by (unfold peak_value_R; by rewrite Ht).
  split; [exact Ht|]. split; [exact Hv|]. split.
  - unfold peak_index. rewrite Hpv. cbn [first_index].
    by rewrite R_eqb_true.
  - unfold recovery_index. rewrite Hpv, Ht. cbn [drop first_index].
    rewrite (R_eqb_true p p) by done. by rewrite orb_true_r.
Qed.

(** X5.  On prices that never fall (a frame with no drawdown) the
    statistics degenerate to the first row: max_drawdown_value is 0 and
    max_drawdown_date, peak_date and recovery_date are all the first date
    of the frame. *)
Theorem no_drawdown_statistics (h : gmap positive DataFrame) (df : loc)
    (f : DataFrame) (ps : list R) :
  h !! df = Some f -> columns f !! "Close" = Some (map FFin ps) ->
  Forall valid_price ps -> ps <> [] -> nondecreasing ps ->
  NoDup (index f) -> length (index f) = length ps ->
  exists (stats : Stats) (d0 : date),
    head (index f) = Some d0
    /\ (calculate_metrics df h).2 = Return (df, stats)
    /\ max_drawdown_value stats = FFin 0
    /\ max_drawdown_date stats = d0
    /\ peak_date stats = d0
    /\ recovery_date stats = Some d0.
Proof.
  intros Hdf Hclose Hps Hne Hmono Hnd Hlen.
  destruct (calculate_metrics_clean h df f ps Hdf Hclose Hps Hne Hnd Hlen)
    as (dt & dp & Hdt & Hdp & ->).
  destruct ps as [|p l]; [done|].
  destruct (nondecreasing_positions p l Hps Hmono) as (Ht & Hv & Hpk & Hrec).
  rewrite Ht in Hdt. rewrite Hpk in Hdp. cbn [mbind option_bind] in Hdp.
  rewrite Hv, Hrec. cbn [mbind option_bind]. rewrite Hdt.
  exists {| max_drawdown_date := dt; max_drawdown_value := FFin 0;
            peak_date := dp; recovery_date := Some dt |}, dt.
  split; [by rewrite head_lookup|]. split; [reflexivity|].
  cbn [max_drawdown_value max_drawdown_date peak_date recovery_date].
  split; [reflexivity|]. split; [reflexivity|]. split; [congruence | reflexivity].
Qed.

Lemma no_drawdown_statistics_witness :
  exists (stats : Stats) (d0 : date),
    head scenario_dates = Some d0
    /\ (calculate_metrics 1%positive
          (heap_of (frame_of scenario_dates [50; 50; 50; 50]))).2
       = Return (1%positive, stats)
    /\ max_drawdown_value stats = FFin 0
    /\ max_drawdown_date stats = d0
    /\ peak_date stats = d0
    /\ recovery_date stats = Some d0.
Proof.
  apply (no_drawdown_statistics
           (heap_of (frame_of scenario_dates [50; 50; 50; 50])) 1%positive
           (frame_of scenario_dates [50; 50; 50; 50]) [50; 50; 50; 50]).
  - reflexivity.
  - reflexivity.
  - exact constant_series_valid.
  - discriminate.
  - cbn. lra.
  - unfold scenario_dates. compute_done.
  - reflexivity.
Defined.

(** X6.  A frame without a Close column makes calculate_metrics raise
    KeyError before it writes anything: the heap is untouched.  A frame
    whose Close column is empty raises ValueError (there is no minimum
    to locate) only after lines 71-77 have run: the five derived columns
    are left behind, empty, in the caller's frame. *)
Theorem calculate_metrics_failures (h : gmap positive DataFrame) (df : loc)
    (f : DataFrame) :
  h !! df = Some f ->
  (columns f !! "Close" = None ->
   calculate_metrics df h = (h, Raise KeyError))
  /\ (columns f !! "Close" = Some [] ->
      calculate_metrics df h = (<[df := with_metrics f []]> h, Raise ValueError)
      /\ forall c, c ∈ derived_columns -> columns (with_metrics f []) !! c = Some []).
Proof.
  intros Hdf. split.
  - intros Hnone. unfold calculate_metrics, mbind, M_bind, df_getitem.
    by rewrite Hdf, Hnone.
  - intros Hempty. split.
    + by rewrite (calculate_metrics_run h df f [] Hdf Hempty).
    + intros c Hc. unfold derived_columns in Hc.
      unfold with_metrics. cbn [columns].
      repeat (apply elem_of_cons in Hc as [->|Hc]; [by simplify_map_eq|]).
      by apply elem_of_nil in Hc.
Qed.

Lemma calculate_metrics_failures_witness :
  (columns {| index := []; columns := ∅ |} !! "Close" = None ->
   calculate_metrics 1%positive (heap_of {| index := []; columns := ∅ |})
   = (heap_of {| index := []; columns := ∅ |}, Raise KeyError))
  /\ (columns {| index := []; columns := ∅ |} !! "Close" = Some [] ->
      calculate_metrics 1%positive (heap_of {| index := []; columns := ∅ |})
      = (<[1%positive := with_metrics {| index := []; columns := ∅ |} []]>
           (heap_of {| index := []; columns := ∅ |}), Raise ValueError)
      /\ forall c, c ∈ derived_columns ->
           columns (with_metrics {| index := []; columns := ∅ |} []) !! c = Some []).
Proof.
  apply (calculate_metrics_failures (heap_of {| index := []; columns := ∅ |})
           1%positive {| index := []; columns := ∅ |}).
  reflexivity.
Defined.

(** * Further properties of compute_stock_score *)




(** ** The logarithm of a valid price *)

Lemma ln_valid_price (p : R) : valid_price p -> -1074 <= ln p <= 1024.
Proof.
  intros Hp. assert (Hpos := valid_price_pos p Hp).
  pose proof ln_float_max. pose proof ln_float_min. pose proof float_min_pos.
  unfold valid_price in Hp.
  assert (ln float_min <= ln p).
  { destruct (proj1 Hp) as [Hlt| ->]; [left; by apply ln_increasing | lra]. }
  assert (ln p < ln float_max) by (apply ln_increasing; lra).
  lra.
Qed.

(** * get_ranked_stocks *)

Lemma insert_by_score_perm (x : string * float64) (s : list (string * float64)) :
  insert_by_score x s ≡ₚ x :: s.
Proof.
  induction s as [|y s IH]; [reflexivity|]. cbn [insert_by_score].
  destruct (flt x.2 y.2); [|reflexivity].
  rewrite IH. apply Permutation_swap.
Qed.

Lemma sorted_by_score_perm (items : list (string * float64)) :
  sorted_by_score items ≡ₚ items.
Proof.
  induction items as [|x items IH]; [reflexivity|].
  cbn [sorted_by_score foldr]. fold (sorted_by_score items).
  by rewrite insert_by_score_perm, IH.
Qed.

Lemma length_sorted_by_score (items : list (string * float64)) :
  length (sorted_by_score items) = length items.
Proof. by rewrite sorted_by_score_perm. Qed.

Lemma enumerate_lookup {A : Type} (start : Z) (l : list A) (i : nat) :
  enumerate start l !! i = (fun x => ((start + Z.of_nat i)%Z, x)) <$> l !! i.
Proof.
  revert start i. induction l as [|x l IH]; intros start [|i]; try reflexivity.
  - cbn. do 2 f_equal. lia.
  - cbn [enumerate lookup list_lookup]. rewrite IH.
    destruct (l !! i); cbn; [|reflexivity]. do 2 f_equal. lia.
Qed.

Lemma length_enumerate {A : Type} (start : Z) (l : list A) :
  length (enumerate start l) = length l.
Proof. revert start. induction l as [|x l IH]; intros start; cbn; [done | by rewrite IH]. Qed.

(** The ranking is the numbered slice of the sorted items. *)
Lemma get_ranked_stocks_unfold (items : list (string * float64)) (top_n : Z) :
  get_ranked_stocks items top_n
  = map (fun entry : Z * (string * float64) =>
           {| ranking := entry.1; ticker := entry.2.1; score := entry.2.2 |})
      (enumerate 1 (py_slice_to (sorted_by_score items)
                      (Z.min top_n (Z.of_nat (length items))))).
Proof.
  unfold get_ranked_stocks. destruct items as [|x items]; [|].
  - unfold py_slice_to, sorted_by_score. cbn [foldr]. by rewrite take_nil.
  - cbv zeta. rewrite length_sorted_by_score.
    by destruct (py_slice_to _ _).
Qed.

Lemma ranked_items_slice (items : list (string * float64)) (top_n : Z) :
  ranked_items (get_ranked_stocks items top_n)
  = py_slice_to (sorted_by_score items) (Z.min top_n (Z.of_nat (length items))).
Proof.
  rewrite get_ranked_stocks_unfold. unfold ranked_items. rewrite map_map.
  generalize (py_slice_to (sorted_by_score items)
                (Z.min top_n (Z.of_nat (length items)))).
  intros l. generalize 1%Z. induction l as [|[t s] l IH]; intros start; [reflexivity|].
  cbn [enumerate map]. by rewrite IH.
Qed.

Lemma ranking_numbers (items : list (string * float64)) (top_n : Z) (i : nat)
    (e : RankedStock) :
  get_ranked_stocks items top_n !! i = Some e -> ranking e = (Z.of_nat i + 1)%Z.
Proof.
  rewrite get_ranked_stocks_unfold, lookup_map, enumerate_lookup.
  destruct (py_slice_to _ _ !! i) as [x|]; [|discriminate].
  cbn. intros [= <-]. cbn. lia.
Qed.

(** X11.  The ranking holds min(top_n, number of scored stocks) entries,
    numbered 1, 2, 3, ... from the top, and they are the first entries of
    the list sorted by descending score, in that order; a negative top_n
    does not give an empty ranking but one that leaves out the |top_n|
    last stocks of the sorted list (the slice [:num_to_show] counts from
    the end). *)
Theorem ranking_size_and_numbers (items : list (string * float64)) (top_n : Z) :
  length (get_ranked_stocks items top_n)
  = Z.to_nat (if (top_n <? 0)%Z then Z.of_nat (length items) + top_n
              else Z.min top_n (Z.of_nat (length items)))
  /\ (forall i e, get_ranked_stocks items top_n !! i = Some e ->
                  ranking e = (Z.of_nat i + 1)%Z)
  /\ (exists dropped : list (string * float64),
        sorted_by_score items
        = ranked_items (get_ranked_stocks items top_n) ++ dropped
        /\ ((top_n < 0)%Z ->
            length dropped
            = Z.to_nat (Z.min (- top_n) (Z.of_nat (length items))))).
Proof.
  split; [|split].
  - rewrite get_ranked_stocks_unfold.
    rewrite length_map, length_enumerate. unfold py_slice_to.
    rewrite length_take, length_sorted_by_score.
    destruct (Z.ltb_spec top_n 0), (Z.ltb_spec (Z.min top_n (Z.of_nat (length items))) 0);
      lia.
  - apply ranking_numbers.
  - rewrite ranked_items_slice. unfold py_slice_to.
    set (k := Z.to_nat _).
    exists (drop k (sorted_by_score items)). split; [by rewrite take_drop|].
    intros Hneg. rewrite length_drop, length_sorted_by_score. unfold k.
    rewrite length_sorted_by_score.
    destruct (Z.ltb_spec (Z.min top_n (Z.of_nat (length items))) 0); lia.
Qed.

Lemma flt_asym (x y : float64) : flt x y = true -> flt y x = false.
Proof.
  destruct x, y; cbn; try done. unfold R_ltb.
  repeat destruct (Rlt_dec _ _); try done. lra.
Qed.

Lemma not_flt_trans (x y z : float64) :
  is_nan y = false -> flt x y = false -> flt y z = false -> flt x z = false.
Proof.
  destruct x, y, z; cbn; try done. unfold R_ltb.
  repeat destruct (Rlt_dec _ _); try done. lra.
Qed.

Lemma insert_by_score_sorted (x : string * float64) (s : list (string * float64)) :
  scores_comparable s -> StronglySorted ge_score s ->
  StronglySorted ge_score (insert_by_score x s).
Proof.
  intros Hcmp Hs. induction Hs as [|y s Hs IH Hy]; [repeat constructor|].
  apply Forall_cons in Hcmp as [Hyn Hcmp]. cbn [insert_by_score].
  destruct (flt x.2 y.2) eqn:Hxy.
  - apply SSorted_cons; [by apply IH|]. rewrite insert_by_score_perm.
    apply Forall_cons. split; [by apply flt_asym | exact Hy].
  - apply SSorted_cons; [by apply SSorted_cons|].
    apply Forall_cons. split; [exact Hxy|].
    eapply Forall_impl; [exact Hy|]. intros z Hz.
    by apply (not_flt_trans _ y.2).
Qed.

Lemma sorted_by_score_sorted (items : list (string * float64)) :
  scores_comparable items -> StronglySorted ge_score (sorted_by_score items).
Proof.
  induction 1 as [|x items Hx Hcmp IH]; [constructor|].
  cbn [sorted_by_score foldr]. fold (sorted_by_score items).
  apply insert_by_score_sorted; [|exact IH].
  unfold scores_comparable. by rewrite sorted_by_score_perm.
Qed.

(** X12.  When no score is NaN the ranking is in descending order of
    score: an entry never scores below one ranked after it. *)
Theorem ranking_is_descending (items : list (string * float64)) (top_n : Z) :
  scores_comparable items ->
  forall i j ei ej, (i < j)%nat ->
    get_ranked_stocks items top_n !! i = Some ei ->
    get_ranked_stocks items top_n !! j = Some ej ->
    (ranking ei < ranking ej)%Z /\ flt (score ei) (score ej) = false.
Proof.
  intros Hcmp i j ei ej Hij Hi Hj.
  pose proof (ranking_numbers items top_n) as Hrank.
  split; [rewrite (Hrank i ei Hi), (Hrank j ej Hj); lia|].
  pose proof (sorted_by_score_sorted items Hcmp) as Hs.
  assert (Hi' : ranked_items (get_ranked_stocks items top_n) !! i
                = Some (ticker ei, score ei))
    by (unfold ranked_items; by rewrite lookup_map, Hi).
  assert (Hj' : ranked_items (get_ranked_stocks items top_n) !! j
                = Some (ticker ej, score ej))
    by (unfold ranked_items; by rewrite lookup_map, Hj).
  rewrite ranked_items_slice in Hi', Hj'. unfold py_slice_to in Hi', Hj'.
  set (k := Z.to_nat _) in *.
  rewrite <- (take_drop k (sorted_by_score items)) in Hs.
  apply StronglySorted_app_1_l in Hs.
  rewrite <- (take_drop j (take k (sorted_by_score items))) in Hs.
  apply (StronglySorted_app_1_elem_of _ _ _ (ticker ei, score ei) (ticker ej, score ej)) in Hs.
  - exact Hs.
  - apply list_elem_of_lookup. exists i. rewrite lookup_take.
    by destruct (decide (i < j)%nat); [|lia].
  - apply list_elem_of_lookup. exists 0%nat. rewrite lookup_drop.
    by rewrite Nat.add_0_r.
Qed.

Lemma example_scores_comparable : scores_comparable example_scores.
Proof. unfold scores_comparable, example_scores. by repeat apply List.Forall_cons. Qed.

Lemma ranking_is_descending_witness :
  scores_comparable example_scores
  /\ (forall i j ei ej, (i < j)%nat ->
        get_ranked_stocks example_scores 3 !! i = Some ei ->
        get_ranked_stocks example_scores 3 !! j = Some ej ->
        (ranking ei < ranking ej)%Z /\ flt (score ei) (score ej) = false).
Proof.
  split; [exact example_scores_comparable|].
  apply (ranking_is_descending example_scores 3).
  exact example_scores_comparable.
Defined.

(** X13.  The ranking selects from the top and filters nothing: the
    ranked (ticker, score) items together with the stocks left out are
    the scored stocks reordered, no stock left out scores above a ranked
    one, and when top_n is at least the number of scored stocks every one
    of them is ranked, the unscorable ones (score -infinity)
    included. *)
Theorem ranking_selects_top (items : list (string * float64)) (top_n : Z) :
  scores_comparable items -> (0 <= top_n)%Z ->
  exists rest : list (string * float64),
    items ≡ₚ ranked_items (get_ranked_stocks items top_n) ++ rest
    /\ (forall x y, x ∈ ranked_items (get_ranked_stocks items top_n) ->
                    y ∈ rest -> flt x.2 y.2 = false)
    /\ length rest = (length items - Z.to_nat top_n)%nat
    /\ ((Z.of_nat (length items) <= top_n)%Z ->
        items ≡ₚ ranked_items (get_ranked_stocks items top_n)).
Proof.
  intros Hcmp Htop. rewrite ranked_items_slice. unfold py_slice_to.
  replace (Z.min top_n (Z.of_nat (length items)) <? 0)%Z with false
    by (symmetry; apply Z.ltb_ge; lia).
  set (k := Z.to_nat (Z.min top_n (Z.of_nat (length items)))).
  exists (drop k (sorted_by_score items)).
  split; [by rewrite take_drop, sorted_by_score_perm|]. split; [|split].
  - intros x y Hx Hy.
    pose proof (sorted_by_score_sorted items Hcmp) as Hs.
    rewrite <- (take_drop k (sorted_by_score items)) in Hs.
    by apply (StronglySorted_app_1_elem_of _ _ _ x y) in Hs.
  - rewrite length_drop, length_sorted_by_score. lia.
  - intros Hall. rewrite take_ge by (rewrite length_sorted_by_score; lia).
    by rewrite sorted_by_score_perm.
Qed.

Lemma ranking_selects_top_witness :
  exists rest : list (string * float64),
    example_scores ≡ₚ ranked_items (get_ranked_stocks example_scores 4) ++ rest
    /\ (forall x y, x ∈ ranked_items (get_ranked_stocks example_scores 4) ->
                    y ∈ rest -> flt x.2 y.2 = false)
    /\ length rest = (length example_scores - Z.to_nat 4)%nat
    /\ ((Z.of_nat (length example_scores) <= 4)%Z ->
        example_scores ≡ₚ ranked_items (get_ranked_stocks example_scores 4)).
Proof.
  apply (ranking_selects_top example_scores 4).
  - exact example_scores_comparable.
  - lia.
Defined.

Lemma feq_not_flt (x y v : float64) :
  feq x v = true -> feq y v = true -> flt x y = false.
Proof.
  destruct x, y, v; cbn; try done. unfold R_eqb, R_ltb.
  repeat destruct (Req_dec_T _ _); try done.
  destruct (Rlt_dec _ _); [lra | done].
Qed.

Lemma filter_insert_by_score (v : float64) (x : string * float64)
    (s : list (string * float64)) :
  filter (fun it => feq it.2 v = true) (insert_by_score x s)
  = filter (fun it => feq it.2 v = true) (x :: s).
Proof.
  induction s as [|y s IH]; [reflexivity|]. cbn [insert_by_score].
  destruct (flt x.2 y.2) eqn:Hxy; [|reflexivity].
  rewrite filter_cons, IH, !filter_cons.
  destruct (decide (feq y.2 v = true)) as [Hy|Hy],
           (decide (feq x.2 v = true)) as [Hx|Hx]; try reflexivity.
  by rewrite (feq_not_flt _ _ v Hx Hy) in Hxy.
Qed.

Lemma filter_sorted_by_score (v : float64) (items : list (string * float64)) :
  filter (fun it => feq it.2 v = true) (sorted_by_score items)
  = filter (fun it => feq it.2 v = true) items.
Proof.
  induction items as [|x items IH]; [reflexivity|].
  cbn [sorted_by_score foldr]. fold (sorted_by_score items).
  by rewrite filter_insert_by_score, !filter_cons, IH.
Qed.

(** X14.  Ties keep the order of the input: when no score is NaN, the
    ranked stocks that share a score appear in the order in which
    score_stocks_in_folder produced them (file names in sorted order), as
    the first of the stocks with that score. *)
Theorem ranking_is_stable (items : list (string * float64)) (top_n : Z)
    (v : float64) :
  scores_comparable items -> (0 <= top_n)%Z ->
  filter (fun it => feq it.2 v = true) (ranked_items (get_ranked_stocks items top_n))
    `prefix_of` filter (fun it => feq it.2 v = true) items.
Proof.
  intros _ Htop. rewrite ranked_items_slice. unfold py_slice_to.
  replace (Z.min top_n (Z.of_nat (length items)) <? 0)%Z with false
    by (symmetry; apply Z.ltb_ge; lia).
  set (k := Z.to_nat _).
  rewrite <- (filter_sorted_by_score v items).
  rewrite <- (take_drop k (sorted_by_score items)) at 2.
  rewrite filter_app. by apply prefix_app_r.
Qed.

Lemma ranking_is_stable_witness :
  filter (fun it => feq it.2 (FFin 1) = true)
    (ranked_items (get_ranked_stocks example_scores 3))
    `prefix_of` filter (fun it => feq it.2 (FFin 1) = true) example_scores.
Proof.
  apply (ranking_is_stable example_scores 3 (FFin 1)); [|lia].
  by repeat constructor.
Defined.

(** * From the downloader's file name back to the ticker *)

Lemma append_cons (c : Ascii.ascii) (a b : string) :
  String.append (String c a) b = String c (String.append a b).
Proof. reflexivity. Qed.

Lemma append_empty (b : string) : String.append EmptyString b = b.
Proof. reflexivity. Qed.

Lemma append_assoc_l (a b c : string) :
  String.append a (String.append b c) = String.append (String.append a b) c.
Proof.
  induction a as [|x a IH]; [reflexivity|].
  by rewrite !append_cons, IH.
Qed.

Lemma ascii_upper_underscore (c : Ascii.ascii) :
  Ascii.eqb (ascii_upper c) underscore = Ascii.eqb c underscore.
Proof. destruct c as [[] [] [] [] [] [] [] []]; reflexivity. Qed.

Lemma contains_underscore_upper (s : string) :
  contains_underscore (str_upper s) = contains_underscore s.
Proof.
  induction s as [|c s IH]; [reflexivity|].
  cbn -[Ascii.eqb underscore ascii_upper]. by rewrite ascii_upper_underscore, IH.
Qed.

Lemma before_underscore_app (a rest : string) :
  contains_underscore a = false ->
  before_underscore (String.append a (String underscore rest)) = a.
Proof.
  induction a as [|c a IH]; intros Ha; [reflexivity|].
  cbn -[Ascii.eqb underscore] in Ha. apply orb_false_elim in Ha as [Hc Ha].
  rewrite append_cons. cbn -[Ascii.eqb underscore]. by rewrite Hc, IH.
Qed.

Lemma str_lower_app (a b : string) :
  str_lower (String.append a b) = String.append (str_lower a) (str_lower b).
Proof.
  induction a as [|c a IH]; [reflexivity|].
  rewrite append_cons. cbn -[ascii_lower]. by rewrite append_cons, IH.
Qed.

Lemma endswith_app (a suffix : string) :
  endswith (String.append a suffix) suffix = true.
Proof.
  induction a as [|c a IH].
  - rewrite append_empty. destruct suffix; cbn -[String.eqb]; by rewrite String.eqb_refl.
  - rewrite append_cons. cbn -[String.eqb]. rewrite IH. by destruct (String.eqb _ _).
Qed.

Lemma before_underscore_clean (s : string) :
  contains_underscore (before_underscore s) = false.
Proof.
  induction s as [|c s IH]; [reflexivity|]. cbn -[Ascii.eqb underscore].
  destruct (Ascii.eqb c underscore) eqn:Hc; [reflexivity|].
  cbn -[Ascii.eqb underscore]. by rewrite Hc, IH.
Qed.

(** X15.  A file saved by the downloader (ASCII ticker and dates) is
    picked up by score_stocks_in_folder under the right key: its name
    passes the '.csv' test, and when the ticker contains no underscore the
    key read back from the name is the upper-cased ticker.  Whatever the
    file name, the key read from it contains no underscore. *)
Theorem downloaded_file_is_scored_under_its_ticker
    (ticker start_date end_date : string) :
  is_ascii ticker = true -> is_ascii start_date = true ->
  is_ascii end_date = true ->
  contains_underscore ticker = false ->
  is_csv (output_filename ticker start_date end_date) = true
  /\ ticker_of_filename (output_filename ticker start_date end_date)
     = str_upper ticker
  /\ (forall filename, contains_underscore (ticker_of_filename filename) = false).
Proof.
  intros _ _ _ Hticker. split; [|split].
  - unfold is_csv, output_filename. rewrite !str_lower_app.
    rewrite !append_assoc_l.
    change (str_lower ".csv") with ".csv"%string. apply endswith_app.
  - unfold ticker_of_filename, output_filename.
    rewrite append_cons, append_empty. apply before_underscore_app.
    by rewrite contains_underscore_upper.
  - intros filename. apply before_underscore_clean.
Qed.

Lemma downloaded_file_is_scored_under_its_ticker_witness :
  is_csv (output_filename "goog" "2015-01-02" "2024-12-31") = true
  /\ ticker_of_filename (output_filename "goog" "2015-01-02" "2024-12-31")
     = str_upper "goog"
  /\ (forall filename, contains_underscore (ticker_of_filename filename) = false).
Proof.
  apply (downloaded_file_is_scored_under_its_ticker "goog" "2015-01-02" "2024-12-31");
    reflexivity.
Defined.


(** * binary64 rounding *)

(** ** Powers of two *)

Lemma ln2_pos : 0 < ln 2.
Proof. rewrite <- ln_1. apply ln_increasing; lra. Qed.

Lemma bpow_pos (e : Z) : 0 < bpow e.
Proof. apply powerRZ_lt. lra. Qed.

Lemma bpow_add (a b : Z) : bpow (a + b) = bpow a * bpow b.
Proof. apply powerRZ_add. lra. Qed.

Lemma bpow_opp (a : Z) : bpow (- a) = / bpow a.
Proof. apply powerRZ_neg'. Qed.

Lemma bpow_0 : bpow 0 = 1.
Proof. reflexivity. Qed.

Lemma bpow_exp (e : Z) : bpow e = exp (IZR e * ln 2).
Proof. unfold bpow. rewrite powerRZ_Rpower by lra. reflexivity. Qed.

Lemma bpow_lt (a b : Z) : (a < b)%Z -> bpow a < bpow b.
Proof.
  intros Hab. rewrite !bpow_exp. apply exp_increasing.
  apply Rmult_lt_compat_r; [apply ln2_pos|]. by apply IZR_lt.
Qed.

Lemma bpow_le (a b : Z) : (a <= b)%Z -> bpow a <= bpow b.
Proof.
  intros Hab. destruct (Z.eq_dec a b) as [->|Hne]; [lra|].
  apply Rlt_le, bpow_lt. lia.
Qed.

Lemma bpow_lt_inv (a b : Z) : bpow a < bpow b -> (a < b)%Z.
Proof.
  intros Hab. destruct (Z_lt_le_dec a b) as [Hlt|Hle]; [done|].
  apply bpow_le in Hle. lra.
Qed.

Lemma bpow_IZR (n : Z) : (0 <= n)%Z -> bpow n = IZR (2 ^ n).
Proof.
  intros Hn. unfold bpow. rewrite <- (Z2Nat.id n Hn) at 1.
  rewrite <- pow_powerRZ. rewrite <- (Z2Nat.id n Hn) at 2.
  rewrite <- (pow_IZR 2). reflexivity.
Qed.

Lemma bpow_split (a b : Z) : bpow a = bpow (a - b) * bpow b.
Proof. rewrite <- bpow_add. f_equal. lia. Qed.

(** ** The binade *)

Lemma mag_spec (x : R) : x <> 0 -> bpow (mag x - 1) <= Rabs x < bpow (mag x).
Proof.
  intros Hx. assert (Habs : 0 < Rabs x) by by apply Rabs_pos_lt.
  unfold mag. set (l := ln (Rabs x) / ln 2).
  destruct (base_Int_part l) as [Hlo Hhi].
  pose proof ln2_pos as Hln.
  assert (Hl : Rabs x = exp (l * ln 2)).
  { replace (l * ln 2) with (ln (Rabs x)) by (unfold l; field; lra).
    by rewrite exp_ln. }
  rewrite !bpow_exp, Hl.
  replace (Int_part l + 1 - 1)%Z with (Int_part l) by lia.
  split.
  - destruct Hlo as [Hlt|Heq].
    + apply Rlt_le, exp_increasing. by apply Rmult_lt_compat_r.
    + rewrite Heq. lra.
  - apply exp_increasing. apply Rmult_lt_compat_r; [done|].
    rewrite plus_IZR. lra.
Qed.

Lemma mag_unique (x : R) (e : Z) :
  bpow (e - 1) <= Rabs x < bpow e -> mag x = e.
Proof.
  intros [Hlo Hhi].
  assert (Hx : x <> 0).
  { intros ->. rewrite Rabs_R0 in Hlo. pose proof (bpow_pos (e - 1)). lra. }
  destruct (mag_spec x Hx) as [Hlo' Hhi'].
  assert (e - 1 < mag x)%Z by (apply bpow_lt_inv; lra).
  assert (mag x - 1 < e)%Z by (apply bpow_lt_inv; lra).
  lia.
Qed.

Lemma mag_le (x y : R) : x <> 0 -> Rabs x <= Rabs y -> (mag x <= mag y)%Z.
Proof.
  intros Hx Hxy.
  assert (Hy : y <> 0).
  { intros ->. rewrite Rabs_R0 in Hxy. apply Rabs_pos_lt in Hx. lra. }
  destruct (mag_spec x Hx) as [Hlo _]. destruct (mag_spec y Hy) as [_ Hhi].
  assert (mag x - 1 < mag y)%Z by (apply bpow_lt_inv; lra).
  lia.
Qed.

Lemma mag_opp (x : R) : mag (- x) = mag x.
Proof. unfold mag. by rewrite Rabs_Ropp. Qed.

Lemma cexp_opp (x : R) : cexp (- x) = cexp x.
Proof. unfold cexp. by rewrite mag_opp. Qed.

Lemma cexp_ge (x : R) : (-1074 <= cexp x)%Z.
Proof. unfold cexp. lia. Qed.

Lemma cexp_le (x y : R) : x <> 0 -> Rabs x <= Rabs y -> (cexp x <= cexp y)%Z.
Proof. intros Hx Hxy. pose proof (mag_le x y Hx Hxy). unfold cexp. lia. Qed.

(** ** The nearest integer *)

Lemma rne_IZR (n : Z) : rne (IZR n) = n.
Proof.
  unfold rne. replace (Int_part (IZR n)) with n.
  - cbv zeta. destruct (Rlt_dec _ _) as [|Hn]; [done|]. exfalso. apply Hn. lra.
  - apply Int_part_spec. lra.
Qed.

Lemma rne_half (y : R) : Rabs (IZR (rne y) - y) <= / 2.
Proof.
  unfold rne. destruct (base_Int_part y) as [Hlo Hhi]. cbv zeta.
  destruct (Rlt_dec _ _) as [H1|H1].
  - apply Rabs_le. lra.
  - destruct (Rlt_dec _ _) as [H2|H2].
    + rewrite plus_IZR. apply Rabs_le. lra.
    + destruct (Z.even _); [|rewrite plus_IZR]; apply Rabs_le; lra.
Qed.

Lemma rne_nearest (y : R) (k : Z) : Rabs (IZR (rne y) - y) <= Rabs (IZR k - y).
Proof.
  pose proof (rne_half y) as Hhalf.
  destruct (Rle_lt_dec (Rabs (IZR (rne y) - y)) (Rabs (IZR k - y))) as [|Hlt]; [done|].
  exfalso.
  assert (Hk : Rabs (IZR k - IZR (rne y)) < 1).
  { replace (IZR k - IZR (rne y)) with ((IZR k - y) - (IZR (rne y) - y)) by lra.
    eapply Rle_lt_trans; [apply Rabs_triang|]. rewrite Rabs_Ropp. lra. }
  rewrite <- minus_IZR in Hk. apply Rabs_def2 in Hk as [Hk1 Hk2].
  assert (k - rne y < 1)%Z by (apply lt_IZR; lra).
  assert (-1 < k - rne y)%Z by (apply lt_IZR; lra).
  assert (k = rne y) by lia. subst k. lra.
Qed.

Lemma rne_opp (y : R) : rne (- y) = (- rne y)%Z.
Proof.
  destruct (base_Int_part y) as [Hlo Hhi].
  destruct (Req_dec (IZR (Int_part y)) y) as [Hint|Hfrac].
  - rewrite <- Hint, <- opp_IZR, !rne_IZR. done.
  - assert (Hf : Int_part (- y) = (- Int_part y - 1)%Z).
    { symmetry. apply Int_part_spec. rewrite minus_IZR, opp_IZR. lra. }
    unfold rne. rewrite Hf. cbv zeta. rewrite minus_IZR, opp_IZR.
    repeat destruct (Rlt_dec _ _); try lra; try lia.
    rewrite Z.even_sub, Z.even_opp. cbn.
    destruct (Z.even (Int_part y)); cbn; lia.
Qed.

(** ** Representable numbers *)

Lemma float_0 : is_float 0.
Proof. exists 0%Z, 0%Z. split; [lra|]. split; [done|lia]. Qed.

Lemma float_bpow (e : Z) : (-1074 <= e)%Z -> is_float (bpow e).
Proof. intros He. exists 1%Z, e. split; [lra|]. split; [done|lia]. Qed.

Lemma float_IZR (n : Z) : (Z.abs n < 2 ^ 53)%Z -> is_float (IZR n).
Proof. intros Hn. exists n, 0%Z. rewrite bpow_0. split; [lra|]. split; [done|lia]. Qed.

Lemma float_opp (x : R) : is_float x -> is_float (- x).
Proof.
  intros (m & e & -> & Hm & He). exists (- m)%Z, e.
  rewrite opp_IZR. split; [lra|]. split; [lia|done].
Qed.

Lemma bpow_shift (m : Z) (k c : Z) :
  (c <= k)%Z -> IZR m * bpow k = IZR (m * 2 ^ (k - c)) * bpow c.
Proof.
  intros Hck. rewrite mult_IZR, <- bpow_IZR by lia.
  rewrite (bpow_split k c). lra.
Qed.

Lemma Rabs_IZR_bpow (m k : Z) : Rabs (IZR m * bpow k) = IZR (Z.abs m) * bpow k.
Proof.
  rewrite Rabs_mult, <- abs_IZR, (Rabs_pos_eq (bpow k)); [done|].
  apply Rlt_le, bpow_pos.
Qed.

(** A representable number is a multiple of the unit of its last place. *)
Lemma float_multiple (f : R) (c : Z) :
  is_float f -> f <> 0 -> (c <= cexp f)%Z -> exists n : Z, f = IZR n * bpow c.
Proof.
  intros (m & k & Hf & Hm & Hk) Hne Hc.
  destruct (Z_le_gt_dec c k) as [Hck|Hck].
  - exists (m * 2 ^ (k - c))%Z. rewrite Hf. by apply bpow_shift.
  - exfalso. unfold cexp in Hc.
    assert (Hmag : (c <= mag f - 53)%Z) by lia.
    destruct (mag_spec f Hne) as [Hlo _].
    assert (Hlow : bpow (k + 53) <= Rabs f).
    { eapply Rle_trans; [|exact Hlo]. apply bpow_le. lia. }
    rewrite Hf, Rabs_IZR_bpow, bpow_add in Hlow.
    rewrite (bpow_IZR 53) in Hlow by lia.
    assert (Hlt : IZR (Z.abs m) < IZR (2 ^ 53)) by by apply IZR_lt.
    pose proof (bpow_pos k). nra.
Qed.

Lemma float_grid (f : R) : is_float f -> exists n : Z, f = IZR n * bpow (-1074).
Proof.
  intros (m & k & Hf & Hm & Hk).
  exists (m * 2 ^ (k - -1074))%Z. rewrite Hf. by apply bpow_shift.
Qed.

(** ** Rounding to nearest *)

Lemma rnd_0 : rnd 0 = 0.
Proof. unfold rnd. rewrite Rmult_0_l, rne_IZR. lra. Qed.

Lemma rnd_scaled (x : R) :
  rnd x - x = (IZR (rne (x * bpow (- cexp x))) - x * bpow (- cexp x)) * bpow (cexp x).
Proof.
  unfold rnd. rewrite bpow_opp. pose proof (bpow_pos (cexp x)). field. lra.
Qed.

(** [rnd x] is at least as near to [x] as any multiple of the unit of the
    last place of [x]. *)
Lemma rnd_nearest_grid (x : R) (k : Z) :
  Rabs (rnd x - x) <= Rabs (IZR k * bpow (cexp x) - x).
Proof.
  pose proof (bpow_pos (cexp x)) as Hu.
  rewrite rnd_scaled.
  replace (IZR k * bpow (cexp x) - x)
    with ((IZR k - x * bpow (- cexp x)) * bpow (cexp x))
    by (rewrite bpow_opp; field; lra).
  rewrite !Rabs_mult, (Rabs_pos_eq (bpow _)) by lra.
  apply Rmult_le_compat_r; [lra|]. apply rne_nearest.
Qed.

Lemma scaled_bound (x : R) : Rabs (x * bpow (- cexp x)) <= IZR (2 ^ 53).
Proof.
  destruct (Req_dec x 0) as [->|Hx].
  - rewrite Rmult_0_l, Rabs_R0. by apply IZR_le.
  - destruct (mag_spec x Hx) as [_ Hhi].
    rewrite Rabs_mult, (Rabs_pos_eq (bpow _)) by apply Rlt_le, bpow_pos.
    rewrite <- bpow_IZR by lia.
    assert (Hle : bpow (mag x) <= bpow (53 + cexp x)) by (apply bpow_le; unfold cexp; lia).
    rewrite bpow_add in Hle. rewrite bpow_opp.
    pose proof (bpow_pos (cexp x)) as Hu.
    apply Rmult_le_reg_r with (bpow (cexp x)); [done|].
    rewrite Rmult_assoc, Rinv_l by lra. lra.
Qed.

Lemma rnd_float (x : R) : is_float (rnd x).
Proof.
  unfold rnd. set (y := x * bpow (- cexp x)). set (n := rne y).
  pose proof (scaled_bound x) as Hy. fold y in Hy.
  pose proof (rne_half y) as Hn. fold n in Hn.
  assert (Hbound : (Z.abs n <= 2 ^ 53)%Z).
  { assert (Z.abs n < 2 ^ 53 + 1)%Z; [|lia].
    apply lt_IZR. rewrite abs_IZR, plus_IZR.
    replace (IZR n) with ((IZR n - y) + y) by lra.
    eapply Rle_lt_trans; [apply Rabs_triang|]. lra. }
  destruct (Z.eq_dec (Z.abs n) (2 ^ 53)%Z) as [Heq|Hne].
  - pose proof (cexp_ge x).
    assert (Hb1 : bpow (cexp x + 1) = 2 * bpow (cexp x)).
    { rewrite bpow_add. unfold bpow at 2. simpl. lra. }
    assert (Hcases : n = (2 * 2 ^ 52)%Z \/ n = (- (2 * 2 ^ 52))%Z) by lia.
    destruct Hcases as [Hn'|Hn']; rewrite Hn'.
    + exists (2 ^ 52)%Z, (cexp x + 1)%Z. split; [|split; [done|lia]].
      rewrite Hb1, mult_IZR. lra.
    + exists (- 2 ^ 52)%Z, (cexp x + 1)%Z. split; [|split; [done|lia]].
      rewrite Hb1, !opp_IZR, mult_IZR. lra.
  - exists n, (cexp x). split; [done|]. split; [lia|apply cexp_ge].
Qed.

(** Round to nearest: no representable number is nearer to [x] than
    [rnd x]. *)
Lemma rnd_nearest (x f : R) : is_float f -> Rabs (rnd x - x) <= Rabs (f - x).
Proof.
  intros Hf.
  destruct (Req_dec x 0) as [->|Hx].
  { rewrite rnd_0, Rminus_0_r, Rabs_R0. apply Rabs_pos. }
  destruct (Req_dec f 0) as [->|Hf0].
  { pose proof (rnd_nearest_grid x 0) as Hg. by rewrite Rmult_0_l in Hg. }
  destruct (Z_le_gt_dec (cexp x) (cexp f)) as [Hc|Hc].
  { destruct (float_multiple f (cexp x) Hf Hf0 Hc) as [n ->].
    apply rnd_nearest_grid. }
  pose proof (cexp_ge f) as Hcf.
  assert (Hcx : cexp x = (mag x - 53)%Z) by (unfold cexp in *; lia).
  assert (Hmag : (mag f <= mag x - 1)%Z) by (unfold cexp in *; lia).
  destruct (mag_spec x Hx) as [Hxlo _]. destruct (mag_spec f Hf0) as [_ Hfhi].
  assert (Hfx : Rabs f < bpow (mag x - 1)).
  { eapply Rlt_le_trans; [exact Hfhi|]. by apply bpow_le. }
  assert (Hg : bpow (mag x - 1) = IZR (2 ^ 52) * bpow (cexp x)).
  { rewrite <- bpow_IZR, <- bpow_add by lia. f_equal. lia. }
  destruct (Rlt_dec 0 x) as [Hpos|Hneg].
  - eapply Rle_trans; [apply (rnd_nearest_grid x (2 ^ 52)%Z)|].
    rewrite <- Hg. rewrite Rabs_pos_eq in Hxlo by lra.
    pose proof (Rle_abs f).
    rewrite (Rabs_left1 (bpow _ - x)), (Rabs_left1 (f - x)) by lra. lra.
  - eapply Rle_trans; [apply (rnd_nearest_grid x (- 2 ^ 52)%Z)|].
    rewrite opp_IZR.
    replace (- IZR (2 ^ 52) * bpow (cexp x)) with (- bpow (mag x - 1)) by (rewrite Hg; lra).
    rewrite Rabs_left1 in Hxlo by lra.
    pose proof (Rle_abs (- f)). rewrite Rabs_Ropp in H.
    rewrite (Rabs_pos_eq (- bpow _ - x)), (Rabs_pos_eq (f - x)) by lra. lra.
Qed.

Lemma rnd_id (x : R) : is_float x -> rnd x = x.
Proof.
  intros Hx. pose proof (rnd_nearest x x Hx) as Hn.
  rewrite Rminus_diag, Rabs_R0 in Hn.
  pose proof (Rabs_pos (rnd x - x)).
  assert (Rabs (rnd x - x) = 0) by lra.
  destruct (Req_dec (rnd x - x) 0) as [|Hne]; [lra|].
  apply Rabs_pos_lt in Hne. lra.
Qed.

Lemma rnd_le (x y : R) : x <= y -> rnd x <= rnd y.
Proof.
  intros Hxy. destruct (Rle_lt_dec (rnd x) (rnd y)) as [|Hlt]; [done|]. exfalso.
  pose proof (rnd_nearest x (rnd y) (rnd_float y)) as Hx.
  pose proof (rnd_nearest y (rnd x) (rnd_float x)) as Hy.
  assert (Hmx : (rnd x + rnd y) / 2 <= x).
  { destruct (Rle_lt_dec ((rnd x + rnd y) / 2) x) as [|Hc]; [done|]. exfalso.
    revert Hx. unfold Rabs. repeat destruct (Rcase_abs _); lra. }
  assert (Hmy : y <= (rnd x + rnd y) / 2).
  { destruct (Rle_lt_dec y ((rnd x + rnd y) / 2)) as [|Hc]; [done|]. exfalso.
    revert Hy. unfold Rabs. repeat destruct (Rcase_abs _); lra. }
  assert (x = y) by lra. subst y. lra.
Qed.

Lemma rnd_opp (x : R) : rnd (- x) = - rnd x.
Proof.
  unfold rnd. rewrite cexp_opp.
  replace (- x * bpow (- cexp x)) with (- (x * bpow (- cexp x))) by lra.
  rewrite rne_opp, opp_IZR. lra.
Qed.

Lemma rnd_le_float (x b : R) : is_float b -> x <= b -> rnd x <= b.
Proof. intros Hb Hxb. rewrite <- (rnd_id b Hb). by apply rnd_le. Qed.

Lemma rnd_ge_float (x a : R) : is_float a -> a <= x -> a <= rnd x.
Proof. intros Ha Hax. rewrite <- (rnd_id a Ha). by apply rnd_le. Qed.

(** ** Finite results *)

Lemma float_max_bpow : float_max = bpow 1024.
Proof.
  rewrite float_max_pow. unfold bpow. change 1024%Z with (Z.of_nat 1024).
  by rewrite pow_powerRZ.
Qed.

Lemma float_1 : is_float 1.
Proof. apply (float_IZR 1). done. Qed.

Lemma float_max_gt_1 : 1 < float_max.
Proof. pose proof float_max_million. lra. Qed.

Lemma Rabs_le_between (x a : R) : Rabs x <= a -> - a <= x <= a.
Proof.
  intros Hx. pose proof (Rle_abs x). pose proof (Rle_abs (- x)) as Hn.
  rewrite Rabs_Ropp in Hn. lra.
Qed.

Lemma Rabs_rnd_le (r b : R) : is_float b -> Rabs r <= b -> Rabs (rnd r) <= b.
Proof.
  intros Hb Hr. apply Rabs_le. apply Rabs_le_between in Hr.
  split.
  - apply rnd_ge_float; [by apply float_opp | lra].
  - apply rnd_le_float; [done | lra].
Qed.

Lemma round64_fin (r b : R) :
  is_float b -> b < float_max -> Rabs r <= b -> round64 r = FFin (rnd r).
Proof.
  intros Hb Hmax Hr. unfold round64.
  pose proof (Rabs_rnd_le r b Hb Hr). rewrite R_ltb_true by lra. done.
Qed.

Lemma fsub64_fin (a b c : R) :
  is_float c -> c < float_max -> Rabs (a - b) <= c ->
  fsub64 (FFin a) (FFin b) = FFin (rnd (a - b)).
Proof.
  intros Hc Hmax Hab. unfold fsub64. cbn [fneg fadd64].
  change (a + - b) with (a - b). by apply (round64_fin _ c).
Qed.

Lemma fdiv64_fin (a b c : R) :
  b <> 0 -> is_float c -> c < float_max -> Rabs (a / b) <= c ->
  fdiv64 (FFin a) (FFin b) = FFin (rnd (a / b)).
Proof.
  intros Hb Hc Hmax Hab. cbn [fdiv64]. rewrite R_eqb_false by done.
  by apply (round64_fin _ c).
Qed.

(** ** Prices *)

Lemma float_pos_ge (x : R) : is_float x -> 0 < x -> bpow (-1074) <= x.
Proof.
  intros Hx Hpos. destruct (float_grid x Hx) as [n ->].
  pose proof (bpow_pos (-1074)) as Hu.
  assert (Hn : (1 <= n)%Z).
  { apply Z.lt_pred_le. apply lt_IZR. cbn.
    destruct (Rlt_dec 0 (IZR n)) as [|Hn]; [done|]. exfalso. nra. }
  apply IZR_le in Hn. nra.
Qed.

Lemma float_price_pos (p : R) : float_price p -> 0 < p < float_max.
Proof. by intros [_ ?]. Qed.

Lemma float_diff_multiple (a b : R) (c : Z) :
  (exists n, a = IZR n * bpow c) -> (exists n, b = IZR n * bpow c) -> a < b ->
  bpow c <= b - a.
Proof.
  intros [na ->] [nb ->] Hlt. pose proof (bpow_pos c) as Hu.
  assert (Hn : (na + 1 <= nb)%Z).
  { apply Z.lt_succ_r, Z.succ_lt_mono, lt_IZR.
    destruct (Rlt_dec (IZR na) (IZR nb)) as [|Hn]; [|exfalso; nra].
    unfold Z.succ. rewrite !plus_IZR. lra. }
  apply IZR_le in Hn. rewrite plus_IZR in Hn. nra.
Qed.

(** ** One drawdown *)

Lemma bpow_succ (k : Z) : bpow (k + 1) = 2 * bpow k.
Proof. rewrite bpow_add. unfold bpow at 2. simpl. lra. Qed.

(** The drawdown of a price strictly below its peak does not round to
    zero. *)
Lemma drawdown64_pos (m p : R) :
  float_price p -> float_price m -> p < m -> bpow (-1074) <= drawdown64 m p.
Proof.
  intros [Hfp Hp] [Hfm Hm] Hlt. unfold drawdown64.
  pose proof (bpow_pos (-1074)) as Hu.
  assert (Hd : bpow (-1074) <= rnd (m - p)).
  { apply rnd_ge_float; [by apply float_bpow|].
    apply float_diff_multiple; [by apply float_grid..|done]. }
  apply rnd_ge_float; [by apply float_bpow|].
  apply (Rmult_le_reg_r m); [lra|].
  unfold Rdiv. rewrite Rmult_assoc, Rinv_l, Rmult_1_r by lra.
  destruct (Rle_dec m 1) as [Hm1|Hm1]; [nra|].
  assert (Hm0 : m <> 0) by lra. assert (Hp0 : p <> 0) by lra.
  destruct (Rle_dec p (m / 2)) as [Hhalf|Hhalf].
  - destruct (mag_spec m Hm0) as [Hlo Hhi]. rewrite Rabs_pos_eq in Hlo, Hhi by lra.
    assert (Hk : (1 <= mag m)%Z).
    { assert (0 < mag m)%Z; [|lia]. apply bpow_lt_inv. rewrite bpow_0. lra. }
    assert (Hk2 : bpow (mag m - 1) = 2 * bpow (mag m - 2)).
    { rewrite <- bpow_succ. f_equal. lia. }
    assert (Hd2 : bpow (mag m - 2) <= rnd (m - p)).
    { apply rnd_ge_float; [apply float_bpow; lia | lra]. }
    assert (Hmu : m * bpow (-1074) <= bpow (mag m - 1074)).
    { replace (mag m - 1074)%Z with (mag m + -1074)%Z by lia.
      rewrite bpow_add. nra. }
    assert (bpow (mag m - 1074) <= bpow (mag m - 2)) by (apply bpow_le; lia).
    lra.
  - destruct (float_multiple p (cexp p) Hfp Hp0) as [np Hnp]; [lia|].
    destruct (float_multiple m (cexp p) Hfm Hm0) as [nm Hnm].
    { apply cexp_le; [done|]. rewrite !Rabs_pos_eq by lra. lra. }
    assert (Hd2 : bpow (cexp p) <= rnd (m - p)).
    { apply rnd_ge_float; [apply float_bpow, cexp_ge|].
      apply float_diff_multiple; [by exists np | by exists nm | done]. }
    destruct (mag_spec p Hp0) as [_ Hhi]. rewrite Rabs_pos_eq in Hhi by lra.
    assert (Hmu : m * bpow (-1074) <= bpow (mag p + 1 - 1074)).
    { replace (mag p + 1 - 1074)%Z with ((mag p + 1) + -1074)%Z by lia.
      rewrite bpow_add, bpow_succ. nra. }
    assert (bpow (mag p + 1 - 1074) <= bpow (cexp p)) by (apply bpow_le; unfold cexp; lia).
    lra.
Qed.

(** One drawdown of scoring.py, [(m - p) / m], for a price [p] at or below
    its peak [m]. *)
Lemma drawdown64_fin (m p : R) :
  float_price p -> float_price m -> p <= m ->
  fdiv64 (fsub64 (FFin m) (FFin p)) (FFin m) = FFin (drawdown64 m p)
  /\ 0 <= drawdown64 m p <= 1
  /\ (drawdown64 m p = 0 <-> p = m).
Proof.
  intros Hp Hm Hle. pose proof Hp as [Hfp Hp']. pose proof Hm as [Hfm Hm'].
  unfold drawdown64.
  assert (Hd : 0 <= rnd (m - p) <= m).
  { split; [apply rnd_ge_float; [apply float_0 | lra]
           | apply rnd_le_float; [done | lra]]. }
  assert (Hq : 0 <= rnd (m - p) / m <= 1).
  { split.
    - apply Rmult_le_pos; [lra|]. left. apply Rinv_0_lt_compat. lra.
    - apply (Rmult_le_reg_r m); [lra|].
      unfold Rdiv. rewrite Rmult_assoc, Rinv_l by lra. lra. }
  assert (Hr : 0 <= rnd (rnd (m - p) / m) <= 1).
  { split; [apply rnd_ge_float; [apply float_0 | lra]
           | apply rnd_le_float; [apply float_1 | lra]]. }
  split; [|split; [exact Hr|]].
  - rewrite (fsub64_fin m p m) by (try done; try lra; rewrite Rabs_pos_eq; lra).
    apply (fdiv64_fin _ _ 1); [lra | apply float_1 | apply float_max_gt_1|].
    rewrite Rabs_pos_eq; lra.
  - split.
    + intros Hz. destruct (Req_dec p m) as [|Hne]; [done|]. exfalso.
      pose proof (drawdown64_pos m p Hp Hm) as Hpos. unfold drawdown64 in Hpos.
      pose proof (bpow_pos (-1074)). lra.
    + intros ->. rewrite Rminus_diag, rnd_0. unfold Rdiv. rewrite Rmult_0_l. apply rnd_0.
Qed.

Lemma signed_drawdown64_opp (p m : R) : signed_drawdown64 p m = - drawdown64 m p.
Proof.
  unfold signed_drawdown64, drawdown64.
  replace (p - m) with (- (m - p)) by lra. rewrite rnd_opp.
  replace (- rnd (m - p) / m) with (- (rnd (m - p) / m)) by (unfold Rdiv; lra).
  apply rnd_opp.
Qed.

(** One entry of the Drawdown column, [(p - m) / m]. *)
Lemma signed_drawdown64_fin (p m : R) :
  float_price p -> float_price m -> p <= m ->
  fdiv64 (fsub64 (FFin p) (FFin m)) (FFin m) = FFin (signed_drawdown64 p m)
  /\ -1 <= signed_drawdown64 p m <= 0
  /\ (signed_drawdown64 p m = 0 <-> p = m).
Proof.
  intros Hp Hm Hle. pose proof Hp as [Hfp Hp']. pose proof Hm as [Hfm Hm'].
  destruct (drawdown64_fin m p Hp Hm Hle) as (_ & Hr & Hz).
  rewrite signed_drawdown64_opp. split; [|split; [lra|]].
  - assert (Hd : - m <= rnd (p - m) <= 0).
    { split; [apply rnd_ge_float; [by apply float_opp | lra]
             | apply rnd_le_float; [apply float_0 | lra]]. }
    rewrite (fsub64_fin p m m) by (try done; try lra; apply Rabs_le; lra).
    rewrite (fdiv64_fin _ _ 1); [|lra | apply float_1 | apply float_max_gt_1|].
    + f_equal. rewrite <- signed_drawdown64_opp. reflexivity.
    + apply Rabs_le. split.
      * apply (Rmult_le_reg_r m); [lra|].
        unfold Rdiv. rewrite Rmult_assoc, Rinv_l by lra. lra.
      * unfold Rdiv. apply Rge_le. apply Rle_ge.
        assert (0 < / m) by (apply Rinv_0_lt_compat; lra). nra.
  - rewrite <- Hz. lra.
Qed.

(** ** The drawdown array of scoring.py *)

Lemma float_price_Rmax (a b : R) :
  float_price a -> float_price b -> float_price (Rmax a b).
Proof. intros Ha Hb. unfold Rmax. by destruct (Rle_dec a b). Qed.

Lemma drawdowns64_from_fin (acc : R) (l : list R) :
  float_price acc -> Forall float_price l ->
  let ms := running_max_from acc l in
  Binary64.np_div (Binary64.np_sub (map FFin ms) (map FFin l)) (map FFin ms)
    = map FFin (zip_with drawdown64 ms l)
  /\ Forall (fun d => 0 <= d <= 1) (zip_with drawdown64 ms l)
  /\ (Forall (fun d => d = 0) (zip_with drawdown64 ms l)
      <-> nondecreasing_from acc l).
Proof.
  intros Hacc Hl. cbv zeta. revert acc Hacc.
  induction Hl as [|p l Hp Hl IH]; intros acc Hacc.
  - cbn. repeat split; auto.
  - cbn [running_max_from]. cbv zeta.
    pose proof (float_price_Rmax acc p Hacc Hp) as Hm.
    destruct (IH (Rmax acc p) Hm) as (E & B & Z).
    destruct (drawdown64_fin (Rmax acc p) p Hp Hm (Rmax_r acc p)) as (E1 & B1 & Z1).
    assert (Hle : p = Rmax acc p <-> acc <= p).
    { unfold Rmax. destruct (Rle_dec acc p); split; intros; lra. }
    split; [|split; [|split]].
    + unfold Binary64.np_div, Binary64.np_sub in *. cbn [map zip_with].
      rewrite E1, E. reflexivity.
    + cbn [zip_with]. constructor; [exact B1 | exact B].
    + cbn [zip_with]. intros Hall. inversion Hall as [|d ds Hd Hds]; subst.
      cbn [nondecreasing_from]. apply Z1, Hle in Hd.
      split; [exact Hd|]. apply Z in Hds. by rewrite Rmax_right in Hds.
    + cbn [nondecreasing_from zip_with]. intros [Hap Hnd].
      constructor; [by apply Z1, Hle|].
      apply Z. by rewrite Rmax_right.
Qed.

Lemma drawdowns64_fin (l : list R) :
  Forall float_price l ->
  Binary64.drawdowns (map FFin l) = map FFin (drawdowns64 l)
  /\ Forall (fun d => 0 <= d <= 1) (drawdowns64 l)
  /\ (Forall (fun d => d = 0) (drawdowns64 l) <-> nondecreasing l).
Proof.
  intros Hl. unfold Binary64.drawdowns. cbv zeta. rewrite np_maximum_accumulate_fin.
  destruct Hl as [|p l Hp Hl]; [cbn; repeat split; auto|].
  unfold drawdowns64. cbn [running_max nondecreasing].
  destruct (drawdowns64_from_fin p l Hp Hl) as (E & B & Z).
  destruct (drawdown64_fin p p Hp Hp) as (E1 & B1 & Z1); [lra|].
  split; [|split; [|split]].
  - unfold Binary64.np_div, Binary64.np_sub in *. cbn [map zip_with].
    rewrite E1, E. reflexivity.
  - cbn [zip_with]. constructor; [exact B1 | exact B].
  - cbn [zip_with]. intros H. inversion H; subst. by apply Z.
  - cbn [zip_with]. intros H. constructor; [by apply Z1 | by apply Z].
Qed.

Lemma foldl_Rmax_unit (d : R) (ds : list R) :
  0 <= d <= 1 -> Forall (fun x => 0 <= x <= 1) ds ->
  0 <= foldl Rmax d ds <= 1
  /\ (foldl Rmax d ds = 0 <-> d = 0 /\ Forall (fun x => x = 0) ds).
Proof.
  intros Hd Hds. revert d Hd.
  induction Hds as [|x ds Hx Hds IH]; intros d Hd.
  - cbn. split; [lra|]. split; [intros ->; by split | by intros [-> _]].
  - cbn [foldl].
    assert (Hm : 0 <= Rmax d x <= 1).
    { unfold Rmax. destruct (Rle_dec d x); lra. }
    destruct (IH _ Hm) as [B Z]. split; [exact B|].
    rewrite Z. split.
    + intros [Hz Hall].
      assert (d = 0 /\ x = 0) as [-> ->].
      { pose proof (Rmax_l d x). pose proof (Rmax_r d x). lra. }
      split; [reflexivity | by constructor].
    + intros [-> Hall]. inversion Hall; subst.
      split; [apply Rmax_left; lra | done].
Qed.

Lemma max_dd64_fin (ps : list R) :
  Forall float_price ps -> ps <> [] ->
  Binary64.max_dd (map FFin ps) = Return (FFin (max_dd64 ps))
  /\ 0 <= max_dd64 ps <= 1
  /\ (max_dd64 ps = 0 <-> nondecreasing ps).
Proof.
  intros Hps Hne.
  destruct (drawdowns64_fin ps Hps) as (E & B & Z).
  unfold Binary64.max_dd, max_dd64. rewrite E.
  destruct (drawdowns64 ps) as [|d ds] eqn:Hdd.
  - destruct ps as [|p ps]; [done | discriminate Hdd].
  - cbn [map np_max]. rewrite foldl_fmaximum_fin.
    inversion B as [|? ? Bd Bds]; subst.
    destruct (foldl_Rmax_unit d ds Bd Bds) as [R0 R1].
    split; [reflexivity|]. split; [exact R0|].
    rewrite R1, <- Z. split.
    + intros [-> H]. by constructor.
    + intros H. inversion H; subst. by split.
Qed.

(** ** Evaluating a rounding *)

Lemma rne_unique (y : R) (n : Z) : Rabs (IZR n - y) < / 2 -> rne y = n.
Proof.
  intros Hn. pose proof (rne_half y) as Hh.
  assert (Hk : Rabs (IZR (rne y) - IZR n) < 1).
  { replace (IZR (rne y) - IZR n) with ((IZR (rne y) - y) - (IZR n - y)) by lra.
    eapply Rle_lt_trans; [apply Rabs_triang|]. rewrite Rabs_Ropp. lra. }
  rewrite <- minus_IZR in Hk. apply Rabs_def2 in Hk as [Hk1 Hk2].
  assert (rne y - n < 1)%Z by (apply lt_IZR; lra).
  assert (-1 < rne y - n)%Z by (apply lt_IZR; lra).
  lia.
Qed.

(** [rnd x] for [x] in the binade of exponent [e], normal range. *)
Lemma rnd_eval (x : R) (e n : Z) :
  bpow (e - 1) <= Rabs x < bpow e -> (-1074 <= e - 53)%Z ->
  Rabs (IZR n - x * bpow (53 - e)) < / 2 ->
  rnd x = IZR n * bpow (e - 53).
Proof.
  intros Hx He Hn. unfold rnd, cexp. rewrite (mag_unique x e Hx).
  rewrite Z.max_l by lia.
  replace (- (e - 53))%Z with (53 - e)%Z by lia.
  by rewrite (rne_unique _ n Hn).
Qed.

Lemma bpow_m1 : bpow (-1) = / 2.
Proof. unfold bpow. simpl. lra. Qed.

(** Just below 1 the binary64 numbers are 2^-53 apart: 1 - 2^-60 rounds
    to 1. *)
Lemma rnd_below_one : rnd (1 - bpow (-60)) = 1.
Proof.
  assert (H60 : bpow (-60) <= bpow (-1)) by (apply bpow_le; lia).
  pose proof (bpow_pos (-60)) as Hpos. rewrite bpow_m1 in H60.
  rewrite (rnd_eval _ 0 (2 ^ 53)).
  - rewrite <- bpow_IZR, <- bpow_add by lia. apply bpow_0.
  - rewrite Rabs_pos_eq by lra. change (0 - 1)%Z with (-1)%Z.
    rewrite bpow_m1, bpow_0. lra.
  - lia.
  - rewrite <- bpow_IZR by lia. change (53 - 0)%Z with 53%Z.
    replace (bpow 53 - (1 - bpow (-60)) * bpow 53) with (bpow (-60 + 53))
      by (rewrite bpow_add; lra).
    rewrite Rabs_pos_eq by apply Rlt_le, bpow_pos.
    rewrite <- bpow_m1. apply bpow_lt. lia.
Qed.

(** A price of 1 followed by one of 2^-60. *)
Lemma float_price_1 : float_price 1.
Proof. split; [apply float_1|]. pose proof float_max_gt_1. lra. Qed.

Lemma float_price_bpow (e : Z) : (-1074 <= e < 1024)%Z -> float_price (bpow e).
Proof.
  intros He. split; [apply float_bpow; lia|].
  split; [apply bpow_pos|]. rewrite float_max_bpow. apply bpow_lt. lia.
Qed.

(** ** calculate_metrics in binary64 *)

Lemma calculate_metrics64_run (h : gmap positive DataFrame) (df : loc)
    (f : DataFrame) (close : list float64) :
  h !! df = Some f -> columns f !! "Close" = Some close ->
  Binary64.calculate_metrics df h
  = (<[df := Binary64.with_metrics f close]> h,
     match Binary64.key_statistics (index f) close with
     | Return s => Return (df, s)
     | Raise e => Raise e
     end).
Proof.
  intros Hdf Hclose. unfold Binary64.calculate_metrics.
  unfold mbind, M_bind, df_loc, df_getitem, df_setitem, df_index, lift, mbind, M_bind.
  simplify_map_eq. rewrite !insert_insert_eq.
  unfold Binary64.key_statistics, Binary64.with_metrics. cbv zeta.
  unfold mbind, outcome_bind.
  destruct (idxmin (index f) _) as [d|e]; [|reflexivity].
  destruct (get_loc (index f) d) as [i|]; [|reflexivity].
  destruct (cummax close !! i) as [v|]; [|reflexivity].
  destruct (index_where (index f) _) as [|pd pds]; reflexivity.
Qed.

Lemma with_metrics64_drawdown (f : DataFrame) (close : list float64) :
  columns (Binary64.with_metrics f close) !! "Drawdown"
  = Some (Binary64.np_div (Binary64.np_sub close (cummax close)) (cummax close)).
Proof. unfold Binary64.with_metrics. cbn [columns]. by simplify_map_eq. Qed.

Lemma frame_after64 (h : gmap positive DataFrame) (df : loc) (f : DataFrame)
    (close : list float64) :
  h !! df = Some f -> columns f !! "Close" = Some close ->
  (Binary64.calculate_metrics df h).1 !! df = Some (Binary64.with_metrics f close).
Proof.
  intros Hdf Hclose. rewrite (calculate_metrics64_run h df f close Hdf Hclose).
  cbn [fst]. by rewrite lookup_insert_eq.
Qed.

(** Each price is at or below its running peak, and the peaks are prices
    of the series. *)
Lemma running_max_float (ps : list R) :
  Forall float_price ps ->
  Forall2 (fun p m => float_price p /\ float_price m /\ p <= m) ps (running_max ps).
Proof.
  intros Hps. apply Forall2_same_length_lookup_2.
  - by rewrite length_running_max.
  - intros t p m Hp Hm.
    destruct (running_max_spec ps t m Hm) as [Hle (j & Hj & Hjm)].
    rewrite Forall_lookup in Hps.
    split; [by apply (Hps t)|]. split; [by apply (Hps j)|].
    by apply (Hle t).
Qed.

Lemma signed_drawdowns64_zip (ps ms : list R) :
  Forall2 (fun p m => float_price p /\ float_price m /\ p <= m) ps ms ->
  Binary64.np_div (Binary64.np_sub (map FFin ps) (map FFin ms)) (map FFin ms)
  = map FFin (zip_with signed_drawdown64 ps ms).
Proof.
  unfold Binary64.np_div, Binary64.np_sub.
  induction 1 as [|p m ps ms (Hp & Hm & Hle) _ IH]; [reflexivity|].
  cbn [map zip_with]. rewrite IH.
  by destruct (signed_drawdown64_fin p m Hp Hm Hle) as (-> & _).
Qed.

(** The Drawdown column on binary64 prices. *)
Lemma drawdown_column64 (ps : list R) :
  Forall float_price ps ->
  Binary64.np_div (Binary64.np_sub (map FFin ps) (cummax (map FFin ps)))
    (cummax (map FFin ps))
  = map FFin (signed_drawdowns64 ps).
Proof.
  intros Hps. rewrite cummax_fin. by apply signed_drawdowns64_zip, running_max_float.
Qed.

Lemma length_signed_drawdowns64 (ps : list R) :
  length (signed_drawdowns64 ps) = length ps.
Proof.
  unfold signed_drawdowns64. rewrite length_zip_with, length_running_max. lia.
Qed.

Lemma signed_drawdowns64_nonempty (ps : list R) :
  ps <> [] -> signed_drawdowns64 ps <> [].
Proof.
  intros Hne E. apply (f_equal length) in E.
  rewrite length_signed_drawdowns64 in E. by destruct ps.
Qed.

Lemma signed_drawdowns64_lookup (ps : list R) (t : nat) (p m : R) :
  ps !! t = Some p -> running_max ps !! t = Some m ->
  signed_drawdowns64 ps !! t = Some (signed_drawdown64 p m).
Proof. intros Hp Hm. apply lookup_zip_with_Some. by exists p, m. Qed.

Lemma trough_index64_lt (ps : list R) :
  ps <> [] -> (trough_index64 ps < length ps)%nat.
Proof.
  intros Hne. unfold trough_index64.
  destruct (argmin_spec (signed_drawdowns64 ps)) as (Hi & _ & _).
  - by apply signed_drawdowns64_nonempty.
  - apply lookup_lt_Some in Hi. by rewrite length_signed_drawdowns64 in Hi.
Qed.

Lemma peak_value64_lookup (ps : list R) :
  ps <> [] -> running_max ps !! trough_index64 ps = Some (peak_value64 ps).
Proof.
  intros Hne. unfold peak_value64. rewrite nth_lookup.
  destruct (running_max ps !! trough_index64 ps) eqn:E; [done|].
  apply lookup_ge_None in E. rewrite length_running_max in E.
  pose proof (trough_index64_lt ps Hne). lia.
Qed.

(** The peak value is attained at or before the trough, so a peak row
    exists. *)
Lemma peak_index64_exists (ps : list R) :
  ps <> [] ->
  exists j, peak_index64 ps = Some j /\ (j <= trough_index64 ps)%nat.
Proof.
  intros Hne.
  destruct (running_max_spec _ _ _ (peak_value64_lookup ps Hne)) as (_ & j & Hj & Hjm).
  unfold peak_index64.
  pose proof (first_index_spec (fun p => R_eqb p (peak_value64 ps)) ps) as Hspec.
  destruct (first_index _ ps) as [j'|].
  - exists j'. split; [reflexivity|]. destruct Hspec as [_ Hbefore].
    destruct (Nat.le_gt_cases j' j) as [Hle|Hgt]; [lia|].
    specialize (Hbefore j _ Hgt Hjm). by rewrite R_eqb_true in Hbefore.
  - specialize (Hspec j _ Hjm). by rewrite R_eqb_true in Hspec.
Qed.

(** The statistics calculate_metrics returns for binary64 prices under
    distinct dates. *)
Lemma key_statistics64_clean (idx : list date) (ps : list R) :
  Forall float_price ps -> ps <> [] ->
  NoDup idx -> length idx = length ps ->
  exists dt dp,
    idx !! trough_index64 ps = Some dt
    /\ (peak_index64 ps ≫= fun j => idx !! j) = Some dp
    /\ Binary64.key_statistics idx (map FFin ps)
       = Return {| max_drawdown_date := dt;
                   max_drawdown_value := FFin (argmin (signed_drawdowns64 ps)).2;
                   peak_date := dp;
                   recovery_date := recovery_index64 ps ≫= fun k => idx !! k |}.
Proof.
  intros Hps Hne Hnd Hlen.
  pose proof (trough_index64_lt ps Hne) as Hi.
  destruct (lookup_lt_is_Some_2 idx (trough_index64 ps)) as [dt Hdt]; [lia|].
  destruct (peak_index64_exists ps Hne) as (j & Hj & Hji).
  destruct (lookup_lt_is_Some_2 idx j) as [dp Hdp]; [lia|].
  exists dt, dp. split; [exact Hdt|]. split; [by rewrite Hj|].
  unfold Binary64.key_statistics. cbv zeta.
  rewrite (drawdown_column64 ps Hps), cummax_fin.
  pose proof (signed_drawdowns64_nonempty ps Hne) as Hsne.
  unfold idxmin, series_min. rewrite nanargmin_fin by exact Hsne.
  fold (trough_index64 ps). rewrite Hdt. cbn [mbind outcome_bind].
  rewrite (get_loc_lookup idx _ dt Hnd Hdt).
  rewrite lookup_map, (peak_value64_lookup ps Hne). cbn [fmap option_fmap option_map].
  cbn [mbind outcome_bind]. rewrite map_map.
  change (fun x : R => feq (FFin x) (FFin (peak_value64 ps)))
    with (fun x : R => R_eqb x (peak_value64 ps)).
  pose proof (index_where_first (fun p => R_eqb p (peak_value64 ps)) idx ps Hlen) as Hpk.
  fold (peak_index64 ps) in Hpk. rewrite Hj in Hpk. cbn [mbind option_bind] in Hpk.
  rewrite Hdp in Hpk.
  destruct (index_where idx _) as [|d ds]; [discriminate Hpk|].
  injection Hpk as ->. cbn [mbind outcome_bind].
  do 2 f_equal.
  change (map FFin ps) with (FFin <$> ps). rewrite <- fmap_drop.
  change (FFin <$> drop (trough_index64 ps) ps)
    with (map FFin (drop (trough_index64 ps) ps)).
  rewrite map_map.
  change (fun x : R => fge (FFin x) (FFin (peak_value64 ps)))
    with (fun p : R => R_ltb (peak_value64 ps) p || R_eqb (peak_value64 ps) p).
  rewrite index_where_first by (rewrite !length_drop; lia).
  unfold recovery_index64.
  destruct (first_index _ (drop (trough_index64 ps) ps)) as [k|]; [|reflexivity].
  cbn [mbind option_bind option_map]. apply lookup_drop.
Qed.

Lemma calculate_metrics64_clean (h : gmap positive DataFrame) (df : loc)
    (f : DataFrame) (ps : list R) :
  h !! df = Some f -> columns f !! "Close" = Some (map FFin ps) ->
  Forall float_price ps -> ps <> [] ->
  NoDup (index f) -> length (index f) = length ps ->
  exists dt dp,
    index f !! trough_index64 ps = Some dt
    /\ (peak_index64 ps ≫= fun j => index f !! j) = Some dp
    /\ Binary64.calculate_metrics df h
       = (<[df := Binary64.with_metrics f (map FFin ps)]> h,
          Return (df, {| max_drawdown_date := dt;
                         max_drawdown_value :=
                           FFin (argmin (signed_drawdowns64 ps)).2;
                         peak_date := dp;
                         recovery_date :=
                           recovery_index64 ps ≫= fun k => index f !! k |})).
Proof.
  intros Hdf Hclose Hps Hne Hnd Hlen.
  destruct (key_statistics64_clean (index f) ps Hps Hne Hnd Hlen)
    as (dt & dp & Hdt & Hdp & Hks).
  exists dt, dp. split; [exact Hdt|]. split; [exact Hdp|].
  by rewrite (calculate_metrics64_run h df f (map FFin ps) Hdf Hclose), Hks.
Qed.

(** The recovery row: the first row from the trough on whose price is back
    at the peak value. *)
Lemma recovery_index64_spec (ps : list R) :
  match recovery_index64 ps with
  | Some k =>
      (trough_index64 ps <= k)%nat
      /\ (exists p, ps !! k = Some p /\ peak_value64 ps <= p)
      /\ (forall k' q, (trough_index64 ps <= k' < k)%nat ->
                       ps !! k' = Some q -> q < peak_value64 ps)
  | None =>
      forall k' q, (trough_index64 ps <= k')%nat ->
                   ps !! k' = Some q -> q < peak_value64 ps
  end.
Proof.
  unfold recovery_index64.
  set (i := trough_index64 ps). set (m := peak_value64 ps).
  pose proof (first_index_spec (fun p => R_ltb m p || R_eqb m p) (drop i ps)) as Hspec.
  assert (Htest : forall p, (R_ltb m p || R_eqb m p) = false -> p < m).
  { intros p. unfold R_ltb, R_eqb.
    destruct (Rlt_dec m p), (Req_dec_T m p); try discriminate. intros _. lra. }
  assert (Htest' : forall p, (R_ltb m p || R_eqb m p) = true -> m <= p).
  { intros p. unfold R_ltb, R_eqb.
    destruct (Rlt_dec m p), (Req_dec_T m p); try discriminate; intros _; lra. }
  destruct (first_index _ (drop i ps)) as [k|]; cbn [option_map].
  - destruct Hspec as [(p & Hp & Hfp) Hbefore]. rewrite lookup_drop in Hp.
    split; [lia|]. split; [exists p; split; [exact Hp | by apply Htest']|].
    intros k' q Hk' Hq. apply Htest.
    apply (Hbefore (k' - i)%nat q); [lia|].
    rewrite lookup_drop. by replace (i + (k' - i))%nat with k' by lia.
  - intros k' q Hk' Hq. apply Htest. apply (Hspec (k' - i)%nat q).
    rewrite lookup_drop. by replace (i + (k' - i))%nat with k' by lia.
Qed.

(** ** Concrete binary64 series *)

Lemma float_price_small (n : Z) : (1 <= n <= 1000000)%Z -> float_price (IZR n).
Proof.
  intros Hn. split; [apply float_IZR; lia|].
  pose proof float_max_million.
  assert (1 <= IZR n <= 1000000) by (split; apply IZR_le; lia). lra.
Qed.

Ltac float_prices :=
  repeat (apply List.Forall_cons; [apply float_price_small; lia|]);
  apply List.Forall_nil.

Lemma scenario_float : Forall float_price scenario_prices.
Proof. unfold scenario_prices. float_prices. Qed.

Lemma plateau_float : Forall float_price plateau_prices.
Proof. unfold plateau_prices. float_prices. Qed.

Lemma collapse_float : Forall float_price collapse_prices.
Proof.
  unfold collapse_prices.
  apply List.Forall_cons; [apply float_price_1|].
  apply List.Forall_cons; [apply float_price_bpow; lia | apply List.Forall_nil].
Qed.

Lemma collapse_max_dd : max_dd64 collapse_prices = 1.
Proof.
  pose proof (bpow_pos (-60)) as Hpos.
  assert (H60 : bpow (-60) <= bpow (-1)) by (apply bpow_le; lia).
  rewrite bpow_m1 in H60.
  unfold max_dd64, drawdowns64, collapse_prices.
  cbn [running_max running_max_from zip_with foldl].
  rewrite (Rmax_left 1 (bpow (-60))) by lra.
  assert (H0 : drawdown64 1 1 = 0).
  { apply (drawdown64_fin 1 1); [apply float_price_1.. | lra | done]. }
  assert (H1 : drawdown64 1 (bpow (-60)) = 1).
  { unfold drawdown64. rewrite rnd_below_one. unfold Rdiv.
    rewrite Rinv_1, Rmult_1_r. apply rnd_id, float_1. }
  rewrite H0, H1. apply Rmax_right. lra.
Qed.

(** * C5 *)

(** C5, as stated, fails: after a fall from 1 to 2^-60 the drawdown
    (1 - 2^-60) / 1 rounds to 1, so the maximum drawdown of this two-point
    series of positive prices is 1, outside [0, 1). *)
Lemma max_dd_reaches_one :
  Forall float_price collapse_prices
  /\ (2 <= length collapse_prices)%nat
  /\ exists d : R,
       Binary64.max_dd (map FFin collapse_prices) = Return (FFin d)
       /\ d = 1
       /\ ~ (0 <= d < 1).
Proof.
  split; [exact collapse_float|]. split; [cbn; lia|].
  exists (max_dd64 collapse_prices). split.
  - apply max_dd64_fin; [exact collapse_float | discriminate].
  - rewrite collapse_max_dd. split; [reflexivity | lra].
Qed.

(** C5, amended.  For a series of at least two finite, strictly positive
    binary64 prices the maximum drawdown computed by compute_stock_score
    (lines 40-42) is a number in the closed interval [0, 1], and it is 0
    exactly when the series is non-decreasing. *)
Theorem max_dd_closed_unit_interval (ps : list R) :
  Forall float_price ps -> (2 <= length ps)%nat ->
  exists d : R,
    Binary64.max_dd (map FFin ps) = Return (FFin d)
    /\ 0 <= d <= 1
    /\ (d = 0 <-> nondecreasing ps).
Proof.
  intros Hps Hlen. exists (max_dd64 ps). apply max_dd64_fin; [exact Hps|].
  intros ->. cbn in Hlen. lia.
Qed.

Lemma max_dd_closed_unit_interval_witness :
  exists d : R,
    Binary64.max_dd (map FFin scenario_prices) = Return (FFin d)
    /\ 0 <= d <= 1
    /\ (d = 0 <-> nondecreasing scenario_prices).
Proof.
  apply (max_dd_closed_unit_interval scenario_prices).
  - exact scenario_float.
  - cbn. lia.
Defined.

(** * C2 *)

(** C2, amended.  For finite, strictly positive binary64 prices the
    Drawdown column of calculate_metrics at row [t] is the binary64 value
    of (price[t] - runningPeak[t]) / runningPeak[t], the negated magnitude,
    where runningPeak[t] is the largest price up to [t]; every value lies
    in [-1, 0] and it is 0 exactly where the price equals its running
    maximum.  The magnitude, the binary64 value of
    (runningPeak[t] - price[t]) / runningPeak[t] in [0, 1], is what the
    drawdown array inside compute_stock_score holds. *)
Theorem drawdown_column_signed_rounded (h : gmap positive DataFrame) (df : loc)
    (f : DataFrame) (ps : list R) (t : nat) (p : R) :
  h !! df = Some f -> columns f !! "Close" = Some (map FFin ps) ->
  Forall float_price ps -> ps !! t = Some p ->
  exists (f' : DataFrame) (col : list float64) (m v : R),
    (Binary64.calculate_metrics df h).1 !! df = Some f'
    /\ columns f' !! "Drawdown" = Some col
    /\ (forall i q, (i <= t)%nat -> ps !! i = Some q -> q <= m)
    /\ (exists j, (j <= t)%nat /\ ps !! j = Some m)
    /\ v = rnd (rnd (p - m) / m)
    /\ col !! t = Some (FFin v)
    /\ -1 <= v <= 0
    /\ (v = 0 <-> p = m)
    /\ Binary64.drawdowns (map FFin ps) !! t = Some (FFin (- v))
    /\ - v = rnd (rnd (m - p) / m).
Proof.
  intros Hdf Hclose Hps Hp.
  destruct (lookup_lt_is_Some_2 (running_max ps) t) as [m Hm].
  { rewrite length_running_max. by apply lookup_lt_Some in Hp. }
  destruct (running_max_spec ps t m Hm) as [Hle Hex].
  destruct (Forall2_lookup_lr _ _ _ _ _ _ (running_max_float ps Hps) Hp Hm)
    as (Hfp & Hfm & Hpm).
  destruct (signed_drawdown64_fin p m Hfp Hfm Hpm) as (_ & Hrange & Hzero).
  exists (Binary64.with_metrics f (map FFin ps)),
    (map FFin (signed_drawdowns64 ps)), m, (signed_drawdown64 p m).
  split; [by apply frame_after64|].
  split; [by rewrite with_metrics64_drawdown, drawdown_column64|].
  split; [exact Hle|]. split; [exact Hex|]. split; [reflexivity|].
  split; [by rewrite lookup_map, (signed_drawdowns64_lookup ps t p m Hp Hm)|].
  split; [exact Hrange|]. split; [exact Hzero|].
  rewrite signed_drawdown64_opp, Ropp_involutive. split; [|reflexivity].
  destruct (drawdowns64_fin ps Hps) as (-> & _).
  rewrite lookup_map. unfold drawdowns64.
  assert (Hz : zip_with drawdown64 (running_max ps) ps !! t = Some (drawdown64 m p)).
  { apply lookup_zip_with_Some. by exists m, p. }
  by rewrite Hz.
Qed.

Lemma drawdown_column_signed_rounded_witness :
  exists (f' : DataFrame) (col : list float64) (m v : R),
    (Binary64.calculate_metrics 1%positive
       (heap_of (frame_of scenario_dates scenario_prices))).1
      !! 1%positive = Some f'
    /\ columns f' !! "Drawdown" = Some col
    /\ (forall i q, (i <= 2)%nat -> scenario_prices !! i = Some q -> q <= m)
    /\ (exists j, (j <= 2)%nat /\ scenario_prices !! j = Some m)
    /\ v = rnd (rnd (90 - m) / m)
    /\ col !! 2%nat = Some (FFin v)
    /\ -1 <= v <= 0
    /\ (v = 0 <-> 90 = m)
    /\ Binary64.drawdowns (map FFin scenario_prices) !! 2%nat = Some (FFin (- v))
    /\ - v = rnd (rnd (m - 90) / m).
Proof.
  apply (drawdown_column_signed_rounded
           (heap_of (frame_of scenario_dates scenario_prices))
           1%positive (frame_of scenario_dates scenario_prices) scenario_prices 2 90).
  - reflexivity.
  - reflexivity.
  - exact scenario_float.
  - reflexivity.
Defined.

(** * C4 *)

(** C4, amended.  For binary64 prices under distinct dates, peak_date is
    the date of the first row of the whole series whose price equals the
    running peak at the row of max_drawdown_date (the trough row that
    calculate_metrics itself returns); that row lies at or before the
    trough row. *)
Theorem peak_date_first_touch_of_trough (h : gmap positive DataFrame) (df : loc)
    (f : DataFrame) (ps : list R) :
  h !! df = Some f -> columns f !! "Close" = Some (map FFin ps) ->
  Forall float_price ps -> ps <> [] ->
  NoDup (index f) -> length (index f) = length ps ->
  exists (stats : Stats) (i j : nat) (m : R),
    (Binary64.calculate_metrics df h).2 = Return (df, stats)
    /\ index f !! i = Some (max_drawdown_date stats)
    /\ index f !! j = Some (peak_date stats)
    /\ (j <= i)%nat
    /\ running_max ps !! i = Some m
    /\ ps !! j = Some m
    /\ (forall k q, (k < j)%nat -> ps !! k = Some q -> q <> m).
Proof.
  intros Hdf Hclose Hps Hne Hnd Hlen.
  destruct (calculate_metrics64_clean h df f ps Hdf Hclose Hps Hne Hnd Hlen)
    as (dt & dp & Hdt & Hdp & ->).
  destruct (peak_index64_exists ps Hne) as (j & Hj & Hji).
  rewrite Hj in Hdp. cbn [mbind option_bind] in Hdp.
  pose proof (first_index_spec (fun p => R_eqb p (peak_value64 ps)) ps) as Hspec.
  fold (peak_index64 ps) in Hspec. rewrite Hj in Hspec.
  destruct Hspec as [(x & Hx & Hfx) Hbefore].
  assert (x = peak_value64 ps) as ->.
  { unfold R_eqb in Hfx. by destruct (Req_dec_T x (peak_value64 ps)). }
  eexists _, (trough_index64 ps), j, (peak_value64 ps). split; [reflexivity|].
  cbn [max_drawdown_date peak_date].
  split; [exact Hdt|]. split; [exact Hdp|]. split; [exact Hji|].
  split; [by apply peak_value64_lookup|]. split; [exact Hx|].
  intros k q Hk Hq ->. specialize (Hbefore k _ Hk Hq).
  by rewrite R_eqb_true in Hbefore.
Qed.

Lemma peak_date_first_touch_of_trough_witness :
  exists (stats : Stats) (i j : nat) (m : R),
    (Binary64.calculate_metrics 1%positive
       (heap_of (frame_of scenario_dates plateau_prices))).2
    = Return (1%positive, stats)
    /\ scenario_dates !! i = Some (max_drawdown_date stats)
    /\ scenario_dates !! j = Some (peak_date stats)
    /\ (j <= i)%nat
    /\ running_max plateau_prices !! i = Some m
    /\ plateau_prices !! j = Some m
    /\ (forall k q, (k < j)%nat -> plateau_prices !! k = Some q -> q <> m).
Proof.
  apply (peak_date_first_touch_of_trough
           (heap_of (frame_of scenario_dates plateau_prices))
           1%positive (frame_of scenario_dates plateau_prices) plateau_prices).
  - reflexivity.
  - reflexivity.
  - exact plateau_float.
  - discriminate.
  - unfold scenario_dates. compute_done.
  - reflexivity.
Defined.

(** * The recovery and the trough in binary64 *)

(** X1.  recovery_date (lines 85-87) is the date of the first row, from
    the row of max_drawdown_date on, whose close is at least the running
    peak at that row; it is None exactly when every close from that row on
    stays below that peak. *)
Theorem recovery_date_first_return (h : gmap positive DataFrame) (df : loc)
    (f : DataFrame) (ps : list R) :
  h !! df = Some f -> columns f !! "Close" = Some (map FFin ps) ->
  Forall float_price ps -> ps <> [] ->
  NoDup (index f) -> length (index f) = length ps ->
  exists (stats : Stats) (i : nat) (m : R),
    (Binary64.calculate_metrics df h).2 = Return (df, stats)
    /\ index f !! i = Some (max_drawdown_date stats)
    /\ running_max ps !! i = Some m
    /\ match recovery_date stats with
       | Some d =>
           exists k p,
             index f !! k = Some d
             /\ (i <= k)%nat
             /\ ps !! k = Some p /\ m <= p
             /\ (forall k' q, (i <= k' < k)%nat -> ps !! k' = Some q -> q < m)
       | None =>
           forall k' q, (i <= k')%nat -> ps !! k' = Some q -> q < m
       end.
Proof.
  intros Hdf Hclose Hps Hne Hnd Hlen.
  destruct (calculate_metrics64_clean h df f ps Hdf Hclose Hps Hne Hnd Hlen)
    as (dt & dp & Hdt & Hdp & ->).
  eexists _, (trough_index64 ps), (peak_value64 ps). split; [reflexivity|].
  cbn [max_drawdown_date recovery_date].
  split; [exact Hdt|]. split; [by apply peak_value64_lookup|].
  pose proof (recovery_index64_spec ps) as Hrec.
  destruct (recovery_index64 ps) as [k|]; cbn [mbind option_bind]; [|exact Hrec].
  destruct Hrec as (Hik & (p & Hp & Hmp) & Hbefore).
  destruct (lookup_lt_is_Some_2 (index f) k) as [d Hd].
  { rewrite Hlen. by apply lookup_lt_Some in Hp. }
  rewrite Hd. by exists k, p.
Qed.

Lemma recovery_date_first_return_witness :
  exists (stats : Stats) (i : nat) (m : R),
    (Binary64.calculate_metrics 1%positive
       (heap_of (frame_of scenario_dates scenario_prices))).2
    = Return (1%positive, stats)
    /\ scenario_dates !! i = Some (max_drawdown_date stats)
    /\ running_max scenario_prices !! i = Some m
    /\ match recovery_date stats with
       | Some d =>
           exists k p,
             scenario_dates !! k = Some d
             /\ (i <= k)%nat
             /\ scenario_prices !! k = Some p /\ m <= p
             /\ (forall k' q, (i <= k' < k)%nat ->
                              scenario_prices !! k' = Some q -> q < m)
       | None =>
           forall k' q, (i <= k')%nat -> scenario_prices !! k' = Some q -> q < m
       end.
Proof.
  apply (recovery_date_first_return
           (heap_of (frame_of scenario_dates scenario_prices)) 1%positive
           (frame_of scenario_dates scenario_prices) scenario_prices).
  - reflexivity.
  - reflexivity.
  - exact scenario_float.
  - discriminate.
  - unfold scenario_dates. compute_done.
  - reflexivity.
Defined.

(** X2.  max_drawdown_value (line 82) is the least value of the Drawdown
    column, a number in [-1, 0], and max_drawdown_date (line 81) is the
    date of the first row that holds it: every earlier row is strictly
    above it.  The column holds finite numbers only. *)
Theorem max_drawdown_is_first_minimum (h : gmap positive DataFrame) (df : loc)
    (f : DataFrame) (ps : list R) :
  h !! df = Some f -> columns f !! "Close" = Some (map FFin ps) ->
  Forall float_price ps -> ps <> [] ->
  NoDup (index f) -> length (index f) = length ps ->
  exists (stats : Stats) (f' : DataFrame) (col : list float64) (v : R) (i : nat),
    Binary64.calculate_metrics df h = (<[df := f']> h, Return (df, stats))
    /\ columns f' !! "Drawdown" = Some col
    /\ length col = length ps
    /\ (forall k y, col !! k = Some y -> is_finite y = true)
    /\ max_drawdown_value stats = FFin v
    /\ -1 <= v <= 0
    /\ index f !! i = Some (max_drawdown_date stats)
    /\ col !! i = Some (FFin v)
    /\ (forall k x, col !! k = Some (FFin x) -> v <= x)
    /\ (forall k x, (k < i)%nat -> col !! k = Some (FFin x) -> v < x).
Proof.
  intros Hdf Hclose Hps Hne Hnd Hlen.
  destruct (calculate_metrics64_clean h df f ps Hdf Hclose Hps Hne Hnd Hlen)
    as (dt & dp & Hdt & Hdp & ->).
  pose proof (signed_drawdowns64_nonempty ps Hne) as Hsne.
  destruct (argmin_spec _ Hsne) as (Hat & Hmin & Hfirst).
  fold (trough_index64 ps) in Hat, Hfirst.
  set (v := (argmin (signed_drawdowns64 ps)).2) in *.
  eexists _, (Binary64.with_metrics f (map FFin ps)), _, v, (trough_index64 ps).
  split; [reflexivity|]. split; [apply with_metrics64_drawdown|].
  cbn [max_drawdown_value max_drawdown_date]. rewrite (drawdown_column64 ps Hps).
  split; [by rewrite length_map, length_signed_drawdowns64|].
  split.
  { intros k y. rewrite lookup_map.
    destruct (signed_drawdowns64 ps !! k); [|discriminate]. by intros [= <-]. }
  split; [reflexivity|]. split.
  { unfold signed_drawdowns64 in Hat.
    apply lookup_zip_with_Some in Hat as (p & m & Hv & Hp & Hm).
    destruct (Forall2_lookup_lr _ _ _ _ _ _ (running_max_float ps Hps) Hp Hm)
      as (Hfp & Hfm & Hpm).
    rewrite Hv. by destruct (signed_drawdown64_fin p m Hfp Hfm Hpm) as (_ & ? & _). }
  split; [exact Hdt|]. split; [by rewrite lookup_map, Hat|]. split.
  - intros k x. rewrite lookup_map.
    destruct (signed_drawdowns64 ps !! k) as [y|] eqn:Hy; [|discriminate].
    cbn. intros [= <-]. by apply (Hmin k).
  - intros k x Hk. rewrite lookup_map.
    destruct (signed_drawdowns64 ps !! k) as [y|] eqn:Hy; [|discriminate].
    cbn. intros [= <-]. by apply (Hfirst k).
Qed.

Lemma max_drawdown_is_first_minimum_witness :
  exists (stats : Stats) (f' : DataFrame) (col : list float64) (v : R) (i : nat),
    Binary64.calculate_metrics 1%positive
      (heap_of (frame_of scenario_dates plateau_prices))
    = (<[1%positive := f']> (heap_of (frame_of scenario_dates plateau_prices)),
       Return (1%positive, stats))
    /\ columns f' !! "Drawdown" = Some col
    /\ length col = length plateau_prices
    /\ (forall k y, col !! k = Some y -> is_finite y = true)
    /\ max_drawdown_value stats = FFin v
    /\ -1 <= v <= 0
    /\ scenario_dates !! i = Some (max_drawdown_date stats)
    /\ col !! i = Some (FFin v)
    /\ (forall k x, col !! k = Some (FFin x) -> v <= x)
    /\ (forall k x, (k < i)%nat -> col !! k = Some (FFin x) -> v < x).
Proof.
  apply (max_drawdown_is_first_minimum
           (heap_of (frame_of scenario_dates plateau_prices)) 1%positive
           (frame_of scenario_dates plateau_prices) plateau_prices).
  - reflexivity.
  - reflexivity.
  - exact plateau_float.
  - discriminate.
  - unfold scenario_dates. compute_done.
  - reflexivity.
Defined.

(** * compute_stock_score in binary64 *)

Lemma float_min_bpow : float_min = bpow (-1074).
Proof.
  rewrite float_min_pow. change (-1074)%Z with (Z.opp 1074).
  rewrite bpow_opp. f_equal.
Qed.

Lemma float_price_valid (p : R) : float_price p -> valid_price p.
Proof.
  intros [Hf Hp]. unfold valid_price. rewrite float_min_bpow.
  split; [apply float_pos_ge; [done | lra] | lra].
Qed.

Lemma round64_nonneg (r : R) :
  0 <= r -> round64 r = FPInf \/ exists y, round64 r = FFin y /\ 0 <= y.
Proof.
  intros Hr. unfold round64.
  destruct (R_ltb (Rabs (rnd r)) float_max).
  - right. exists (rnd r). split; [done|]. apply rnd_ge_float; [apply float_0 | done].
  - left. by rewrite R_ltb_false.
Qed.

Lemma round64_float (x : R) : is_float x -> Rabs x < float_max -> round64 x = FFin x.
Proof.
  intros Hx Hmax. unfold round64. rewrite (rnd_id x Hx). by rewrite R_ltb_true.
Qed.

Lemma round64_1 : round64 1 = FFin 1.
Proof.
  apply round64_float; [apply float_1|].
  rewrite Rabs_pos_eq by lra. apply float_max_gt_1.
Qed.

Lemma round64_0 : round64 0 = FFin 0.
Proof.
  apply round64_float; [apply float_0|].
  rewrite Rabs_R0. pose proof float_max_gt_1. lra.
Qed.

(** The correctly rounded library meets the assumptions. *)
Lemma reference_lib_ok : lib_ok reference_lib.
Proof.
  split.
  - intros p Hp. cbn [reference_lib lib_log].
    pose proof (ln_valid_price p (float_price_valid p Hp)) as Hln.
    destruct Hp as [_ Hp]. unfold flog. rewrite R_ltb_true by lra.
    pose proof float_max_million.
    rewrite round_finite by (apply Rabs_def1; lra). cbn [rounded].
    rewrite (round64_fin _ (IZR 2048)); [done | by apply float_IZR | cbn; lra|].
    apply Rabs_le. lra.
  - intros x b Hnan Hneg. cbn [reference_lib lib_pow]. unfold fpow.
    destruct (R_eqb b 0); [right; exists 1; split; [apply round64_1 | lra]|].
    destruct x as [a| | |]; try discriminate.
    + cbn [is_negative] in Hneg. unfold R_ltb in Hneg.
      destruct (Rlt_dec a 0) as [|Ha]; [discriminate|].
      destruct (Rlt_dec 0 a) as [Hpos|Hnpos].
      * rewrite (R_ltb_true 0 a) by done.
        assert (Hpow : 0 < Rpower a b) by (unfold Rpower; apply exp_pos).
        unfold round. destruct (R_ltb (Rabs (Rpower a b)) float_max); cbn [rounded].
        -- apply round64_nonneg. lra.
        -- left. by rewrite R_ltb_false by lra.
      * rewrite (R_ltb_false 0 a), (R_eqb_true a 0) by lra.
        destruct (R_ltb b 0); cbn [rounded]; [by left|].
        right. exists 0. split; [apply round64_0 | lra].
    + destruct (R_ltb b 0); cbn [rounded]; [|by left].
      right. exists 0. split; [apply round64_0 | lra].
  - intros y. cbn [reference_lib lib_pow]. unfold fpow.
    assert (H1 : R_eqb (Rabs 1) 1 = true) by (apply R_eqb_true, Rabs_pos_eq; lra).
    destruct y as [b| | |]; rewrite ?H1; cbn [rounded]; try apply round64_1.
    + destruct (R_eqb b 0); cbn [rounded]; [apply round64_1|].
      rewrite R_ltb_true by lra. rewrite Rpower_base_1.
      pose proof float_max_gt_1.
      rewrite round_finite by (rewrite Rabs_pos_eq; lra).
      apply round64_1.
    + rewrite R_eqb_true by done. apply round64_1.
Qed.

Lemma hd_map_FFin (l : list R) : List.hd (FFin 0) (map FFin l) = FFin (List.hd 0 l).
Proof. by destruct l. Qed.

Lemma float_price_last (ps : list R) :
  Forall float_price ps -> ps <> [] -> float_price (List.last ps 0).
Proof.
  intros H Hne. induction H as [|p ps Hp Hps IH]; [done|].
  destruct ps as [|q ps]; [exact Hp | apply IH; done].
Qed.

Lemma float_price_hd (ps : list R) :
  Forall float_price ps -> ps <> [] -> float_price (List.hd 0 ps).
Proof. intros H Hne. destruct H; [done | assumption]. Qed.

(** Line 39 on binary64 prices. *)
Lemma ann_return64_run (L : NumLib) (ps : list R) (af : Z) :
  ps <> [] ->
  Binary64.ann_return L (map FFin ps) af
  = py_truediv64 af (length ps) ≫= fun e =>
      Return (fsub64 (lib_pow L (fdiv64 (FFin (List.last ps 0)) (FFin (List.hd 0 ps))) e)
                (FFin 1)).
Proof.
  intros Hne. unfold Binary64.ann_return.
  rewrite (np_getitem_last _ (FFin 0)) by (by destruct ps).
  rewrite last_map_FFin, length_map. destruct ps as [|p l]; [done|].
  cbn [map]. rewrite np_getitem_first. reflexivity.
Qed.

Lemma py_truediv64_in_range (af : Z) (n : nat) :
  n <> 0%nat -> Rabs (rnd (IZR af / INR n)) < float_max ->
  py_truediv64 af n = Return (FFin (rnd (IZR af / INR n))).
Proof.
  intros Hn He. unfold py_truediv64.
  replace (n =? 0)%nat with false by (symmetry; by apply Nat.eqb_neq).
  by rewrite R_ltb_true.
Qed.






(** ** The annualized return *)

Lemma fsub64_one_from_nonneg (z : R) :
  0 <= z ->
  fsub64 (FFin z) (FFin 1) = FPInf
  \/ exists r, fsub64 (FFin z) (FFin 1) = FFin r /\ -1 <= r.
Proof.
  intros Hz. unfold fsub64. cbn [fneg fadd64]. unfold round64.
  change (z + - (1)) with (z - 1).
  assert (Hlo : -1 <= rnd (z - 1)).
  { replace (-1) with (- (1)) by lra.
    apply rnd_ge_float; [apply float_opp, float_1 | lra]. }
  destruct (R_ltb (Rabs (rnd (z - 1))) float_max) eqn:Hfin.
  - right. exists (rnd (z - 1)). by split.
  - left. rewrite R_ltb_false; [done|].
    destruct (Rle_lt_dec 0 (z - 1)) as [|Hneg]; [done|]. exfalso.
    assert (Hhi : rnd (z - 1) <= 0) by (apply rnd_le_float; [apply float_0 | lra]).
    pose proof float_max_gt_1.
    rewrite R_ltb_true in Hfin; [discriminate|]. apply Rabs_def1; lra.
Qed.

(** Line 39 is never NaN and never below -1, and it is 0 when the series
    ends where it started. *)
Lemma ann_return64_value (L : NumLib) (ps : list R) (af : Z) :
  lib_ok L -> Forall float_price ps -> ps <> [] ->
  Rabs (rnd (IZR af / INR (length ps))) < float_max ->
  exists ar : float64,
    Binary64.ann_return L (map FFin ps) af = Return ar
    /\ (ar = FPInf \/ exists r : R, ar = FFin r /\ -1 <= r)
    /\ (List.last ps 0 = List.hd 0 ps -> ar = FFin 0).
Proof.
  intros HL Hps Hne He.
  assert (Hn : length ps <> 0%nat) by (by destruct ps).
  rewrite (ann_return64_run L ps af Hne), (py_truediv64_in_range af _ Hn He).
  cbn [mbind outcome_bind].
  destruct (float_price_last ps Hps Hne) as [Hfl Hl].
  destruct (float_price_hd ps Hps Hne) as [Hfh Hh].
  set (e := rnd (IZR af / INR (length ps))).
  eexists. split; [reflexivity|]. split.
  - assert (Hq : 0 <= List.last ps 0 / List.hd 0 ps).
    { apply Rmult_le_pos; [lra|]. left. apply Rinv_0_lt_compat. lra. }
    cbn [fdiv64]. rewrite R_eqb_false by lra.
    assert (Hpow : lib_pow L (round64 (List.last ps 0 / List.hd 0 ps)) (FFin e) = FPInf
                   \/ exists y, lib_pow L (round64 (List.last ps 0 / List.hd 0 ps)) (FFin e)
                                = FFin y /\ 0 <= y).
    { destruct (round64_nonneg _ Hq) as [->|(y & -> & Hy)].
      - by apply (lib_pow_nonneg L HL).
      - apply (lib_pow_nonneg L HL); [done|]. cbn [is_negative]. by apply R_ltb_false. }
    destruct Hpow as [->|(z & -> & Hz)]; [by left|].
    by apply fsub64_one_from_nonneg.
  - intros Heq. rewrite Heq. cbn [fdiv64]. rewrite R_eqb_false by lra.
    replace (List.hd 0 ps / List.hd 0 ps) with 1 by (field; lra).
    rewrite round64_1, (lib_pow_one L HL).
    unfold fsub64. cbn [fneg fadd64]. change (1 + - (1)) with (1 - 1).
    rewrite Rminus_diag. apply round64_0.
Qed.

(** * C7 *)



(** * The annualized return in binary64 *)

(** X8.  The annualized return of line 39 on finite, strictly positive
    binary64 prices is never NaN and never below -1: it is +infinity or a
    number >= -1 (a loss never exceeds 100%); and it is exactly 0 when
    the series ends at the price it started from, whatever the
    annualization factor. *)
Theorem ann_return_at_least_minus_one (L : NumLib) (ps : list R) (af : Z) :
  lib_ok L -> Forall float_price ps -> ps <> [] ->
  Rabs (rnd (IZR af / INR (length ps))) < float_max ->
  exists ar : float64,
    Binary64.ann_return L (map FFin ps) af = Return ar
    /\ (ar = FPInf \/ exists r : R, ar = FFin r /\ -1 <= r)
    /\ (List.last ps 0 = List.hd 0 ps -> ar = FFin 0).
Proof. apply ann_return64_value. Qed.

Lemma ann_return_at_least_minus_one_witness :
  exists ar : float64,
    Binary64.ann_return reference_lib (map FFin scenario_prices) 4 = Return ar
    /\ (ar = FPInf \/ exists r : R, ar = FFin r /\ -1 <= r)
    /\ (List.last scenario_prices 0 = List.hd 0 scenario_prices -> ar = FFin 0).
Proof.
  apply (ann_return_at_least_minus_one reference_lib scenario_prices 4).
  - exact reference_lib_ok.
  - exact scenario_float.
  - discriminate.
  - replace (IZR 4 / INR (length scenario_prices)) with 1
      by (unfold scenario_prices; cbn; lra).
    rewrite (rnd_id 1 float_1), Rabs_pos_eq by lra. apply float_max_gt_1.
Defined.

(** * Rescaling the prices by a power of two *)

Lemma mag_scale (k : Z) (x : R) : x <> 0 -> mag (bpow k * x) = (mag x + k)%Z.
Proof.
  intros Hx. apply mag_unique. destruct (mag_spec x Hx) as [Hlo Hhi].
  pose proof (bpow_pos k) as Hk.
  rewrite Rabs_mult, (Rabs_pos_eq (bpow k)) by lra.
  replace (mag x + k - 1)%Z with (k + (mag x - 1))%Z by lia.
  replace (mag x + k)%Z with (k + mag x)%Z by lia.
  rewrite !bpow_add. split; nra.
Qed.

(** Outside the subnormal range rounding commutes with a scaling by a
    power of two. *)
Lemma rnd_scale (k : Z) (x : R) :
  (-1074 <= mag x - 53)%Z -> (-1074 <= mag x + k - 53)%Z ->
  rnd (bpow k * x) = bpow k * rnd x.
Proof.
  intros H1 H2. destruct (Req_dec x 0) as [->|Hx].
  { rewrite Rmult_0_r, rnd_0. lra. }
  pose proof (bpow_pos k) as Hk.
  unfold rnd, cexp. rewrite (mag_scale k x Hx), !Z.max_l by lia.
  replace (bpow k * x * bpow (- (mag x + k - 53))) with (x * bpow (- (mag x - 53))).
  - replace (mag x + k - 53)%Z with (k + (mag x - 53))%Z by lia.
    rewrite bpow_add. lra.
  - replace (- (mag x + k - 53))%Z with (- k + - (mag x - 53))%Z by lia.
    rewrite bpow_add, (bpow_opp k). field. lra.
Qed.

Lemma mag_gt (x : R) (e : Z) : bpow e <= Rabs x -> (e < mag x)%Z.
Proof.
  intros He.
  assert (Hx : x <> 0).
  { intros ->. rewrite Rabs_R0 in He. pose proof (bpow_pos e). lra. }
  destruct (mag_spec x Hx) as [_ Hhi]. apply bpow_lt_inv. lra.
Qed.

(** Two distinct representable numbers are at least one unit of the last
    place of the smaller apart. *)
Lemma float_gap (p m : R) :
  is_float p -> is_float m -> 0 < p < m -> bpow (cexp p) <= m - p.
Proof.
  intros Hfp Hfm [Hp Hlt].
  assert (Hp0 : p <> 0) by lra. assert (Hm0 : m <> 0) by lra.
  destruct (float_multiple p (cexp p) Hfp Hp0) as [np Hnp]; [lia|].
  destruct (float_multiple m (cexp p) Hfm Hm0) as [nm Hnm].
  { apply cexp_le; [done|]. rewrite !Rabs_pos_eq by lra. lra. }
  apply float_diff_multiple; [by exists np | by exists nm | done].
Qed.

Lemma normal_gap_mag (p m : R) :
  normal_price p -> is_float m -> p < m -> (-1074 <= mag (m - p) - 53)%Z.
Proof.
  intros [Hfp [Hlo _]] Hfm Hlt.
  pose proof (bpow_pos (-968)) as H968.
  pose proof (float_gap p m Hfp Hfm) as Hgap.
  assert (Hmag : (-968 < mag p)%Z) by (apply mag_gt; rewrite Rabs_pos_eq; lra).
  assert (Hc : bpow (-1020) <= bpow (cexp p)) by (apply bpow_le; unfold cexp; lia).
  assert (-1020 < mag (m - p))%Z; [|lia].
  apply mag_gt. rewrite Rabs_pos_eq by lra. lra.
Qed.

Lemma normal_price_float (p : R) : normal_price p -> float_price p.
Proof.
  intros [Hf [Hlo Hhi]]. split; [done|]. pose proof (bpow_pos (-968)). lra.
Qed.

Lemma drawdown64_scale (k : Z) (m p : R) :
  normal_price p -> normal_price (bpow k * p) ->
  is_float m -> is_float (bpow k * m) -> p <= m ->
  drawdown64 (bpow k * m) (bpow k * p) = drawdown64 m p.
Proof.
  intros Hp Hkp Hfm Hfkm Hle. pose proof (bpow_pos k) as Hk.
  pose proof (normal_price_float p Hp) as [_ [Hpos _]].
  unfold drawdown64.
  replace (bpow k * m - bpow k * p) with (bpow k * (m - p)) by lra.
  destruct (Req_dec p m) as [->|Hne].
  { rewrite Rminus_diag, Rmult_0_r, rnd_0. unfold Rdiv. by rewrite !Rmult_0_l. }
  assert (Hlt : p < m) by lra.
  pose proof (normal_gap_mag p m Hp Hfm Hlt) as H1.
  assert (H2 : (-1074 <= mag (m - p) + k - 53)%Z).
  { rewrite <- (mag_scale k (m - p)) by lra.
    replace (bpow k * (m - p)) with (bpow k * m - bpow k * p) by lra.
    apply normal_gap_mag; [done | done | nra]. }
  rewrite (rnd_scale k (m - p) H1 H2). f_equal. field. lra.
Qed.

Lemma running_max_from_scale (c acc : R) (l : list R) :
  0 < c ->
  running_max_from (c * acc) (map (Rmult c) l) = map (Rmult c) (running_max_from acc l).
Proof.
  intros Hc. revert acc. induction l as [|p l IH]; intros acc; [reflexivity|].
  cbn [map running_max_from].
  assert (E : Rmax (c * acc) (c * p) = c * Rmax acc p).
  { unfold Rmax. destruct (Rle_dec (c * acc) (c * p)), (Rle_dec acc p); try reflexivity; nra. }
  rewrite E, IH. reflexivity.
Qed.

Lemma running_max_scale (c : R) (l : list R) :
  0 < c -> running_max (map (Rmult c) l) = map (Rmult c) (running_max l).
Proof.
  intros Hc. destruct l as [|p l]; [reflexivity|].
  cbn [map running_max]. by rewrite running_max_from_scale.
Qed.

Lemma drawdowns64_scale (k : Z) (ps : list R) :
  Forall normal_price ps -> Forall normal_price (map (Rmult (bpow k)) ps) ->
  drawdowns64 (map (Rmult (bpow k)) ps) = drawdowns64 ps.
Proof.
  intros Hps Hkps. pose proof (bpow_pos k) as Hk.
  assert (Hfl : Forall float_price ps).
  { eapply Forall_impl; [exact Hps | exact normal_price_float]. }
  assert (Hkfl : Forall float_price (map (Rmult (bpow k)) ps)).
  { eapply Forall_impl; [exact Hkps | exact normal_price_float]. }
  pose proof (running_max_float ps Hfl) as Hrm.
  pose proof (running_max_float _ Hkfl) as Hkrm.
  rewrite running_max_scale in Hkrm by done.
  unfold drawdowns64. rewrite running_max_scale by done.
  apply list_eq. intros t. rewrite !lookup_zip_with, !lookup_map.
  destruct (running_max ps !! t) as [m|] eqn:Hm; [|reflexivity].
  destruct (ps !! t) as [p|] eqn:Hp; [|reflexivity].
  cbn. f_equal.
  rewrite Forall_lookup in Hps. rewrite Forall_lookup in Hkps.
  destruct (Forall2_lookup_lr _ _ _ _ _ _ Hrm Hp Hm) as (_ & [Hfm _] & Hle).
  assert (Hkp : map (Rmult (bpow k)) ps !! t = Some (bpow k * p))
    by (by rewrite lookup_map, Hp).
  assert (Hkm : map (Rmult (bpow k)) (running_max ps) !! t = Some (bpow k * m))
    by (by rewrite lookup_map, Hm).
  destruct (Forall2_lookup_lr _ _ _ _ _ _ Hkrm Hkp Hkm) as (_ & [Hfkm _] & _).
  apply drawdown64_scale; [by apply (Hps t) | by apply (Hkps t) | done..].
Qed.

Lemma signed_drawdowns64_opp (ps : list R) :
  signed_drawdowns64 ps = map Ropp (drawdowns64 ps).
Proof.
  unfold signed_drawdowns64, drawdowns64.
  apply list_eq. intros t. rewrite lookup_map, !lookup_zip_with.
  destruct (ps !! t) as [p|], (running_max ps !! t) as [m|]; cbn; try reflexivity.
  by rewrite signed_drawdown64_opp.
Qed.

(** X10.  A rescaling of every price by the same power of two (a 2-for-1
    split adjustment) leaves the drawdowns bit for bit unchanged: the
    drawdown array and max_dd of compute_stock_score and the Drawdown
    column of calculate_metrics are the same before and after, for
    binary64 prices of at least 2^-968 on both sides. *)
Theorem drawdowns_unchanged_by_pow2_rescaling (k : Z) (ps : list R) :
  Forall normal_price ps -> Forall normal_price (map (Rmult (bpow k)) ps) ->
  Binary64.drawdowns (map FFin (map (Rmult (bpow k)) ps))
  = Binary64.drawdowns (map FFin ps)
  /\ Binary64.max_dd (map FFin (map (Rmult (bpow k)) ps))
     = Binary64.max_dd (map FFin ps)
  /\ Binary64.np_div
       (Binary64.np_sub (map FFin (map (Rmult (bpow k)) ps))
          (cummax (map FFin (map (Rmult (bpow k)) ps))))
       (cummax (map FFin (map (Rmult (bpow k)) ps)))
     = Binary64.np_div (Binary64.np_sub (map FFin ps) (cummax (map FFin ps)))
         (cummax (map FFin ps)).
Proof.
  intros Hps Hkps.
  assert (Hfl : Forall float_price ps).
  { eapply Forall_impl; [exact Hps | exact normal_price_float]. }
  assert (Hkfl : Forall float_price (map (Rmult (bpow k)) ps)).
  { eapply Forall_impl; [exact Hkps | exact normal_price_float]. }
  assert (Hdd : Binary64.drawdowns (map FFin (map (Rmult (bpow k)) ps))
                = Binary64.drawdowns (map FFin ps)).
  { destruct (drawdowns64_fin _ Hkfl) as (-> & _).
    destruct (drawdowns64_fin _ Hfl) as (-> & _).
    by rewrite drawdowns64_scale. }
  split; [exact Hdd|]. split.
  - unfold Binary64.max_dd. by rewrite Hdd.
  - rewrite (drawdown_column64 _ Hkfl), (drawdown_column64 _ Hfl).
    by rewrite !signed_drawdowns64_opp, drawdowns64_scale.
Qed.

Lemma normal_price_small (k n : Z) :
  (0 <= k <= 10)%Z -> (1 <= n <= 1000000)%Z -> normal_price (bpow k * IZR n).
Proof.
  intros Hk Hn. pose proof (bpow_pos k) as Hpos.
  assert (H1 : 1 <= bpow k) by (rewrite <- bpow_0; apply bpow_le; lia).
  assert (H2 : bpow k <= bpow 10) by (apply bpow_le; lia).
  rewrite (bpow_IZR 10) in H2 by lia.
  assert (H3 : bpow (-968) <= 1) by (rewrite <- bpow_0; apply bpow_le; lia).
  assert (Hn' : 1 <= IZR n <= 1000000) by (split; apply IZR_le; lia).
  split.
  - exists n, k. split; [lra|]. split; lia.
  - split; [nra|].
    apply Rle_lt_trans with (IZR (2 ^ 10) * 1000000); [cbn in *; nra|].
    apply Rlt_le_trans with (2 ^ 600); [cbn; lra | apply Rlt_le, float_max_gt_large].
Qed.

Lemma drawdowns_unchanged_by_pow2_rescaling_witness :
  Binary64.drawdowns (map FFin (map (Rmult (bpow 1)) scenario_prices))
  = Binary64.drawdowns (map FFin scenario_prices)
  /\ Binary64.max_dd (map FFin (map (Rmult (bpow 1)) scenario_prices))
     = Binary64.max_dd (map FFin scenario_prices)
  /\ Binary64.np_div
       (Binary64.np_sub (map FFin (map (Rmult (bpow 1)) scenario_prices))
          (cummax (map FFin (map (Rmult (bpow 1)) scenario_prices))))
       (cummax (map FFin (map (Rmult (bpow 1)) scenario_prices)))
     = Binary64.np_div
         (Binary64.np_sub (map FFin scenario_prices) (cummax (map FFin scenario_prices)))
         (cummax (map FFin scenario_prices)).
Proof.
  apply (drawdowns_unchanged_by_pow2_rescaling 1 scenario_prices).
  - unfold scenario_prices.
    repeat (apply List.Forall_cons;
            [rewrite <- (Rmult_1_l (IZR _)), <- bpow_0; apply normal_price_small; lia|]).
    apply List.Forall_nil.
  - unfold scenario_prices. cbn [map].
    repeat (apply List.Forall_cons; [apply normal_price_small; lia|]).
    apply List.Forall_nil.
Defined.
